(** * ZkSight agent runtime: resilience, messaging, context and alerting

    A shallow embedding of the Python sources

    - [packages/agents/src/errors.py]
    - [packages/agents/src/resilience.py]
    - [packages/agents/src/messaging/connection.py]
    - [packages/agents/src/messaging/subscriber.py]
    - [packages/agents/src/messaging/base_agent.py]
    - [packages/agents/src/query/context_manager.py]
    - [packages/agents/src/monitoring/alert_engine.py]

    Conventions.  Python [int] is [Z]; Python [float] quantities (delays,
    metric values, thresholds) are idealised as exact rationals [Q], so the
    float literals [0.25], [0.5], [0.2], [0.1], [0.01] are the rationals
    1/4, 1/2, 1/5, 1/10, 1/100.  [datetime] values are integer microsecond
    counts and a [timedelta] is their difference.  Where Python's number
    ranges make the code raise, the model raises too: an int too large to
    become a float, a duration too long for [time.sleep], a [timedelta] of
    more than 999999999 days.  A [dict] used as a map is a
    [gmap]; a [dict] that is iterated in insertion order is an association
    list.  Code that may raise returns a [Result].  Clock readings, random
    draws and generated identifiers are explicit arguments. *)

From Stdlib Require Import ZArith QArith Qabs Qminmax Qpower Lia Lqa.
From stdpp Require Import gmap strings list fin_maps pretty.

Open Scope Z_scope.

(** ** Comparison of rationals *)

Module PyNum.

(** [a < b] on floats *)
Definition Qlt_bool (a b : Q) : bool := negb (Qle_bool b a).

End PyNum.

(** ** errors.py *)

Module Errors.

Inductive ErrorCode :=
| DATA_SOURCE_UNAVAILABLE | DATA_SOURCE_TIMEOUT | DATA_SOURCE_RATE_LIMITED
| DATA_SOURCE_AUTH_FAILED | DATA_SOURCE_INVALID_RESPONSE
| INSUFFICIENT_DATA | INVALID_DATA_FORMAT | DATA_VALIDATION_FAILED
| ANALYSIS_FAILED | CORRELATION_CALCULATION_FAILED
| ANOMALY_DETECTION_FAILED | PATTERN_RECOGNITION_FAILED
| INVALID_QUERY | QUERY_PARSING_FAILED | AMBIGUOUS_QUERY
| UNSUPPORTED_QUERY_TYPE
| LLM_API_ERROR | LLM_RATE_LIMITED | LLM_TIMEOUT | LLM_INVALID_RESPONSE
| VERIFICATION_FAILED | CLAIM_EXTRACTION_FAILED | CONFLICT_DETECTED
| INTERNAL_SERVER_ERROR | DATABASE_ERROR | CACHE_ERROR | MESSAGE_BUS_ERROR
| CONFIGURATION_ERROR
| UNAUTHORIZED | FORBIDDEN | RATE_LIMIT_EXCEEDED | QUOTA_EXCEEDED
| INVALID_INPUT.

(** The subclasses of [ChimeraError] only differ in their defaults; the
    class is kept as a tag. *)
Inductive ErrorClass :=
| ChimeraErrorC | DataSourceErrorC | DataProcessingErrorC | AnalysisErrorC
| QueryErrorC | LLMErrorC | VerificationErrorC | SystemErrorC | UserErrorC.

Record ChimeraError := mkChimeraError {
  cls : ErrorClass;
  message : string;
  code : ErrorCode;
  retryable : bool;
  details : list (string * string);
  suggested_action : option string;
}.

(** [DataSourceError.__init__]: [details["source"] = source], then the
    base initialiser with a fixed suggested action. *)
Definition DataSourceError (message source : string) (code : ErrorCode)
    (retryable : bool) : ChimeraError :=
  {| cls := DataSourceErrorC;
     message := message;
     code := code;
     retryable := retryable;
     details := [("source", source)];
     suggested_action :=
       Some "Check data source connectivity and try again" |}.

(** A raised Python exception: a domain error, or any other [Exception]
    (named by its class, e.g. [ValueError], [TypeError]). *)
Inductive Exception :=
| EChimera (e : ChimeraError)
| EOther (class_name : string) (msg : string).

(** [isinstance(e, ChimeraError) and not e.retryable] *)
Definition is_non_retryable_chimera (e : Exception) : bool :=
  match e with
  | EChimera c => negb (retryable c)
  | EOther _ _ => false
  end.

(** The outcome of running a Python callable. *)
Inductive Result (A : Type) :=
| Return (v : A)
| Raise (e : Exception).
Arguments Return {A} v.
Arguments Raise {A} e.

End Errors.

(** ** Floats and [time.sleep] *)

Module PyFloat.
Import PyNum Errors.

(** The first int that does not fit a float: [2**1024 - 2**970] rounds up
    to [2**1024]. *)
Definition float_overflow : Z := 2 ^ 1024 - 2 ^ 970.

(** An int in arithmetic with a float is converted to a float first; one
    that does not fit is an [OverflowError]. *)
Definition float_of_int (n : Z) : Result Q :=
  if Z.abs n <? float_overflow then Return (inject_Z n)
  else Raise (EOther "OverflowError" "int too large to convert to float").

(** [2 ** n] on its way into a product with a float: for [n >= 0] it is an
    int, converted as above, so an [OverflowError] from [n = 1024] on; for
    [n < 0] it is a float already. *)
Definition float_pow2 (n : Z) : Result Q :=
  if 1024 <=? n then
    Raise (EOther "OverflowError" "int too large to convert to float")
  else Return (Qpower 2 n).

(** [time.sleep(secs)]: the duration is converted to nanoseconds in a
    signed 64-bit integer, an [OverflowError] when it does not fit; a
    negative duration is then refused with a [ValueError]. *)
Definition time_sleep (secs : Q) : Result unit :=
  let ns := (secs * inject_Z (10 ^ 9))%Q in
  if Qle_bool (inject_Z (2 ^ 63)) ns || Qlt_bool ns (inject_Z (- 2 ^ 63))
  then
    Raise (EOther "OverflowError"
             "timestamp too large to convert to C _PyTime_t")
  else if Qlt_bool secs 0 then
    Raise (EOther "ValueError" "sleep length must be non-negative")
  else Return tt.

End PyFloat.

(** ** resilience.py *)

Module Resilience.
Import PyNum Errors PyFloat.

Inductive CircuitState := CLOSED | OPEN | HALF_OPEN.

Definition CircuitState_eqb (a b : CircuitState) : bool :=
  match a, b with
  | CLOSED, CLOSED | OPEN, OPEN | HALF_OPEN, HALF_OPEN => true
  | _, _ => false
  end.

Inductive RetryStrategy := EXPONENTIAL | LINEAR | CONSTANT.

(** [random.uniform(a, b)] is [a + (b - a) * random()], with [random()]
    drawn from [0, 1); the draw is the argument [rnd]. *)
Definition uniform (a b rnd : Q) : Q := (a + (b - a) * rnd)%Q.

(** [exponential_backoff(attempt, base_delay, max_delay, jitter)].  The
    product [base_delay * (2 ** attempt)] is computed before the cap is
    applied, and raises when [2 ** attempt] does not fit a float. *)
Definition exponential_backoff (attempt : Z) (base_delay max_delay : Q)
    (jitter : bool) (rnd : Q) : Result Q :=
  match float_pow2 attempt with
  | Raise e => Raise e
  | Return factor =>
      let delay := Qmin (base_delay * factor) max_delay in
      let delay :=
        if jitter then
          let jitter_amount := (delay * (1 # 4))%Q in
          (delay + uniform (- jitter_amount) jitter_amount rnd)%Q
        else delay in
      Return (Qmax 0 delay)
  end.

(** [linear_backoff(attempt, base_delay, max_delay)] *)
Definition linear_backoff (attempt : Z) (base_delay max_delay : Q)
    : Result Q :=
  match float_of_int (attempt + 1) with
  | Raise e => Raise e
  | Return factor => Return (Qmin (base_delay * factor) max_delay)
  end.

(** [constant_backoff(delay)] *)
Definition constant_backoff (delay : Q) : Q := delay.

Record RetryConfig := mkRetryConfig {
  max_attempts : Z;
  strategy : RetryStrategy;
  base_delay : Q;
  max_delay : Q;
  jitter : bool;
  (** [isinstance(e, retryable_exceptions)] *)
  retryable_exceptions : Exception -> bool;
}.

(** [RetryConfig.get_delay] *)
Definition get_delay (self : RetryConfig) (attempt : Z) (rnd : Q)
    : Result Q :=
  match strategy self with
  | EXPONENTIAL =>
      exponential_backoff attempt (base_delay self) (max_delay self)
        (jitter self) rnd
  | LINEAR => linear_backoff attempt (base_delay self) (max_delay self)
  | CONSTANT => Return (constant_backoff (base_delay self))
  end.

(** The configuration built by the decorator [retry(...)]: it has no
    [jitter] argument, so [RetryConfig]'s default [jitter=True] applies;
    [retryable_exceptions or (Exception,)] catches everything when the
    argument is [None]. *)
Definition retry_config (max_attempts : Z) (strategy : RetryStrategy)
    (base_delay max_delay : Q)
    (retryable_exceptions : option (Exception -> bool)) : RetryConfig :=
  {| max_attempts := max_attempts;
     strategy := strategy;
     base_delay := base_delay;
     max_delay := max_delay;
     jitter := true;
     retryable_exceptions :=
       match retryable_exceptions with
       | Some p => p
       | None => fun _ => true
       end |}.

(** What a run of the wrapper did, in order. *)
Inductive RetryEvent :=
| Invoke (attempt : Z)
| Sleep (delay : Q).

Definition is_invoke (ev : RetryEvent) : bool :=
  match ev with Invoke _ => true | Sleep _ => false end.

Definition sleep_of (ev : RetryEvent) : option Q :=
  match ev with Sleep d => Some d | Invoke _ => None end.

Definition invocations (tr : list RetryEvent) : nat :=
  length (filter (fun ev => is_invoke ev = true) tr).

Definition sleeps (tr : list RetryEvent) : list Q :=
  omap sleep_of tr.

Section Retry.
Context {T : Type}.
(** The wrapped callable: its outcome at each attempt. *)
Variable func : Z -> Result T.
(** The random draw used by the delay computed after each attempt. *)
Variable rnd : Z -> Q.
Variable config : RetryConfig.

(** [range(n)] *)
Definition range (n : Z) : list Z := seqZ 0 n.

(** The body of [for attempt in range(config.max_attempts)], over the
    attempts still to run.  [last_exception] is the variable of the
    source; falling out of the loop runs [raise last_exception], which
    is a [TypeError] when it is still [None].  An exception raised by
    [config.get_delay] or by [time.sleep] is raised inside the [except]
    clause and leaves the wrapper. *)
Fixpoint retry_loop (attempts : list Z) (last_exception : option Exception)
    : list RetryEvent * Result T :=
  match attempts with
  | [] =>
      match last_exception with
      | Some e => ([], Raise e)
      | None =>
          ([], Raise (EOther "TypeError"
                        "exceptions must derive from BaseException"))
      end
  | attempt :: rest =>
      match func attempt with
      | Return v => ([Invoke attempt], Return v)
      | Raise e =>
          if retryable_exceptions config e then
            if is_non_retryable_chimera e then
              ([Invoke attempt], Raise e)
            else if attempt <? max_attempts config - 1 then
              match get_delay config attempt (rnd attempt) with
              | Raise e' => ([Invoke attempt], Raise e')
              | Return delay =>
                  match time_sleep delay with
                  | Raise e' => ([Invoke attempt], Raise e')
                  | Return _ =>
                      let '(tr, r) := retry_loop rest (Some e) in
                      (Invoke attempt :: Sleep delay :: tr, r)
                  end
              end
            else
              let '(tr, r) := retry_loop rest (Some e) in
              (Invoke attempt :: tr, r)
          else ([Invoke attempt], Raise e)
      end
  end.

(** [sync_wrapper].  [async_wrapper] runs the same loop with
    [asyncio.sleep] in the place of [time.sleep]. *)
Definition sync_wrapper : list RetryEvent * Result T :=
  retry_loop (range (max_attempts config)) None.

(** An outcome after which the loop does not go on: a value, an exception
    outside [retryable_exceptions], or a non-retryable domain error. *)
Definition ends_run (r : Result T) : Prop :=
  match r with
  | Return _ => True
  | Raise e =>
      retryable_exceptions config e = false \/
      is_non_retryable_chimera e = true
  end.

(** An outcome after which the loop goes on, if attempts remain. *)
Definition retried (r : Result T) : Prop :=
  exists e, r = Raise e /\ retryable_exceptions config e = true /\
            is_non_retryable_chimera e = false.

(** The delay after the attempt is computed, and [time.sleep] accepts
    it. *)
Definition can_sleep (attempt : Z) : Prop :=
  exists delay,
    get_delay config attempt (rnd attempt) = Return delay /\
    time_sleep delay = Return tt.

(** Computing the delay after the attempt, or sleeping it, raises [e]. *)
Definition sleep_raises (attempt : Z) (e : Exception) : Prop :=
  get_delay config attempt (rnd attempt) = Raise e \/
  exists delay,
    get_delay config attempt (rnd attempt) = Return delay /\
    time_sleep delay = Raise e.

End Retry.

(** *** Circuit breaker *)

Record CircuitBreaker := mkCircuitBreaker {
  failure_threshold : Z;
  (** [timedelta(seconds=recovery_timeout)], in microseconds *)
  recovery_timeout : Z;
  (** [isinstance(e, expected_exception)] *)
  expected_exception : Exception -> bool;
  name : string;
  _state : CircuitState;
  _failure_count : Z;
  _last_failure_time : option Z;
  _success_count : Z;
}.

(** [CircuitBreaker.__init__]; [name or "unnamed"]. *)
Definition new_breaker (failure_threshold recovery_timeout : Z)
    (expected_exception : Exception -> bool) (name : option string)
    : CircuitBreaker :=
  {| failure_threshold := failure_threshold;
     recovery_timeout := recovery_timeout;
     expected_exception := expected_exception;
     name := match name with
             | Some n => if String.eqb n "" then "unnamed" else n
             | None => "unnamed"
             end;
     _state := CLOSED;
     _failure_count := 0;
     _last_failure_time := None;
     _success_count := 0 |}.

Definition set_state (st : CircuitState) (cb : CircuitBreaker) :=
  {| failure_threshold := failure_threshold cb;
     recovery_timeout := recovery_timeout cb;
     expected_exception := expected_exception cb;
     name := name cb;
     _state := st;
     _failure_count := _failure_count cb;
     _last_failure_time := _last_failure_time cb;
     _success_count := _success_count cb |}.

Definition set_failure_count (n : Z) (cb : CircuitBreaker) :=
  {| failure_threshold := failure_threshold cb;
     recovery_timeout := recovery_timeout cb;
     expected_exception := expected_exception cb;
     name := name cb;
     _state := _state cb;
     _failure_count := n;
     _last_failure_time := _last_failure_time cb;
     _success_count := _success_count cb |}.

Definition set_last_failure_time (t : option Z) (cb : CircuitBreaker) :=
  {| failure_threshold := failure_threshold cb;
     recovery_timeout := recovery_timeout cb;
     expected_exception := expected_exception cb;
     name := name cb;
     _state := _state cb;
     _failure_count := _failure_count cb;
     _last_failure_time := t;
     _success_count := _success_count cb |}.

Definition set_success_count (n : Z) (cb : CircuitBreaker) :=
  {| failure_threshold := failure_threshold cb;
     recovery_timeout := recovery_timeout cb;
     expected_exception := expected_exception cb;
     name := name cb;
     _state := _state cb;
     _failure_count := _failure_count cb;
     _last_failure_time := _last_failure_time cb;
     _success_count := n |}.

(** [_should_attempt_reset]; [now] is the reading of [datetime.now()]. *)
Definition _should_attempt_reset (self : CircuitBreaker) (now : Z) : bool :=
  if negb (CircuitState_eqb (_state self) OPEN) then false
  else
    match _last_failure_time self with
    | None => false
    | Some last =>
        let time_since_failure := now - last in
        recovery_timeout self <=? time_since_failure
    end.

(** [_on_success] *)
Definition _on_success (self : CircuitBreaker) : CircuitBreaker :=
  if CircuitState_eqb (_state self) HALF_OPEN then
    let self := set_success_count (_success_count self + 1) self in
    if 2 <=? _success_count self then
      set_failure_count 0 (set_state CLOSED self)
    else self
  else set_failure_count 0 self.

(** [_on_failure]; [now] is the reading of [datetime.now()]. *)
Definition _on_failure (self : CircuitBreaker) (now : Z) : CircuitBreaker :=
  let self := set_failure_count (_failure_count self + 1) self in
  let self := set_last_failure_time (Some now) self in
  if CircuitState_eqb (_state self) HALF_OPEN then set_state OPEN self
  else if failure_threshold self <=? _failure_count self then
    set_state OPEN self
  else self.

(** The first statement of [call]: the reset check. *)
Definition attempt_reset (self : CircuitBreaker) (now : Z) : CircuitBreaker :=
  if _should_attempt_reset self now then
    set_success_count 0 (set_state HALF_OPEN self)
  else self.

(** The error raised while the circuit is open. *)
Definition open_error (self : CircuitBreaker) : ChimeraError :=
  DataSourceError ("Circuit breaker '" ++ name self ++ "' is OPEN")
    (name self) DATA_SOURCE_UNAVAILABLE true.

(** What one [call] did: the breaker afterwards, whether the wrapped
    function was invoked, and what the caller gets. *)
Record CallOutcome (T : Type) := mkCallOutcome {
  breaker : CircuitBreaker;
  invoked : bool;
  outcome : Result T;
}.
Arguments mkCallOutcome {T}.
Arguments breaker {T}.
Arguments invoked {T}.
Arguments outcome {T}.

(** [CircuitBreaker.call] (and [call_async]).  [now] is the clock read by
    the reset check, [func] the outcome of the wrapped function should it
    be invoked, [now_fail] the clock read by [_on_failure].  An exception
    that is not an [expected_exception] propagates without touching the
    counters. *)
Definition call {T} (self : CircuitBreaker) (now : Z) (func : Result T)
    (now_fail : Z) : CallOutcome T :=
  let self := attempt_reset self now in
  if CircuitState_eqb (_state self) OPEN then
    mkCallOutcome self false (Raise (EChimera (open_error self)))
  else
    match func with
    | Return result => mkCallOutcome (_on_success self) true (Return result)
    | Raise e =>
        if expected_exception self e then
          mkCallOutcome (_on_failure self now_fail) true (Raise e)
        else mkCallOutcome self true (Raise e)
    end.

(** [reset] *)
Definition reset (self : CircuitBreaker) : CircuitBreaker :=
  set_last_failure_time None
    (set_success_count 0 (set_failure_count 0 (set_state CLOSED self))).

(** One call through the breaker, as the environment sees it. *)
Record CallEvent (T : Type) := mkCallEvent {
  ev_now : Z;
  ev_func : Result T;
  ev_now_fail : Z;
}.
Arguments mkCallEvent {T}.
Arguments ev_now {T}.
Arguments ev_func {T}.
Arguments ev_now_fail {T}.

Definition call_event {T} (self : CircuitBreaker) (ev : CallEvent T)
    : CallOutcome T :=
  call self (ev_now ev) (ev_func ev) (ev_now_fail ev).

(** A sequence of calls on one breaker: the final breaker and the
    outcome of every call. *)
Fixpoint run_calls {T} (self : CircuitBreaker) (evs : list (CallEvent T))
    : CircuitBreaker * list (CallOutcome T) :=
  match evs with
  | [] => (self, [])
  | ev :: rest =>
      let o := call_event self ev in
      let '(final, os) := run_calls (breaker o) rest in
      (final, o :: os)
  end.

(** What every breaker reached from a new one satisfies, for a threshold
    of at least 1: the failure count is not negative; a closed breaker is
    below its threshold; an open breaker knows when it last failed; a
    half-open breaker has seen at most one success. *)
Definition breaker_invariant (cb : CircuitBreaker) : Prop :=
  1 <= failure_threshold cb /\
  0 <= _failure_count cb /\
  match _state cb with
  | CLOSED => _failure_count cb < failure_threshold cb
  | OPEN => is_Some (_last_failure_time cb)
  | HALF_OPEN => 0 <= _success_count cb <= 1
  end.

(** The call raises an exception the breaker counts as a failure. *)
Definition counted_failure {T} (cb : CircuitBreaker) (ev : CallEvent T)
    : Prop :=
  exists e, ev_func ev = Raise e /\ expected_exception cb e = true.

(** The call returns, or raises an exception the breaker does not count. *)
Definition not_counted {T} (cb : CircuitBreaker) (ev : CallEvent T) : Prop :=
  match ev_func ev with
  | Return _ => True
  | Raise e => expected_exception cb e = false
  end.

End Resilience.

(** ** messaging/subscriber.py and messaging/base_agent.py *)

Module Messaging.
Import Errors.

(** Sequencing of statements that may raise: the first exception wins. *)
#[global] Instance Result_bind : MBind Result := fun A B k r =>
  match r with
  | Return v => k v
  | Raise e => Raise e
  end.

(** [pika.spec.Basic.Deliver] and [pika.spec.BasicProperties], as far as
    [_on_message] reads them. *)
Record Deliver := mkDeliver {
  routing_key : string;
  delivery_tag : Z;
}.

Record BasicProperties := mkBasicProperties {
  correlation_id : option string;
  app_id : option string;
}.

(** The [msg_properties] dict handed to the handler. *)
Record MsgProperties := mkMsgProperties {
  mp_routing_key : string;
  mp_correlation_id : option string;
  mp_delivery_tag : Z;
  mp_app_id : option string;
}.

(** What the callback sends on the channel. *)
Inductive ChannelOp :=
| basic_ack (delivery_tag : Z)
| basic_nack (delivery_tag : Z) (requeue : bool).

Definition is_ack_of (tag : Z) (op : ChannelOp) : bool :=
  match op with
  | basic_ack t => t =? tag
  | basic_nack _ _ => false
  end.

Definition is_nack (op : ChannelOp) : bool :=
  match op with
  | basic_ack _ => false
  | basic_nack _ _ => true
  end.

Definition is_ack (op : ChannelOp) : bool :=
  match op with
  | basic_ack _ => true
  | basic_nack _ _ => false
  end.

Definition is_nack_of (tag : Z) (requeue : bool) (op : ChannelOp) : bool :=
  match op with
  | basic_ack _ => false
  | basic_nack t r => (t =? tag) && Bool.eqb r requeue
  end.

Definition count_ops (p : ChannelOp -> bool) (ops : list ChannelOp) : nat :=
  length (filter (fun op => p op = true) ops).

(** A [CorrelationEntry]: the dict stored by [publish_request].  Entries
    put in the map by other means (the unit tests do) may lack keys, so
    every key is optional. *)
Record CorrelationEntry (Any : Type) := mkCorrelationEntry {
  request_routing_key : option string;
  reply_routing_key : option string;
  context : option (gmap string Any);
  timestamp : option Z;
}.
Arguments mkCorrelationEntry {Any}.
Arguments request_routing_key {Any}.
Arguments reply_routing_key {Any}.
Arguments context {Any}.
Arguments timestamp {Any}.

Section Agent.
(** Protocol buffer message classes, messages, wire bodies and context
    values are opaque to the agent core. *)
Context {MessageClass ProtoMessage Body Any : Type}.

(** [deserialize_message(body, message_class)] *)
Variable deserialize_message : Body -> MessageClass -> Result ProtoMessage.
(** the abstract [get_routing_key_map()] *)
Variable get_routing_key_map : gmap string MessageClass.
(** the abstract [handle_message(message, properties)] *)
Variable handle_message : ProtoMessage -> MsgProperties -> Result unit.
(** the exception with which the channel refuses a call, if it does (a
    closed channel, a lost connection) *)
Variable channel_error : ChannelOp -> option Exception.

(** [BaseAgent.get_message_class] *)
Definition get_message_class (routing_key : string) : Result MessageClass :=
  let message_map := get_routing_key_map in
  match message_map !! routing_key with
  | None => Raise (EOther "ValueError" ("Unknown routing key: " ++ routing_key))
  | Some message_class => Return message_class
  end.

(** The [msg_properties] dict built at the start of [_on_message]. *)
Definition msg_properties_of (method : Deliver)
    (properties : BasicProperties) : MsgProperties :=
  {| mp_routing_key := routing_key method;
     mp_correlation_id := correlation_id properties;
     mp_delivery_tag := delivery_tag method;
     mp_app_id := app_id properties |}.

(** A call on the channel: the operation is sent, unless the channel
    refuses the call with an exception. *)
Definition channel_call (op : ChannelOp) : list ChannelOp * Result unit :=
  match channel_error op with
  | Some e => ([], Raise e)
  | None => ([op], Return tt)
  end.

(** The steps of the [try] block of [_on_message] before the ack. *)
Definition _on_message_steps (method : Deliver)
    (properties : BasicProperties) (body : Body) : Result unit :=
  let msg_properties := msg_properties_of method properties in
  message_class ← get_message_class (routing_key method);
  message ← deserialize_message body message_class;
  handle_message message msg_properties.

(** The [try] block of [_on_message]: it ends with the ack, which is a
    call that can raise like the steps before it. *)
Definition _on_message_try (method : Deliver) (properties : BasicProperties)
    (body : Body) : list ChannelOp * Result unit :=
  match _on_message_steps method properties body with
  | Raise e => ([], Raise e)
  | Return _ => channel_call (basic_ack (delivery_tag method))
  end.

(** [EventSubscriber._on_message]: the operations sent on the channel, and
    what the callback gives pika.  [except Exception] answers any error of
    the [try] block, a refused ack included, with
    [basic_nack(delivery_tag, requeue=False)]; an exception raised by that
    call leaves the callback. *)
Definition _on_message (method : Deliver) (properties : BasicProperties)
    (body : Body) : list ChannelOp * Result unit :=
  match _on_message_try method properties body with
  | (ops, Return _) => (ops, Return tt)
  | (ops, Raise e) =>
      let '(ops', r) := channel_call (basic_nack (delivery_tag method) false)
      in (ops ++ ops', r)
  end.

(** Lookup of the payload type, deserialisation and the handler all
    succeed for this delivery. *)
Definition delivery_succeeds (method : Deliver)
    (properties : BasicProperties) (body : Body) : Prop :=
  exists message_class message,
    get_routing_key_map !! routing_key method = Some message_class /\
    deserialize_message body message_class = Return message /\
    handle_message message (msg_properties_of method properties)
      = Return tt.

(** One of the three steps raises. *)
Definition delivery_fails (method : Deliver)
    (properties : BasicProperties) (body : Body) : Prop :=
  get_routing_key_map !! routing_key method = None \/
  (exists message_class e,
     get_routing_key_map !! routing_key method = Some message_class /\
     deserialize_message body message_class = Raise e) \/
  (exists message_class message e,
     get_routing_key_map !! routing_key method = Some message_class /\
     deserialize_message body message_class = Return message /\
     handle_message message (msg_properties_of method properties)
       = Raise e).

(** A message handed to [EventPublisher.publish]. *)
Record Publication := mkPublication {
  pub_message : ProtoMessage;
  pub_routing_key : string;
  pub_correlation_id : option string;
}.

(** The state of a [BaseAgent] that the request/response primitives
    touch: what its publisher has sent, and the correlation map. *)
Record BaseAgent := mkBaseAgent {
  agent_name : string;
  published : list Publication;
  _correlation_map : gmap string (CorrelationEntry Any);
}.

Definition set_correlation_map (m : gmap string (CorrelationEntry Any))
    (self : BaseAgent) : BaseAgent :=
  {| agent_name := agent_name self;
     published := published self;
     _correlation_map := m |}.

(** [self.publisher.publish(...)]: it raises when the broker call
    fails ([publish_error]), otherwise the message is sent. *)
Definition publish (self : BaseAgent) (message : ProtoMessage)
    (routing_key : string) (correlation_id : option string)
    (publish_error : option Exception) : BaseAgent * Result unit :=
  match publish_error with
  | Some e => (self, Raise e)
  | None =>
      ({| agent_name := agent_name self;
          published :=
            published self ++
              [{| pub_message := message;
                  pub_routing_key := routing_key;
                  pub_correlation_id := correlation_id |}];
          _correlation_map := _correlation_map self |},
       Return tt)
  end.

(** [context or {}]: [None] and the empty dict are both falsy. *)
Definition context_or_empty (context : option (gmap string Any))
    : gmap string Any :=
  match context with
  | Some c => if (size c =? 0)%nat then ∅ else c
  | None => ∅
  end.

(** [BaseAgent.publish_request].  [uuid4] is the generated
    [str(uuid.uuid4())], [now_ms] the reading of [_get_timestamp()]. *)
Definition publish_request (self : BaseAgent) (message : ProtoMessage)
    (routing_key reply_routing_key : string)
    (context : option (gmap string Any))
    (uuid4 : string) (now_ms : Z) (publish_error : option Exception)
    : BaseAgent * Result string :=
  let correlation_id := uuid4 in
  let self :=
    set_correlation_map
      (<[correlation_id :=
           {| request_routing_key := Some routing_key;
              reply_routing_key := Some reply_routing_key;
              context := Some (context_or_empty context);
              timestamp := Some now_ms |}]> (_correlation_map self))
      self in
  match publish self message routing_key (Some correlation_id)
          publish_error with
  | (self, Return _) => (self, Return correlation_id)
  | (self, Raise e) => (self, Raise e)
  end.

(** [BaseAgent.publish_response] *)
Definition publish_response (self : BaseAgent) (message : ProtoMessage)
    (routing_key : string) (correlation_id : string)
    (publish_error : option Exception) : BaseAgent * Result unit :=
  publish self message routing_key (Some correlation_id) publish_error.

(** [BaseAgent.get_correlation_context] *)
Definition get_correlation_context (self : BaseAgent)
    (correlation_id : string) : option (CorrelationEntry Any) :=
  _correlation_map self !! correlation_id.

(** [BaseAgent.clear_correlation] *)
Definition clear_correlation (self : BaseAgent) (correlation_id : string)
    : BaseAgent :=
  match _correlation_map self !! correlation_id with
  | Some _ =>
      set_correlation_map (delete correlation_id (_correlation_map self))
        self
  | None => self
  end.

(** [data.get("timestamp", 0)] *)
Definition entry_timestamp (data : CorrelationEntry Any) : Z :=
  default 0 (timestamp data).

(** The list comprehension of [cleanup_old_correlations]: the ids of
    the entries older than the cutoff. *)
Definition old_ids_of (m : gmap string (CorrelationEntry Any))
    (cutoff_time : Z) : list string :=
  (filter (fun item : string * CorrelationEntry Any =>
             entry_timestamp item.2 < cutoff_time)
     (map_to_list m)).*1.

(** [BaseAgent.cleanup_old_correlations]; [now_ms] is the reading of
    [_get_timestamp()].  Returns the agent and [len(old_ids)]. *)
Definition cleanup_old_correlations (self : BaseAgent)
    (max_age_seconds : Z) (now_ms : Z) : BaseAgent * Z :=
  let current_time := now_ms in
  let cutoff_time := current_time - max_age_seconds * 1000 in
  let old_ids := old_ids_of (_correlation_map self) cutoff_time in
  let m := foldl (fun m corr_id => delete corr_id m)
             (_correlation_map self) old_ids in
  (set_correlation_map m self, Z.of_nat (length old_ids)).

(** A response published by this agent, as the environment sees it. *)
Record ResponseCall := mkResponseCall {
  rc_message : ProtoMessage;
  rc_routing_key : string;
  rc_correlation_id : string;
  rc_publish_error : option Exception;
}.

(** A sequence of [publish_response] calls; a failed publish raises to
    its caller and the agent carries on. *)
Definition publish_responses (self : BaseAgent) (rs : list ResponseCall)
    : BaseAgent :=
  foldl (fun self r =>
           (publish_response self (rc_message r) (rc_routing_key r)
              (rc_correlation_id r) (rc_publish_error r)).1)
    self rs.
(** The parameters of [EventPublisher.publish], [self] apart. *)
Definition publish_parameters : list string :=
  ["message"; "routing_key"; "correlation_id"; "properties"].

(** A call [self.publisher.publish(k1=..., k2=..., ...)]: a keyword that
    names no parameter is a [TypeError], raised before the body runs. *)
Definition publish_keywords (self : BaseAgent) (keywords : list string)
    (message : ProtoMessage) (routing_key : string)
    (correlation_id : option string) (publish_error : option Exception)
    : BaseAgent * Result unit :=
  match filter (fun k => k ∉ publish_parameters) keywords with
  | k :: _ =>
      (self,
       Raise (EOther "TypeError"
                ("publish() got an unexpected keyword argument '" ++ k
                 ++ "'")))
  | [] => publish self message routing_key correlation_id publish_error
  end.

(** [BaseAgent.publish_event].  The tracing calls sit in a [try] that
    swallows their errors; the publisher is then called with the keywords
    [message], [routing_key], [correlation_id] and [headers]. *)
Definition publish_event (self : BaseAgent) (message : ProtoMessage)
    (routing_key : string) (correlation_id : option string)
    (uuid4 : string) (publish_error : option Exception)
    : BaseAgent * Result string :=
  let correlation_id :=
    match correlation_id with
    | None => uuid4
    | Some c => c
    end in
  match publish_keywords self
          ["message"; "routing_key"; "correlation_id"; "headers"]
          message routing_key (Some correlation_id) publish_error with
  | (self, Return _) => (self, Return correlation_id)
  | (self, Raise e) => (self, Raise e)
  end.

(** What the tracing calls around the handler do: [span_start] is an error
    raised on entering the span or by the calls before the handler,
    [span_processed] one raised by the event recorded after the handler,
    [span_exit] one raised on leaving the span. *)
Record TracingRun := mkTracingRun {
  span_start : option Exception;
  span_processed : option Exception;
  span_exit : option Exception;
}.

(** [BaseAgent.handle_message].  [route_message] gives the outcome of each
    invocation of the subclass's handler, counted from 0; the result is the
    number of invocations and what [handle_message] gives its caller.  An
    exception that leaves the [with] block, from the handler or from
    tracing, is caught by the outer [except], which runs the handler
    (again). *)
Definition handle_message_routed (TRACING_AVAILABLE : bool)
    (tracing : TracingRun) (route_message : nat -> Result unit)
    : nat * Result unit :=
  if TRACING_AVAILABLE then
    match span_start tracing with
    | Some _ => (1%nat, route_message 0%nat)
    | None =>
        match route_message 0%nat with
        | Raise _ => (2%nat, route_message 1%nat)
        | Return _ =>
            match span_processed tracing, span_exit tracing with
            | None, None => (1%nat, Return tt)
            | _, _ => (2%nat, route_message 1%nat)
            end
        end
    end
  else (1%nat, route_message 0%nat).

(** [BaseAgent.close], as far as the correlation map goes:
    [self._correlation_map.clear()]. *)
Definition close (self : BaseAgent) : BaseAgent :=
  set_correlation_map ∅ self.

(** The request/response primitives, as calls on one agent. *)
Inductive AgentCall :=
| call_publish_request (message : ProtoMessage)
    (routing_key reply_routing_key : string)
    (context : option (gmap string Any)) (uuid4 : string) (now_ms : Z)
    (publish_error : option Exception)
| call_publish_response (message : ProtoMessage) (routing_key : string)
    (correlation_id : string) (publish_error : option Exception)
| call_publish_event (message : ProtoMessage) (routing_key : string)
    (correlation_id : option string) (uuid4 : string)
    (publish_error : option Exception)
| call_clear_correlation (correlation_id : string)
| call_cleanup_old_correlations (max_age_seconds : Z) (now_ms : Z).

Definition agent_call (self : BaseAgent) (c : AgentCall) : BaseAgent :=
  match c with
  | call_publish_request message routing_key reply_routing_key context uuid4
      now_ms publish_error =>
      (publish_request self message routing_key reply_routing_key context
         uuid4 now_ms publish_error).1
  | call_publish_response message routing_key correlation_id publish_error =>
      (publish_response self message routing_key correlation_id
         publish_error).1
  | call_publish_event message routing_key correlation_id uuid4
      publish_error =>
      (publish_event self message routing_key correlation_id uuid4
         publish_error).1
  | call_clear_correlation correlation_id =>
      clear_correlation self correlation_id
  | call_cleanup_old_correlations max_age_seconds now_ms =>
      (cleanup_old_correlations self max_age_seconds now_ms).1
  end.

(** The correlation ids generated by the requests among the calls. *)
Definition request_ids (calls : list AgentCall) : list string :=
  omap (fun c =>
          match c with
          | call_publish_request _ _ _ _ uuid4 _ _ => Some uuid4
          | _ => None
          end) calls.

End Agent.

(** *** Queue set-up *)

(** A value in a queue's [arguments] dict. *)
Inductive ArgValue :=
| arg_str (s : string)
| arg_int (n : Z).

(** What [_setup_queue] asks of the broker. *)
Inductive BrokerOp :=
| exchange_declare (exchange exchange_type : string) (durable : bool)
| queue_declare (queue : string) (durable exclusive auto_delete : bool)
    (arguments : list (string * ArgValue))
| queue_bind (queue exchange routing_key : string)
| basic_qos (prefetch_count : Z).

(** The settings fixed by [EventSubscriber.__init__]. *)
Record Subscriber := mkSubscriber {
  sub_agent_name : string;
  exchange_name : string;
  queue_name : string;
  routing_keys : list string;
  prefetch_count : Z;
}.

(** [x or default] for an optional string and an optional list. *)
Definition str_or (x : option string) (d : string) : string :=
  match x with
  | Some s => if String.eqb s "" then d else s
  | None => d
  end.

Definition list_or {A} (x : option (list A)) (d : list A) : list A :=
  match x with
  | Some (y :: l) => y :: l
  | _ => d
  end.

(** [EventSubscriber.__init__], up to the call of [_setup_queue]. *)
Definition new_subscriber (agent_name : string) (exchange_name : string)
    (queue_name : option string) (routing_keys : option (list string))
    (prefetch_count : Z) : Subscriber :=
  {| sub_agent_name := agent_name;
     exchange_name := exchange_name;
     queue_name := str_or queue_name agent_name;
     routing_keys := list_or routing_keys ["#"];
     prefetch_count := prefetch_count |}.

(** The subscriber part of [BaseAgent.__init__]: the queue is named after
    the agent, and the default routing key is [f"{agent_name}.#"]. *)
Definition new_agent_subscriber (agent_name : string)
    (exchange_name : string) (routing_keys : option (list string))
    (prefetch_count : Z) : Subscriber :=
  new_subscriber agent_name exchange_name (Some agent_name)
    (Some (list_or routing_keys [(agent_name ++ ".#")%string]))
    prefetch_count.

(** The operations of [_setup_queue], in order. *)
Definition setup_ops (self : Subscriber) : list BrokerOp :=
  let dlx := (exchange_name self ++ ".dlx")%string in
  let dlq_name := (queue_name self ++ ".dlq")%string in
  [exchange_declare (exchange_name self) "topic" true;
   queue_declare (queue_name self) true false false
     [("x-dead-letter-exchange", arg_str dlx);
      ("x-message-ttl", arg_int 86400000)];
   exchange_declare dlx "topic" true;
   queue_declare dlq_name true false false []]
  ++ map (fun routing_key => queue_bind dlq_name dlx routing_key)
       (routing_keys self)
  ++ map (fun routing_key =>
            queue_bind (queue_name self) (exchange_name self) routing_key)
       (routing_keys self)
  ++ [basic_qos (prefetch_count self)].

(** Sending operations to the broker until one raises; [broker_error]
    tells which do, by position. *)
Fixpoint send_ops (ops : list BrokerOp) (position : nat)
    (broker_error : nat -> option Errors.Exception)
    : list BrokerOp * Errors.Result unit :=
  match ops with
  | [] => ([], Errors.Return tt)
  | op :: rest =>
      match broker_error position with
      | Some e => ([], Errors.Raise e)
      | None =>
          let '(done, r) := send_ops rest (S position) broker_error in
          (op :: done, r)
      end
  end.

(** [EventSubscriber._setup_queue]: the operations the broker accepted,
    and the outcome.  [channel_error] is what [get_channel] raises, if it
    does; every error is logged and re-raised. *)
Definition _setup_queue (self : Subscriber)
    (channel_error : option Errors.Exception)
    (broker_error : nat -> option Errors.Exception)
    : list BrokerOp * Errors.Result unit :=
  match channel_error with
  | Some e => ([], Errors.Raise e)
  | None => send_ops (setup_ops self) 0 broker_error
  end.

End Messaging.

(** ** messaging/connection.py *)

Module Connection.
Import PyNum Errors PyFloat Resilience.

Section Pool.
Context {BlockingConnection : Type}.
(** [connection.is_open] *)
Variable is_open : BlockingConnection -> bool.
(** [isinstance(e, (AMQPConnectionError, AMQPChannelError))] *)
Variable amqp_error : Exception -> bool.
(** [pika.BlockingConnection(self._connection_params)] at each attempt *)
Variable open_connection : Z -> Result BlockingConnection.

Record ConnectionPool := mkConnectionPool {
  max_retries : Z;
  initial_retry_delay : Q;
  max_retry_delay : Q;
  _connection : option BlockingConnection;
}.

Definition set_connection (c : option BlockingConnection)
    (self : ConnectionPool) : ConnectionPool :=
  {| max_retries := max_retries self;
     initial_retry_delay := initial_retry_delay self;
     max_retry_delay := max_retry_delay self;
     _connection := c |}.

(** [_calculate_retry_delay]: the product is computed before the cap is
    applied, and raises when [2**attempt] does not fit a float. *)
Definition _calculate_retry_delay (self : ConnectionPool) (attempt : Z)
    : Result Q :=
  match float_pow2 attempt with
  | Raise e => Raise e
  | Return factor =>
      let delay := (initial_retry_delay self * factor)%Q in
      Return (Qmin delay (max_retry_delay self))
  end.

(** [is_connected]: [self._connection is not None and
    self._connection.is_open] *)
Definition is_connected (self : ConnectionPool) : bool :=
  match _connection self with
  | Some c => is_open c
  | None => false
  end.

(** [str(e)] of the exception kept in [last_error] *)
Definition str_of_error (last_error : option Exception) : string :=
  match last_error with
  | Some (EChimera e) => message e
  | Some (EOther _ msg) => msg
  | None => "None"
  end.

(** The error raised when the loop of [connect] falls through. *)
Definition could_not_connect (self : ConnectionPool)
    (last_error : option Exception) : Exception :=
  EOther "AMQPConnectionError"
    ("Could not connect to RabbitMQ after " ++ pretty (max_retries self)
     ++ " attempts: " ++ str_of_error last_error).

(** The loop of [connect] over the attempts still to run.  An exception
    that is not an AMQP error leaves [connect]; so does one raised by
    [_calculate_retry_delay] or by [time.sleep]. *)
Fixpoint connect_loop (self : ConnectionPool) (attempts : list Z)
    (last_error : option Exception)
    : ConnectionPool * list RetryEvent * Result BlockingConnection :=
  match attempts with
  | [] => (self, [], Raise (could_not_connect self last_error))
  | attempt :: rest =>
      match open_connection attempt with
      | Return c => (set_connection (Some c) self, [Invoke attempt], Return c)
      | Raise e =>
          if amqp_error e then
            if attempt <? max_retries self - 1 then
              match _calculate_retry_delay self attempt with
              | Raise e' => (self, [Invoke attempt], Raise e')
              | Return delay =>
                  match time_sleep delay with
                  | Raise e' => (self, [Invoke attempt], Raise e')
                  | Return _ =>
                      let '(self, tr, r) :=
                        connect_loop self rest (Some e) in
                      (self, Invoke attempt :: Sleep delay :: tr, r)
                  end
              end
            else
              let '(self, tr, r) := connect_loop self rest (Some e) in
              (self, Invoke attempt :: tr, r)
          else (self, [Invoke attempt], Raise e)
      end
  end.

(** [connect] *)
Definition connect (self : ConnectionPool)
    : ConnectionPool * list RetryEvent * Result BlockingConnection :=
  match _connection self with
  | Some c =>
      if is_open c then (self, [], Return c)
      else connect_loop self (range (max_retries self)) None
  | None => connect_loop self (range (max_retries self)) None
  end.

(** [get_connection] *)
Definition get_connection (self : ConnectionPool)
    : ConnectionPool * list RetryEvent * Result BlockingConnection :=
  match _connection self with
  | Some c => if negb (is_open c) then connect self else (self, [], Return c)
  | None => connect self
  end.

(** The exception of an outcome, if it is one. *)
Definition error_of {T} (r : Result T) : option Exception :=
  match r with
  | Raise e => Some e
  | Return _ => None
  end.

(** An attempt that fails with an AMQP error. *)
Definition fails_amqp (attempt : Z) : Prop :=
  exists e, open_connection attempt = Raise e /\ amqp_error e = true.

End Pool.

End Connection.

(** ** Python dicts in insertion order *)

Module PyDict.

(** [d[k] = v]: an existing key keeps its position, a new one goes last. *)
Fixpoint dict_set {V} (k : string) (v : V) (d : list (string * V))
    : list (string * V) :=
  match d with
  | [] => [(k, v)]
  | (k', v') :: rest =>
      if String.eqb k' k then (k', v) :: rest
      else (k', v') :: dict_set k v rest
  end.

(** [d.get(k)] *)
Fixpoint dict_get {V} (k : string) (d : list (string * V)) : option V :=
  match d with
  | [] => None
  | (k', v') :: rest => if String.eqb k' k then Some v' else dict_get k rest
  end.

(** [del d[k]] for a key that is present; nothing happens otherwise. *)
Fixpoint dict_del {V} (k : string) (d : list (string * V))
    : list (string * V) :=
  match d with
  | [] => []
  | (k', v') :: rest =>
      if String.eqb k' k then rest else (k', v') :: dict_del k rest
  end.

(** [l[-n:]] for a positive [n] *)
Definition last_n {A} (n : nat) (l : list A) : list A :=
  drop (length l - n) l.

(** [l[start:]] for a Python list *)
Definition slice_from {A} (start : Z) (l : list A) : list A :=
  if 0 <=? start then drop (Z.to_nat start) l
  else drop (length l - Z.to_nat (- start)) l.

End PyDict.

(** ** query/context_manager.py *)

Module ContextManager.
Import PyDict.

(** An extracted entity: the two keys the context manager reads, and the
    rest of the dict. *)
Record Entity := mkEntity {
  entity_type : option string;
  value : option string;
  attrs : list (string * string);
}.

(** A [time_range] dict. *)
Definition TimeRange := list (string * Z).

Record Intent := mkIntent {
  time_range : option TimeRange;
  metrics : option (list string);
}.

Record QueryEntry := mkQueryEntry {
  query : string;
  timestamp : string;
  intent : option Intent;
  entities : option (list Entity);
}.

(** The session context as decoded from its JSON document. *)
Record SessionContext := mkSessionContext {
  session_id : option string;
  created_at : option string;
  query_history : option (list QueryEntry);
  last_updated : option string;
}.

Record ContextManager := mkContextManager {
  (** the documents held by Redis, by key *)
  redis : gmap string SessionContext;
  ttl : Z;
  key_prefix : string;
}.

(** [_get_key] *)
Definition _get_key (self : ContextManager) (session_id : string) : string :=
  key_prefix self ++ session_id.

(** [get_context] *)
Definition get_context (self : ContextManager) (session_id : string)
    : option SessionContext :=
  redis self !! _get_key self session_id.

(** Truthiness of a context dict: [{}] is falsy. *)
Definition context_truthy (c : SessionContext) : bool :=
  match session_id c, created_at c, query_history c, last_updated c with
  | None, None, None, None => false
  | _, _, _, _ => true
  end.

(** [str(x)] inside the f-string, for an optional string *)
Definition py_str (x : option string) : string :=
  match x with
  | Some s => s
  | None => "None"
  end.

(** [f"{entity.get('entity_type')}:{entity.get('value')}"] *)
Definition entity_key (entity : Entity) : string :=
  py_str (entity_type entity) ++ ":" ++ py_str (value entity).

(** The two dicts built by the loops of [_extract_common_entities]. *)
Definition count_entity
    (acc : list (string * Z) * list (string * Entity)) (entity : Entity)
    : list (string * Z) * list (string * Entity) :=
  let '(entity_counts, entity_data) := acc in
  let key := entity_key entity in
  (dict_set key (default 0 (dict_get key entity_counts) + 1) entity_counts,
   dict_set key entity entity_data).

Definition count_entities (history : list QueryEntry)
    : list (string * Z) * list (string * Entity) :=
  foldl (fun acc query_entry =>
           foldl count_entity acc (default [] (entities query_entry)))
    ([], []) history.

(** [_extract_common_entities]; every counted key has its data, so
    [entity_data[key]] cannot fail. *)
Definition _extract_common_entities (history : list QueryEntry)
    : list Entity :=
  let '(entity_counts, entity_data) := count_entities history in
  omap (fun item : string * Z =>
          let '(key, count) := item in
          if 1 <? count then dict_get key entity_data else None)
    entity_counts.

(** Truthiness of a [time_range] value. *)
Definition time_range_truthy (tr : TimeRange) : bool :=
  match tr with [] => false | _ => true end.

(** The [for] loop of [_extract_time_range_context]. *)
Fixpoint first_time_range (entries : list QueryEntry) : option TimeRange :=
  match entries with
  | [] => None
  | query_entry :: rest =>
      match intent query_entry ≫= time_range with
      | Some tr => if time_range_truthy tr then Some tr
                   else first_time_range rest
      | None => first_time_range rest
      end
  end.

(** [_extract_time_range_context] *)
Definition _extract_time_range_context (history : list QueryEntry)
    : option TimeRange :=
  first_time_range (reverse history).

(** [intent.get("metrics", [])] of [query_entry.get("intent", {})] *)
Definition query_metrics (query_entry : QueryEntry) : list string :=
  default [] (intent query_entry ≫= metrics).

Definition add_metric (metrics : list string) (metric : string)
    : list string :=
  if bool_decide (metric ∈ metrics) then metrics else metrics ++ [metric].

(** [_extract_metric_context] *)
Definition _extract_metric_context (history : list QueryEntry)
    : list string :=
  foldl (fun metrics query_entry =>
           foldl add_metric metrics (query_metrics query_entry))
    [] (reverse history).

Record ExtractedContext := mkExtractedContext {
  last_query : option QueryEntry;
  recent_entities : list Entity;
  time_range_context : option TimeRange;
  metric_context : list string;
  query_count : nat;
}.

(** [extract_context_for_query]; [None] stands for the empty dict
    returned when there is no context. *)
Definition extract_context_for_query (self : ContextManager)
    (session_id : string) (current_query : string)
    : option ExtractedContext :=
  match get_context self session_id with
  | None => None
  | Some context =>
      if negb (context_truthy context) then None
      else
        let history := default [] (query_history context) in
        Some {| last_query := last history;
                recent_entities :=
                  _extract_common_entities (last_n 3 history);
                time_range_context :=
                  _extract_time_range_context (last_n 3 history);
                metric_context :=
                  _extract_metric_context (last_n 3 history);
                query_count := length history |}
  end.

(** *** The specification's reading of the recent entities *)

(** Whether an entry lists an entity with the given key. *)
Definition entry_mentions (key : string) (query_entry : QueryEntry) : bool :=
  existsb (fun e => String.eqb (entity_key e) key)
    (default [] (entities query_entry)).

(** In how many entries of [history] the key appears. *)
Definition entries_mentioning (key : string) (history : list QueryEntry)
    : nat :=
  length (filter (fun q => entry_mentions key q = true) history).

(** The entities of all entries of [history], in order. *)
Definition all_entities (history : list QueryEntry) : list Entity :=
  concat (map (fun q => default [] (entities q)) history).

(** How many times the key is listed over all entries of [history]. *)
Definition occurrences (key : string) (history : list QueryEntry) : nat :=
  length (filter (fun e => entity_key e = key) (all_entities history)).

(** *** Writing the context *)

Definition set_redis (m : gmap string SessionContext)
    (self : ContextManager) : ContextManager :=
  {| redis := m; ttl := ttl self; key_prefix := key_prefix self |}.

(** [save_context]: stamp [last_updated] with the clock reading [now] and
    store the document under the session's key (the expiry set by [setex]
    is not part of the model).  An error of the store is caught and
    reported as [False]. *)
Definition save_context (self : ContextManager) (session_id : string)
    (context : SessionContext) (now : string) (redis_error : bool)
    : ContextManager * bool :=
  let key := _get_key self session_id in
  let context :=
    {| session_id := ContextManager.session_id context;
       created_at := created_at context;
       query_history := query_history context;
       last_updated := Some now |} in
  if redis_error then (self, false)
  else (set_redis (<[key := context]> (redis self)) self, true).

(** [get_context(session_id) or {...}]: a missing or empty context is
    replaced by a fresh one. *)
Definition context_or_new (self : ContextManager) (session_id : string)
    (now : string) : SessionContext :=
  match get_context self session_id with
  | Some context =>
      if context_truthy context then context
      else {| session_id := Some session_id;
              created_at := Some now;
              query_history := Some [];
              last_updated := None |}
  | None =>
      {| session_id := Some session_id;
         created_at := Some now;
         query_history := Some [];
         last_updated := None |}
  end.

(** [add_query_to_history].  [now] is the clock reading (the source reads
    the clock for each of the stamps it writes).  [context["query_history"]]
    is a [KeyError] for a stored context without that key. *)
Definition add_query_to_history (self : ContextManager)
    (session_id : string) (query : string) (intent : Intent)
    (entities : list Entity) (now : string) (redis_error : bool)
    : ContextManager * Errors.Result bool :=
  let context := context_or_new self session_id now in
  let query_entry :=
    {| query := query;
       timestamp := now;
       intent := Some intent;
       entities := Some entities |} in
  match query_history context with
  | None => (self, Errors.Raise (Errors.EOther "KeyError" "query_history"))
  | Some history =>
      let history := history ++ [query_entry] in
      let history :=
        if (10 <? length history)%nat then last_n 10 history else history in
      let context :=
        {| session_id := ContextManager.session_id context;
           created_at := created_at context;
           query_history := Some history;
           last_updated := last_updated context |} in
      let '(self, ok) :=
        save_context self session_id context now redis_error in
      (self, Errors.Return ok)
  end.


(** [clear_context]: the key is deleted; an error of the store is caught
    and reported as [False]. *)
Definition clear_context (self : ContextManager) (session_id : string)
    (redis_error : bool) : ContextManager * bool :=
  if redis_error then (self, false)
  else (set_redis (delete (_get_key self session_id) (redis self)) self,
        true).

(** One entry of the list returned by [merge_context_with_entities]: an
    entity of the current query, or one of the two dicts the function
    builds from the context (a TIME_RANGE entity with the context's range
    as [resolved_range], a METRIC entity for a metric of the context). *)
Inductive MergedEntity :=
| of_query (entity : Entity)
| time_range_of_context (resolved_range : TimeRange)
| metric_of_context (metric : string).

Definition is_time_entity (e : Entity) : bool :=
  match entity_type e with
  | Some t => String.eqb t "TIME_RANGE" || String.eqb t "DATE"
  | None => false
  end.

Definition is_metric_entity (e : Entity) : bool :=
  match entity_type e with
  | Some t => String.eqb t "METRIC"
  | None => false
  end.

(** [merge_context_with_entities(entities, context)]; [None] is the empty
    context dict. *)
Definition merge_context_with_entities (entities : list Entity)
    (context : option ExtractedContext) : list MergedEntity :=
  let enhanced_entities := map of_query entities in
  let has_time_range := existsb is_time_entity entities in
  let enhanced_entities :=
    match context ≫= time_range_context with
    | Some tr =>
        if negb has_time_range && time_range_truthy tr then
          enhanced_entities ++ [time_range_of_context tr]
        else enhanced_entities
    | None => enhanced_entities
    end in
  let has_metrics := existsb is_metric_entity entities in
  match context with
  | Some c =>
      if negb has_metrics then
        enhanced_entities ++ map metric_of_context (metric_context c)
      else enhanced_entities
  | None => enhanced_entities
  end.

(** [update_context], for updates of the four keys of the model; a key the
    update does not mention ([None]) keeps its value. *)
Definition update_context (self : ContextManager) (session_id : string)
    (updates : SessionContext) (now : string) (redis_error : bool)
    : ContextManager * bool :=
  let base :=
    match get_context self session_id with
    | Some context => context
    | None =>
        {| session_id := None; created_at := None; query_history := None;
           last_updated := None |}
    end in
  let pick {A} (new old : option A) : option A :=
    match new with Some x => Some x | None => old end in
  let context :=
    {| session_id :=
         pick (ContextManager.session_id updates)
           (ContextManager.session_id base);
       created_at := pick (created_at updates) (created_at base);
       query_history := pick (query_history updates) (query_history base);
       last_updated := pick (last_updated updates) (last_updated base) |} in
  save_context self session_id context now redis_error.




End ContextManager.

(** ** monitoring/alert_engine.py *)

Module AlertEngine.
Import PyNum Errors PyDict.

Record AlertCondition := mkAlertCondition {
  metric : string;
  operator : string;
  threshold : Q;
  duration_seconds : Z;
  cooldown_seconds : Z;
}.

Record AlertRule := mkAlertRule {
  id : string;
  name : string;
  condition : AlertCondition;
  notification_channels : list string;
  enabled : bool;
}.

Record Alert := mkAlert {
  rule_id : string;
  timestamp : Z;
  alert_metric : string;
  current_value : Q;
  alert_threshold : Q;
  severity : string;
  context : list (string * string);
  suggested_actions : list string;
}.

Record Engine := mkEngine {
  rules : list (string * AlertRule);
  alert_history : gmap string (list Alert);
  last_alert_time : gmap string Z;
}.

(** [AlertEngine.__init__] *)
Definition new_engine : Engine :=
  {| rules := []; alert_history := ∅; last_alert_time := ∅ |}.

(** [add_rule] *)
Definition add_rule (self : Engine) (rule : AlertRule) : Engine :=
  {| rules := dict_set (id rule) rule (rules self);
     alert_history := <[id rule := []]> (alert_history self);
     last_alert_time := last_alert_time self |}.

(** [remove_rule] *)
Definition remove_rule (self : Engine) (rule_id : string) : Engine :=
  match dict_get rule_id (rules self) with
  | Some _ =>
      {| rules := dict_del rule_id (rules self);
         alert_history := delete rule_id (alert_history self);
         last_alert_time := last_alert_time self |}
  | None => self
  end.

(** [_check_condition] *)
Definition _check_condition (value : Q) (operator : string) (threshold : Q)
    : bool :=
  if String.eqb operator ">" then Qlt_bool threshold value
  else if String.eqb operator "<" then Qlt_bool value threshold
  else if String.eqb operator ">=" then Qle_bool threshold value
  else if String.eqb operator "<=" then Qle_bool value threshold
  else if String.eqb operator "==" then
    Qlt_bool (Qabs (value - threshold)) (1 # 100)
  else false.

(** The [deviation] computed by [_calculate_severity]. *)
Definition deviation (value : Q) (condition : AlertCondition) : Q :=
  if Qlt_bool 0 (threshold condition) then
    (Qabs (value - threshold condition) / threshold condition)%Q
  else 0%Q.

(** The ladder of [_calculate_severity]. *)
Definition severity_of_deviation (deviation : Q) : string :=
  if Qlt_bool (1 # 2) deviation then "critical"
  else if Qlt_bool (1 # 5) deviation then "high"
  else if Qlt_bool (1 # 10) deviation then "medium"
  else "low".

(** [_calculate_severity] *)
Definition _calculate_severity (value : Q) (condition : AlertCondition)
    : string :=
  severity_of_deviation (deviation value condition).

(** [_suggest_actions] *)
Definition _suggest_actions (metric : string) (value : Q) : list string :=
  [("Review " ++ metric ++ " data for anomalies")%string;
   "Check related metrics for correlation"].

(** [int(x)]: truncation towards zero *)
Definition py_int (x : Q) : Z := Z.quot (Qnum x) (Zpos (Qden x)).

(** [int((timestamp or current_time.timestamp()) * 1000)];
    [current_time] is in microseconds, and a [timestamp] of 0 is falsy. *)
Definition alert_timestamp (timestamp : option Z) (current_time : Z) : Z :=
  let seconds :=
    match timestamp with
    | Some t => if t =? 0 then (inject_Z current_time / 1000000)%Q
                else inject_Z t
    | None => (inject_Z current_time / 1000000)%Q
    end in
  py_int (seconds * 1000)%Q.

(** The alert built for a rule that fires. *)
Definition make_alert (rule_id : string) (rule : AlertRule)
    (metric : string) (value : Q) (timestamp : option Z) (current_time : Z)
    : Alert :=
  {| rule_id := rule_id;
     timestamp := alert_timestamp timestamp current_time;
     alert_metric := metric;
     current_value := value;
     alert_threshold := threshold (condition rule);
     severity := _calculate_severity value (condition rule);
     context := [("rule_name", name rule)];
     suggested_actions := _suggest_actions metric value |}.

(** Whether [timedelta] can hold a rule's cooldown: at most 999999999
    days either way. *)
Definition cooldown_fits (rule : AlertRule) : bool :=
  Z.abs (cooldown_seconds (condition rule) / 86400) <=? 999999999.

(** [timedelta(seconds=seconds)], in microseconds; a duration of more
    than 999999999 days is an [OverflowError]. *)
Definition timedelta_seconds (seconds : Z) : Result Z :=
  if Z.abs (seconds / 86400) <=? 999999999 then Return (seconds * 1000000)
  else Raise (EOther "OverflowError" "days out of range for timedelta").

(** Whether the rule is still in cooldown:
    [current_time - last_alert < timedelta(seconds=cooldown_seconds)],
    for a rule that has a last alert time; the [timedelta] is built only
    then, and building it can raise. *)
Definition in_cooldown (self : Engine) (rule_id : string) (rule : AlertRule)
    (current_time : Z) : Result bool :=
  match last_alert_time self !! rule_id with
  | Some last_alert =>
      match timedelta_seconds (cooldown_seconds (condition rule)) with
      | Raise e => Raise e
      | Return cooldown => Return (current_time - last_alert <? cooldown)
      end
  | None => Return false
  end.

(** The loop of [evaluate] over the rules still to visit.
    [self.alert_history[rule_id]] is a [KeyError] for a rule without a
    history list; the alert is already in [alerts] then, but the call
    raises.  An [OverflowError] of the cooldown check leaves [evaluate]
    with the alerts of the rules visited before already recorded. *)
Fixpoint evaluate_loop (self : Engine) (items : list (string * AlertRule))
    (alerts : list Alert) (metric : string) (value : Q)
    (timestamp : option Z) (current_time : Z)
    : Engine * Result (list Alert) :=
  match items with
  | [] => (self, Return alerts)
  | (rule_id, rule) :: rest =>
      if negb (enabled rule) then
        evaluate_loop self rest alerts metric value timestamp current_time
      else if negb (String.eqb (AlertEngine.metric (condition rule)) metric)
      then
        evaluate_loop self rest alerts metric value timestamp current_time
      else
        let condition_met :=
          _check_condition value (operator (condition rule))
            (threshold (condition rule)) in
        if condition_met then
          match in_cooldown self rule_id rule current_time with
          | Raise e => (self, Raise e)
          | Return true =>
              evaluate_loop self rest alerts metric value timestamp
                current_time
          | Return false =>
              let alert :=
                make_alert rule_id rule metric value timestamp current_time
              in
              let alerts := alerts ++ [alert] in
              match alert_history self !! rule_id with
              | None => (self, Raise (EOther "KeyError" rule_id))
              | Some history =>
                  let self :=
                    {| rules := rules self;
                       alert_history :=
                         <[rule_id := history ++ [alert]]>
                           (alert_history self);
                       last_alert_time :=
                         <[rule_id := current_time]>
                           (last_alert_time self) |} in
                  evaluate_loop self rest alerts metric value timestamp
                    current_time
              end
          end
        else
          evaluate_loop self rest alerts metric value timestamp current_time
  end.

(** [evaluate(metric, value, timestamp)]; [current_time] is the reading
    of [datetime.now()]. *)
Definition evaluate (self : Engine) (metric : string) (value : Q)
    (timestamp : option Z) (current_time : Z)
    : Engine * Result (list Alert) :=
  evaluate_loop self (rules self) [] metric value timestamp current_time.

(** *** The specification's reading of severity *)

(** Relative deviation of a value from a threshold. *)
Definition relative_deviation (value threshold : Q) : Q :=
  (Qabs (value - threshold) / Qabs threshold)%Q.

(** "deviation >50% yields critical, >20% high, >10% medium, otherwise
    low", as a relation between a deviation and a severity. *)
Definition severity_follows (deviation : Q) (severity : string) : Prop :=
  ((1 # 2 < deviation)%Q -> severity = "critical") /\
  ((deviation <= 1 # 2)%Q -> (1 # 5 < deviation)%Q -> severity = "high") /\
  ((deviation <= 1 # 5)%Q -> (1 # 10 < deviation)%Q ->
   severity = "medium") /\
  ((deviation <= 1 # 10)%Q -> severity = "low").

(** An engine whose rule ids are distinct and all have a history list, as
    [add_rule] and [remove_rule] keep it. *)
Definition well_formed (self : Engine) : Prop :=
  NoDup (rules self).*1 /\
  forall rule_id rule,
    (rule_id, rule) ∈ rules self -> is_Some (alert_history self !! rule_id).

(** The operators [_check_condition] knows. *)
Definition known_operator (operator : string) : bool :=
  bool_decide (operator ∈ [">"; "<"; ">="; "<="; "=="]).

(** [get_alert_history(rule_id, limit)] *)
Definition get_alert_history (self : Engine) (rule_id : string) (limit : Z)
    : list Alert :=
  slice_from (- limit) (default [] (alert_history self !! rule_id)).

(** The tests a rule passes in the loop of [evaluate] before the cooldown
    check: enabled, on the evaluated metric, condition met. *)
Definition condition_met (metric : string) (value : Q)
    (item : string * AlertRule) : bool :=
  enabled item.2
  && String.eqb (AlertEngine.metric (condition item.2)) metric
  && _check_condition value (operator (condition item.2))
       (threshold (condition item.2)).

(** The tests a rule passes in the loop of [evaluate] before its alert is
    built: those above, and a cooldown check that answers "not in
    cooldown" in the engine [self]. *)
Definition fires (self : Engine) (metric : string) (value : Q)
    (current_time : Z) (item : string * AlertRule) : bool :=
  condition_met metric value item
  && match in_cooldown self item.1 item.2 current_time with
     | Return b => negb b
     | Raise _ => false
     end.

(** A rule that passes the first tests and whose cooldown check raises. *)
Definition overflows (self : Engine) (metric : string) (value : Q)
    (current_time : Z) (item : string * AlertRule) : bool :=
  condition_met metric value item
  && match in_cooldown self item.1 item.2 current_time with
     | Return _ => false
     | Raise _ => true
     end.

(** What an [evaluate] that returns leaves for a rule id, given the rules
    it fired: the alert appended to the history and the time of the call
    as last alert time for a rule that fired, nothing changed for any
    other id. *)
Definition recorded (self self' : Engine)
    (fired : list (string * AlertRule)) (metric : string) (value : Q)
    (timestamp : option Z) (current_time : Z) (rid : string) : Prop :=
  match dict_get rid fired with
  | Some rule =>
      last_alert_time self' !! rid = Some current_time /\
      alert_history self' !! rid
      = (fun history =>
           history
           ++ [make_alert rid rule metric value timestamp current_time])
        <$> alert_history self !! rid
  | None =>
      last_alert_time self' !! rid = last_alert_time self !! rid /\
      alert_history self' !! rid = alert_history self !! rid
  end.

(** Every cooldown of the engine is one [timedelta] can hold. *)
Definition cooldowns_fit (self : Engine) : Prop :=
  forall rule_id rule,
    (rule_id, rule) ∈ rules self -> cooldown_fits rule = true.

(** The alert of an item of [rules]. *)
Definition alert_of (metric : string) (value : Q) (timestamp : option Z)
    (current_time : Z) (item : string * AlertRule) : Alert :=
  make_alert item.1 item.2 metric value timestamp current_time.

(** The calls a client makes on an engine. *)
Inductive EngineCall :=
  | call_add_rule (rule : AlertRule)
  | call_remove_rule (rule_id : string)
  | call_evaluate (metric : string) (value : Q) (timestamp : option Z)
      (current_time : Z).

Definition engine_call (self : Engine) (c : EngineCall)
    : Engine * list (Result (list Alert)) :=
  match c with
  | call_add_rule rule => (add_rule self rule, [])
  | call_remove_rule rule_id => (remove_rule self rule_id, [])
  | call_evaluate metric value timestamp current_time =>
      let '(self, r) := evaluate self metric value timestamp current_time in
      (self, [r])
  end.

(** The rule the call adds, if it adds one, has a cooldown that
    [timedelta] can hold. *)
Definition call_fits (c : EngineCall) : bool :=
  match c with
  | call_add_rule rule => cooldown_fits rule
  | call_remove_rule _ | call_evaluate _ _ _ _ => true
  end.

(** A run of calls, with what each [evaluate] returned or raised. *)
Fixpoint engine_calls (self : Engine) (calls : list EngineCall)
    : Engine * list (Result (list Alert)) :=
  match calls with
  | [] => (self, [])
  | c :: rest =>
      let '(self, r) := engine_call self c in
      let '(self, rs) := engine_calls self rest in
      (self, r ++ rs)
  end.

End AlertEngine.

(** ** Concrete scenarios *)

Module Scenarios.
Import Errors Resilience.

(** [expected_exception=Exception], [retryable_exceptions=(Exception,)] *)
Definition any_exception : Exception -> bool := fun _ => true.

(** A breaker with threshold 1 and a recovery timeout of 100 ms. *)
Definition exchange_breaker : CircuitBreaker :=
  new_breaker 1 100000 any_exception (Some "exchange").

Definition zero_division : Result Z :=
  Raise (EOther "ZeroDivisionError" "division by zero").

(** The call that opens the breaker: it starts at 0 and fails at 5. *)
Definition opening_call : CallEvent Z := mkCallEvent 0 zero_division 5.

(** Two calls inside the recovery window. *)
Definition window_calls : list (CallEvent Z) :=
  [mkCallEvent 10 (Return 1) 11; mkCallEvent 99999 (Return 2) 100000].

(** The first call after the window. *)
Definition probe_call : CallEvent Z := mkCallEvent 100005 (Return 3) 100006.

(** A callable that fails twice and then succeeds. *)
Definition flaky (attempt : Z) : Result string :=
  if attempt <? 2 then Raise (EOther "ConnectionError" "reset by peer")
  else Return "ok".

Definition half (_ : Z) : Q := 1 # 2.

(** Three attempts, exponential from 10 ms, capped at 60 s, no jitter. *)
Definition plain_exponential : RetryConfig :=
  mkRetryConfig 3 EXPONENTIAL (1 # 100) 60 false any_exception.

Definition invalid_query : ChimeraError :=
  mkChimeraError QueryErrorC "cannot parse" INVALID_QUERY false []
    (Some "Rephrase your query or provide more context").

Definition always_invalid (_ : Z) : Result string :=
  Raise (EChimera invalid_query).

(** [@retry(max_attempts=5)] *)
Definition five_attempts : RetryConfig := retry_config 5 EXPONENTIAL 1 60 None.

(** A callable that never succeeds, with an error that is retried. *)
Definition always_down (_ : Z) : Result string :=
  Raise (EOther "ConnectionError" "connection refused").

(** A configuration that allows no attempt at all. *)
Definition no_attempts : RetryConfig :=
  mkRetryConfig 0 CONSTANT 1 60 false any_exception.

(** An agent whose messages and context values are strings. *)
Definition test_agent : @Messaging.BaseAgent string string :=
  Messaging.mkBaseAgent "test-agent" [] ∅.

Definition request_context : gmap string string := {["user" := "alice"]}.

Definition matching_response : @Messaging.ResponseCall string :=
  Messaging.mkResponseCall "pong" "test.response" "c1" None.

(** A subscriber for one routing key; bodies are strings, the empty body
    does not parse and the handler fails on "boom". *)
Definition routing_key_map : gmap string string :=
  {["test.request" := "TestRequest"]}.

Definition parse (body : string) (message_class : string) : Result string :=
  if String.eqb body "" then Raise (EOther "DecodeError" "truncated message")
  else Return body.

Definition handler (message : string) (properties : Messaging.MsgProperties)
    : Result unit :=
  if String.eqb message "boom" then Raise (EOther "RuntimeError" "boom")
  else Return tt.

Definition no_properties : Messaging.BasicProperties :=
  Messaging.mkBasicProperties None None.

(** Two correlation entries, two hours and thirty minutes old at
    [reap_time]. *)
Definition reap_time : Z := 1700000000000.

Definition two_entries : gmap string (Messaging.CorrelationEntry string) :=
  {["old-1" := Messaging.mkCorrelationEntry None None (Some ∅)
                 (Some (reap_time - 2 * 3600 * 1000));
    "recent-1" := Messaging.mkCorrelationEntry None None (Some ∅)
                    (Some (reap_time - 30 * 60 * 1000))]}.

Definition reaping_agent : @Messaging.BaseAgent string string :=
  Messaging.mkBaseAgent "test-agent" [] two_entries.

(** A breaker with threshold 3 and a recovery timeout of 100 ms: three
    failures, a call while open, then two successes after 150 ms. *)
Definition service_breaker : CircuitBreaker :=
  new_breaker 3 100000 any_exception None.

Definition service_calls : list (CallEvent Z) :=
  [mkCallEvent 0 zero_division 1; mkCallEvent 2 zero_division 3;
   mkCallEvent 4 zero_division 5; mkCallEvent 6 (Return 1) 7;
   mkCallEvent 150005 (Return 2) 150006;
   mkCallEvent 150007 (Return 3) 150008].

(** Two failing calls, and two calls that fail with an exception a
    breaker for [ConnectionError] only does not count. *)
Definition two_failures : list (CallEvent Z) :=
  [mkCallEvent 0 zero_division 1; mkCallEvent 2 zero_division 3].

Definition connection_errors_only (e : Exception) : bool :=
  match e with
  | EOther class_name _ => String.eqb class_name "ConnectionError"
  | EChimera _ => false
  end.

Definition picky_breaker : CircuitBreaker :=
  new_breaker 1 100000 connection_errors_only (Some "picky").

(** The scenario breaker after the three failures that open it. *)
Definition tripped_breaker : CircuitBreaker :=
  (run_calls service_breaker
     [mkCallEvent 0 zero_division 1; mkCallEvent 2 zero_division 3;
      mkCallEvent 4 zero_division 5]).1.

(** A handler that fails on its first invocation only, and a tracing run
    without errors. *)
Definition fails_once (message : string)
    (properties : Messaging.MsgProperties) (invocation : nat)
    : Result unit :=
  match invocation with
  | O => Raise (EOther "TimeoutError" "upstream timed out")
  | S _ => Return tt
  end.

Definition clean_tracing : Messaging.TracingRun :=
  Messaging.mkTracingRun None None None.

(** A request, the response to it, and the clear of another id. *)
Definition request_then_response
    : list (@Messaging.AgentCall string string) :=
  [Messaging.call_publish_request "ping" "test.request" "test.response"
     None "c1" 1700000000000 None;
   Messaging.call_publish_response "pong" "test.response" "c1" None;
   Messaging.call_clear_correlation "c2"].

(** The subscriber of an agent constructed without routing keys. *)
Definition analysis_subscriber : Messaging.Subscriber :=
  Messaging.new_agent_subscriber "analysis" "chimera.events" None 1.

(** A broker that refuses the declaration of the main queue. *)
Definition refuses_second (position : nat) : option Exception :=
  match position with
  | 1%nat => Some (EOther "ChannelClosedByBroker" "PRECONDITION_FAILED")
  | _ => None
  end.



Definition empty_manager : ContextManager.ContextManager :=
  ContextManager.mkContextManager ∅ 3600 "chimera:context:".

(** An update that only sets the creation stamp. *)
Definition stamp_only : ContextManager.SessionContext :=
  ContextManager.mkSessionContext None (Some "2024-01-01T00:00:00") None
    None.

(** What the context of earlier queries offers to a query that names a
    date but no metric. *)
Definition dated_entity : ContextManager.Entity :=
  ContextManager.mkEntity (Some "DATE") (Some "yesterday") [].

Definition offered_context : ContextManager.ExtractedContext :=
  ContextManager.mkExtractedContext None []
    (Some [("start", 1); ("end", 2)]) ["price"; "volume"] 3.

(** A session with a single query that names BTC twice. *)
Definition btc_spot : ContextManager.Entity :=
  ContextManager.mkEntity (Some "ASSET") (Some "BTC") [("position", "8")].

Definition btc_futures : ContextManager.Entity :=
  ContextManager.mkEntity (Some "ASSET") (Some "BTC") [("position", "21")].

Definition compare_btc : ContextManager.QueryEntry :=
  ContextManager.mkQueryEntry "compare BTC spot and BTC futures"
    "2024-01-01T00:00:00"
    (Some (ContextManager.mkIntent None (Some ["price"])))
    (Some [btc_spot; btc_futures]).

Definition session_one : ContextManager.SessionContext :=
  ContextManager.mkSessionContext (Some "s1") (Some "2024-01-01T00:00:00")
    (Some [compare_btc]) (Some "2024-01-01T00:00:01").

Definition context_manager : ContextManager.ContextManager :=
  ContextManager.mkContextManager {["chimera:context:s1" := session_one]}
    3600 "chimera:context:".

(** A rule on a negative threshold: alert when pnl drops below -10. *)
Definition drawdown_rule : AlertEngine.AlertRule :=
  AlertEngine.mkAlertRule "drawdown" "PnL drawdown"
    (AlertEngine.mkAlertCondition "pnl" "<" (-10) 0 60) ["email"] true.

Definition drawdown_engine : AlertEngine.Engine :=
  AlertEngine.add_rule AlertEngine.new_engine drawdown_rule.

(** A rule on a positive threshold, and one with a misspelt operator. *)
Definition price_rule : AlertEngine.AlertRule :=
  AlertEngine.mkAlertRule "price-high" "Price above 100"
    (AlertEngine.mkAlertCondition "price" ">" 100 0 60) ["email"] true.

Definition misspelt_rule : AlertEngine.AlertRule :=
  AlertEngine.mkAlertRule "price-ne" "Price differs"
    (AlertEngine.mkAlertCondition "price" "!=" 100 0 60) ["email"] true.

Definition price_engine : AlertEngine.Engine :=
  AlertEngine.add_rule (AlertEngine.add_rule AlertEngine.new_engine price_rule)
    misspelt_rule.

(** The alert of the price rule for a price of 160 read at time 0, and
    the engine after that evaluation. *)
Definition price_alert : AlertEngine.Alert :=
  AlertEngine.make_alert "price-high" price_rule "price" 160 None 0.

Definition alerted_engine : AlertEngine.Engine :=
  (AlertEngine.evaluate price_engine "price" 160 None 0).1.

(** The price rule is added, fires, is removed, added again and evaluated
    twice. *)
Definition price_calls : list AlertEngine.EngineCall :=
  [AlertEngine.call_add_rule price_rule;
   AlertEngine.call_evaluate "price" 160 None 0;
   AlertEngine.call_remove_rule "price-high";
   AlertEngine.call_add_rule price_rule;
   AlertEngine.call_evaluate "price" 170 None 59000000;
   AlertEngine.call_evaluate "price" 170 None 60000000].

(** A rule whose cooldown is beyond what [timedelta] can hold, and two
    evaluations that meet its condition. *)
Definition patient_rule : AlertEngine.AlertRule :=
  AlertEngine.mkAlertRule "price-high" "Price above 100"
    (AlertEngine.mkAlertCondition "price" ">" 100 0 100000000000000)
    ["email"] true.

Definition patient_calls : list AlertEngine.EngineCall :=
  [AlertEngine.call_add_rule patient_rule;
   AlertEngine.call_evaluate "price" 160 None 0;
   AlertEngine.call_evaluate "price" 170 None 1000000].

(** A channel that accepts every call, one that has been closed, and one
    that refuses acks only. *)
Definition open_channel (op : Messaging.ChannelOp)
    : option Errors.Exception := None.

Definition closed_channel (op : Messaging.ChannelOp)
    : option Errors.Exception :=
  Some (Errors.EOther "ChannelWrongStateError" "Channel is closed.").

Definition refuses_acks (op : Messaging.ChannelOp)
    : option Errors.Exception :=
  match op with
  | Messaging.basic_ack _ =>
      Some (Errors.EOther "ChannelWrongStateError" "Channel is closed.")
  | Messaging.basic_nack _ _ => None
  end.

(** A broker that refuses the first two connection attempts; connections
    are named by the attempt that opened them and stay open. *)
Definition refuses_twice (attempt : Z) : Errors.Result Z :=
  if attempt <? 2 then
    Errors.Raise (Errors.EOther "AMQPConnectionError" "connection refused")
  else Errors.Return attempt.

Definition never_accepts (attempt : Z) : Errors.Result Z :=
  Errors.Raise (Errors.EOther "AMQPConnectionError" "connection refused").

Definition amqp_error (e : Errors.Exception) : bool :=
  match e with
  | Errors.EOther cls _ =>
      String.eqb cls "AMQPConnectionError"
      || String.eqb cls "AMQPChannelError"
  | Errors.EChimera _ => false
  end.

Definition default_pool : Connection.ConnectionPool (BlockingConnection := Z) :=
  Connection.mkConnectionPool 5 1 60 None.

End Scenarios.

(** * Properties *)

(** ** Insertion-ordered dicts *)

Section DictFacts.
Import PyDict.

(** Distinct keys: a key has one value. *)
Lemma NoDup_fst_unique {V} (l : list (string * V)) (k : string) (v1 v2 : V) :
  NoDup l.*1 -> (k, v1) ∈ l -> (k, v2) ∈ l -> v1 = v2.
Proof.
  induction l as [|[k' v'] l IH]; simpl; intros Hnd H1 H2.
  - by apply elem_of_nil in H1.
  - apply NoDup_cons in Hnd as [Hk Hnd].
    apply elem_of_cons in H1 as [H1|H1];
      apply elem_of_cons in H2 as [H2|H2]; simplify_eq; try done.
    + exfalso. apply Hk. apply list_elem_of_fmap. by exists (k', v2).
    + exfalso. apply Hk. apply list_elem_of_fmap. by exists (k', v1).
    + by apply IH.
Qed.

Lemma elem_of_dict_set {V} (k : string) (v : V) (d : list (string * V))
    (k0 : string) (v0 : V) :
  (k0, v0) ∈ dict_set k v d -> (k0 = k /\ v0 = v) \/ (k0, v0) ∈ d.
Proof.
  induction d as [|[k' v'] d IH]; simpl.
  - intros [[= -> ->]|H]%elem_of_cons; [by left | by apply elem_of_nil in H].
  - destruct (String.eqb k' k) eqn:Heq.
    + apply String.eqb_eq in Heq as ->.
      intros [[= -> ->]|H]%elem_of_cons; [by left | right; by right].
    + intros [[= -> ->]|H]%elem_of_cons; [right; by left|].
      destruct (IH H) as [?|?]; [by left | right; by right].
Qed.

Lemma dict_set_keys {V} (k : string) (v : V) (d : list (string * V)) :
  (dict_set k v d).*1 = if bool_decide (k ∈ d.*1) then d.*1 else d.*1 ++ [k].
Proof.
  induction d as [|[k' v'] d IH]; [done|].
  cbn [dict_set]. destruct (String.eqb k' k) eqn:Heq.
  - apply String.eqb_eq in Heq as ->. rewrite !fmap_cons. cbn [fst].
    rewrite bool_decide_eq_true_2 by left. done.
  - apply String.eqb_neq in Heq. rewrite !fmap_cons, IH. cbn [fst].
    destruct (bool_decide (k ∈ d.*1)) eqn:Hin.
    + apply bool_decide_eq_true in Hin.
      rewrite bool_decide_eq_true_2 by (by right). done.
    + apply bool_decide_eq_false in Hin.
      rewrite bool_decide_eq_false_2; [done|].
      intros [?|?]%elem_of_cons; [by subst | done].
Qed.

Lemma dict_set_NoDup {V} (k : string) (v : V) (d : list (string * V)) :
  NoDup d.*1 -> NoDup (dict_set k v d).*1.
Proof.
  intros Hnd. rewrite dict_set_keys.
  destruct (bool_decide (k ∈ d.*1)) eqn:Hin; [done|].
  apply bool_decide_eq_false in Hin.
  apply NoDup_app. split; [done|]. split.
  - intros x Hx [->|H]%elem_of_cons; [done | by apply elem_of_nil in H].
  - apply NoDup_singleton.
Qed.

Lemma dict_get_set_eq {V} (k : string) (v : V) (d : list (string * V)) :
  dict_get k (dict_set k v d) = Some v.
Proof.
  induction d as [|[k' v'] d IH]; simpl.
  - by rewrite String.eqb_refl.
  - destruct (String.eqb k' k) eqn:Heq; simpl; by rewrite Heq.
Qed.

Lemma dict_get_set_ne {V} (k k0 : string) (v : V) (d : list (string * V)) :
  k <> k0 -> dict_get k0 (dict_set k v d) = dict_get k0 d.
Proof.
  intros Hne. induction d as [|[k' v'] d IH]; simpl.
  - by apply String.eqb_neq in Hne as ->.
  - destruct (String.eqb k' k) eqn:Heq; simpl.
    + apply String.eqb_eq in Heq as ->.
      by apply String.eqb_neq in Hne as ->.
    + destruct (String.eqb k' k0); [done | apply IH].
Qed.

Lemma dict_get_elem_of {V} (k : string) (v : V) (d : list (string * V)) :
  dict_get k d = Some v -> (k, v) ∈ d.
Proof.
  induction d as [|[k' v'] d IH]; simpl; [done|].
  destruct (String.eqb k' k) eqn:Heq.
  - apply String.eqb_eq in Heq as ->. intros [= ->]. by left.
  - intros H. right. by apply IH.
Qed.

Lemma elem_of_dict_get {V} (k : string) (v : V) (d : list (string * V)) :
  NoDup d.*1 -> (k, v) ∈ d -> dict_get k d = Some v.
Proof.
  intros Hnd Hin. destruct (dict_get k d) as [v'|] eqn:Hget.
  - apply dict_get_elem_of in Hget.
    by rewrite (NoDup_fst_unique d k v v' Hnd Hin Hget).
  - exfalso. clear Hnd. induction d as [|[k' v'] d IH]; simpl in *.
    + by apply elem_of_nil in Hin.
    + destruct (String.eqb k' k) eqn:Heq; [done|].
      apply String.eqb_neq in Heq.
      apply elem_of_cons in Hin as [[= <- <-]|Hin]; [done | by apply IH].
Qed.

End DictFacts.

(** ** The circuit breaker *)

Section BreakerFacts.
Import Errors Resilience.

Lemma CircuitState_eqb_eq (a b : CircuitState) :
  CircuitState_eqb a b = true <-> a = b.
Proof. destruct a, b; simpl; split; congruence. Qed.

Lemma CircuitState_eqb_refl (a : CircuitState) : CircuitState_eqb a a = true.
Proof. by destruct a. Qed.

(** The reset check fires exactly for an open breaker whose last failure
    is at least the recovery timeout ago. *)
Lemma should_attempt_reset_spec (cb : CircuitBreaker) (now : Z) :
  _should_attempt_reset cb now = true <->
  _state cb = OPEN /\
  exists last, _last_failure_time cb = Some last /\
               recovery_timeout cb <= now - last.
Proof.
  unfold _should_attempt_reset.
  destruct (_state cb) eqn:Hst; simpl;
    try (split; [discriminate | intros [? _]; discriminate]).
  destruct (_last_failure_time cb) as [last|].
  - rewrite Z.leb_le. split.
    + intros H. split; [done|]. by exists last.
    + intros [_ (l & [= <-] & H)]. done.
  - split; [discriminate | intros [_ (l & ? & _)]; discriminate].
Qed.

(** A failure always records its time and never leaves a half-open
    breaker half-open. *)
Lemma on_failure_last_failure_time (cb : CircuitBreaker) (now : Z) :
  _last_failure_time (_on_failure cb now) = Some now.
Proof.
  unfold _on_failure; simpl.
  destruct (CircuitState_eqb (_state cb) HALF_OPEN); [done|].
  by destruct (failure_threshold cb <=? _failure_count cb + 1).
Qed.

Lemma on_failure_timeout (cb : CircuitBreaker) (now : Z) :
  recovery_timeout (_on_failure cb now) = recovery_timeout cb.
Proof.
  unfold _on_failure; simpl.
  destruct (CircuitState_eqb (_state cb) HALF_OPEN); [done|].
  by destruct (failure_threshold cb <=? _failure_count cb + 1).
Qed.

Lemma on_failure_name (cb : CircuitBreaker) (now : Z) :
  name (_on_failure cb now) = name cb.
Proof.
  unfold _on_failure; simpl.
  destruct (CircuitState_eqb (_state cb) HALF_OPEN); [done|].
  by destruct (failure_threshold cb <=? _failure_count cb + 1).
Qed.

Lemma on_success_not_open (cb : CircuitBreaker) :
  _state cb <> OPEN -> _state (_on_success cb) <> OPEN.
Proof.
  unfold _on_success. destruct (_state cb) eqn:Hst; simpl; try done.
  - by rewrite Hst.
  - destruct (2 <=? _success_count cb + 1); simpl; by rewrite ?Hst.
Qed.

Lemma attempt_reset_name (cb : CircuitBreaker) (now : Z) :
  name (attempt_reset cb now) = name cb.
Proof. unfold attempt_reset. by destruct (_should_attempt_reset cb now). Qed.

Lemma attempt_reset_timeout (cb : CircuitBreaker) (now : Z) :
  recovery_timeout (attempt_reset cb now) = recovery_timeout cb.
Proof. unfold attempt_reset. by destruct (_should_attempt_reset cb now). Qed.

(** The only way a call that ran the function ends in OPEN is through
    [_on_failure], which stamps the failure time. *)
Lemma call_opens_at {T} (cb : CircuitBreaker) (ev : CallEvent T) :
  invoked (call_event cb ev) = true ->
  _state (breaker (call_event cb ev)) = OPEN ->
  _last_failure_time (breaker (call_event cb ev)) = Some (ev_now_fail ev) /\
  recovery_timeout (breaker (call_event cb ev)) = recovery_timeout cb /\
  name (breaker (call_event cb ev)) = name cb.
Proof.
  unfold call_event, call.
  destruct (CircuitState_eqb (_state (attempt_reset cb (ev_now ev))) OPEN)
    eqn:Hopen; simpl; [discriminate|].
  assert (_state (attempt_reset cb (ev_now ev)) <> OPEN) as Hne.
  { intros H. by rewrite H in Hopen. }
  destruct (ev_func ev) as [v|e]; simpl.
  - intros _ H. by apply on_success_not_open in H.
  - destruct (expected_exception (attempt_reset cb (ev_now ev)) e); simpl.
    + intros _ _.
      by rewrite on_failure_last_failure_time, on_failure_timeout,
        on_failure_name, attempt_reset_timeout, attempt_reset_name.
    + intros _ H. done.
Qed.

(** Inside the recovery window an open breaker rejects the call and is
    left untouched. *)
Lemma call_inside_window {T} (cb : CircuitBreaker) (t : Z)
    (ev : CallEvent T) :
  _state cb = OPEN ->
  _last_failure_time cb = Some t ->
  ev_now ev < t + recovery_timeout cb ->
  call_event cb ev =
    mkCallOutcome cb false (Raise (EChimera (open_error cb))).
Proof.
  intros Hst Hlast Hlt. unfold call_event, call, attempt_reset.
  assert (_should_attempt_reset cb (ev_now ev) = false) as ->.
  { unfold _should_attempt_reset. rewrite Hst, Hlast. simpl.
    apply Z.leb_gt. lia. }
  by rewrite Hst.
Qed.

Lemma run_calls_inside_window {T} (cb : CircuitBreaker) (t : Z)
    (window : list (CallEvent T)) :
  _state cb = OPEN ->
  _last_failure_time cb = Some t ->
  Forall (fun e => t <= ev_now e < t + recovery_timeout cb) window ->
  run_calls cb window =
    (cb, map (fun _ => mkCallOutcome cb false
                         (Raise (EChimera (open_error cb)))) window).
Proof.
  intros Hst Hlast. induction 1 as [|e window [_ He] _ IH]; [done|].
  simpl. rewrite (call_inside_window cb t e Hst Hlast He). simpl.
  by rewrite IH.
Qed.

(** At or after the end of the window the reset check moves an open
    breaker to HALF_OPEN and the function runs. *)
Lemma call_after_window {T} (cb : CircuitBreaker) (t : Z)
    (ev : CallEvent T) :
  _state cb = OPEN ->
  _last_failure_time cb = Some t ->
  t + recovery_timeout cb <= ev_now ev ->
  _state (attempt_reset cb (ev_now ev)) = HALF_OPEN /\
  _success_count (attempt_reset cb (ev_now ev)) = 0 /\
  invoked (call_event cb ev) = true /\
  outcome (call_event cb ev) = ev_func ev.
Proof.
  intros Hst Hlast Hle. unfold call_event, call, attempt_reset.
  assert (_should_attempt_reset cb (ev_now ev) = true) as ->.
  { apply should_attempt_reset_spec. split; [done|].
    exists t. split; [done | lia]. }
  simpl. destruct (ev_func ev) as [v|e]; simpl; [done|].
  by destruct (expected_exception cb e).
Qed.

(** C1.  When a call drives the breaker to OPEN (the failure being
    stamped at time [t]), every later call whose clock reading lies in
    [t, t + recovery_timeout) is rejected without running the wrapped
    function, with a retryable DATA_SOURCE_UNAVAILABLE data-source
    error, and leaves the breaker as it was; the first call at or after
    [t + recovery_timeout] puts the breaker in HALF_OPEN and runs the
    function instead of rejecting. *)
Theorem open_fails_fast_until_recovery {T} (cb : CircuitBreaker)
    (ev : CallEvent T) (window : list (CallEvent T)) (probe : CallEvent T) :
  let opened := breaker (call_event cb ev) in
  let t := ev_now_fail ev in
  invoked (call_event cb ev) = true ->
  _state opened = OPEN ->
  Forall (fun e => t <= ev_now e < t + recovery_timeout cb) window ->
  t + recovery_timeout cb <= ev_now probe ->
  let rejected := run_calls opened window in
  Forall (fun o => invoked o = false /\
                   outcome o = Raise (EChimera (open_error cb)))
    rejected.2 /\
  length rejected.2 = length window /\
  retryable (open_error cb) = true /\
  code (open_error cb) = DATA_SOURCE_UNAVAILABLE /\
  cls (open_error cb) = DataSourceErrorC /\
  rejected.1 = opened /\
  _state (attempt_reset rejected.1 (ev_now probe)) = HALF_OPEN /\
  invoked (call_event rejected.1 probe) = true /\
  outcome (call_event rejected.1 probe) = ev_func probe.
Proof.
  intros opened t Hinv Hopen Hwin Hprobe rejected.
  destruct (call_opens_at cb ev Hinv Hopen) as (Hlast & Hrt & Hname).
  fold opened in Hlast, Hrt, Hname. fold t in Hlast.
  assert (open_error opened = open_error cb) as Herr.
  { unfold open_error. by rewrite Hname. }
  assert (rejected =
            (opened, map (fun _ => mkCallOutcome opened false
                            (Raise (EChimera (open_error opened)))) window))
    as ->.
  { apply (run_calls_inside_window opened t); [done..|].
    by rewrite Hrt. }
  simpl. rewrite Herr.
  split; [|split; [|split; [|split; [|split; [|split]]]]]; try done.
  - apply Forall_forall. intros o Ho.
    apply list_elem_of_fmap in Ho as (e & -> & _). done.
  - by rewrite length_map.
  - destruct (call_after_window opened t probe Hopen Hlast) as (H1 & _ & H2 & H3).
    + by rewrite Hrt.
    + done.
Qed.

(** C1 on the scenario breaker: the failure at 5 opens it, the calls at 10
    and 99 999 are rejected, the call at 100 005 probes. *)
Lemma open_fails_fast_until_recovery_witness :
  (invoked (call_event Scenarios.exchange_breaker Scenarios.opening_call)
     = true /\
   _state (breaker (call_event Scenarios.exchange_breaker
                      Scenarios.opening_call)) = OPEN) /\
  Forall (fun o => invoked o = false /\
                   outcome o =
                     Raise (EChimera (open_error Scenarios.exchange_breaker)))
    (run_calls (breaker (call_event Scenarios.exchange_breaker
                           Scenarios.opening_call))
       Scenarios.window_calls).2 /\
  _state (attempt_reset
            (run_calls (breaker (call_event Scenarios.exchange_breaker
                                   Scenarios.opening_call))
               Scenarios.window_calls).1
            (ev_now Scenarios.probe_call)) = HALF_OPEN /\
  invoked (call_event
             (run_calls (breaker (call_event Scenarios.exchange_breaker
                                    Scenarios.opening_call))
                Scenarios.window_calls).1
             Scenarios.probe_call) = true.
Proof.
  split; [split; reflexivity|].
  pose proof (open_fails_fast_until_recovery Scenarios.exchange_breaker
                Scenarios.opening_call Scenarios.window_calls
                Scenarios.probe_call) as H.
  cbv zeta in H.
  destruct H as (Hrej & _ & _ & _ & _ & _ & Hhalf & Hinv & _).
  - reflexivity.
  - reflexivity.
  - repeat constructor; simpl; lia.
  - simpl; lia.
  - split; [exact Hrej|]. split; [exact Hhalf | exact Hinv].
Defined.

(** C4.  The transitions of the breaker.  In CLOSED a success resets
    the failure count to 0 and changes nothing else; in CLOSED a failure
    increments the count and records its time, and the state becomes
    OPEN exactly when the new count has reached the threshold; in
    HALF_OPEN a failure gives OPEN and records its time; once the reset
    check has moved an open breaker to HALF_OPEN, the first success keeps
    it HALF_OPEN and the second gives CLOSED with failure count 0. *)
Theorem breaker_transitions (cb : CircuitBreaker) (now : Z) :
  (_state cb = CLOSED -> _on_success cb = set_failure_count 0 cb) /\
  (_state cb = CLOSED ->
     _failure_count (_on_failure cb now) = _failure_count cb + 1 /\
     _last_failure_time (_on_failure cb now) = Some now /\
     _state (_on_failure cb now) =
       if failure_threshold cb <=? _failure_count cb + 1 then OPEN
       else CLOSED) /\
  (_state cb = HALF_OPEN ->
     _state (_on_failure cb now) = OPEN /\
     _last_failure_time (_on_failure cb now) = Some now) /\
  (_should_attempt_reset cb now = true ->
     _state (attempt_reset cb now) = HALF_OPEN /\
     _success_count (attempt_reset cb now) = 0 /\
     _state (_on_success (attempt_reset cb now)) = HALF_OPEN /\
     _state (_on_success (_on_success (attempt_reset cb now))) = CLOSED /\
     _failure_count (_on_success (_on_success (attempt_reset cb now))) = 0).
Proof.
  split; [|split; [|split]].
  - intros Hst. unfold _on_success. by rewrite Hst.
  - intros Hst. unfold _on_failure. simpl. rewrite Hst. simpl.
    destruct (failure_threshold cb <=? _failure_count cb + 1); simpl;
      by rewrite ?Hst.
  - intros Hst. unfold _on_failure. simpl. by rewrite Hst.
  - intros Hreset. unfold attempt_reset. by rewrite Hreset.
Qed.

(** The same transitions seen through [call]: with the breaker just
    moved to HALF_OPEN by a call that succeeds, any further successful
    call closes it, whatever the clock says. *)
Lemma two_successes_close {T} (cb : CircuitBreaker) (t : Z)
    (first second : CallEvent T) (v1 v2 : T) :
  _state cb = OPEN ->
  _last_failure_time cb = Some t ->
  t + recovery_timeout cb <= ev_now first ->
  ev_func first = Return v1 ->
  ev_func second = Return v2 ->
  _state (breaker (call_event cb first)) = HALF_OPEN /\
  _state (breaker (call_event (breaker (call_event cb first)) second))
    = CLOSED /\
  _failure_count (breaker (call_event (breaker (call_event cb first)) second))
    = 0.
Proof.
  intros Hst Hlast Hle Hf1 Hf2.
  assert (_should_attempt_reset cb (ev_now first) = true) as Hreset.
  { apply should_attempt_reset_spec. split; [done|].
    exists t. split; [done | lia]. }
  assert (breaker (call_event cb first) =
            set_success_count 1 (set_state HALF_OPEN cb)) as ->.
  { unfold call_event, call, attempt_reset. by rewrite Hreset, Hf1. }
  split; [done|].
  unfold call_event, call, attempt_reset, _should_attempt_reset.
  by rewrite Hf2.
Qed.

(** The breaker scenario: CLOSED, CLOSED, OPEN, rejected while OPEN,
    HALF_OPEN after the first success, CLOSED after the second. *)
Example service_breaker_run :
  map (fun o => (invoked o, _state (breaker o), _failure_count (breaker o)))
    (run_calls Scenarios.service_breaker Scenarios.service_calls).2
  = [(true, CLOSED, 1); (true, CLOSED, 2); (true, OPEN, 3);
     (false, OPEN, 3); (true, HALF_OPEN, 3); (true, CLOSED, 0)].
Proof. reflexivity. Qed.

End BreakerFacts.

(** ** Retry *)

Section RetryFacts.
Import PyNum Errors PyFloat Resilience.

Lemma Qmin_nonneg (a b : Q) : (0 <= a)%Q -> (0 <= b)%Q -> (0 <= Qmin a b)%Q.
Proof. intros Ha Hb. apply Q.min_glb; done. Qed.

(** The capped exponential delay is non-negative for non-negative
    settings. *)
Lemma capped_delay_nonneg (attempt : Z) (base_delay max_delay : Q) :
  (0 <= base_delay)%Q -> (0 <= max_delay)%Q ->
  (0 <= Qmin (base_delay * Qpower 2 attempt) max_delay)%Q.
Proof.
  intros Hb Hm. apply Qmin_nonneg; [|done].
  apply Qmult_le_0_compat; [done|]. by apply Qpower_0_le.
Qed.

(** When [exponential_backoff] returns, the attempt is below 1024 and the
    delay is the capped product, jittered if asked, clamped at 0; from
    attempt 1024 on it raises. *)
Lemma exponential_backoff_returns (attempt : Z) (base_delay max_delay : Q)
    (jitter : bool) (rnd d : Q) :
  exponential_backoff attempt base_delay max_delay jitter rnd = Return d ->
  attempt < 1024 /\
  d = Qmax 0
        (if jitter then
           (Qmin (base_delay * Qpower 2 attempt) max_delay
            + uniform
                (- (Qmin (base_delay * Qpower 2 attempt) max_delay * (1 # 4)))
                (Qmin (base_delay * Qpower 2 attempt) max_delay * (1 # 4))
                rnd)%Q
         else Qmin (base_delay * Qpower 2 attempt) max_delay).
Proof.
  unfold exponential_backoff, float_pow2.
  destruct (1024 <=? attempt) eqn:Hbig; [done|].
  apply Z.leb_gt in Hbig. intros [= <-]. split; [done|].
  by destruct jitter.
Qed.

Lemma exponential_backoff_below (attempt : Z) (base_delay max_delay : Q)
    (jitter : bool) (rnd : Q) :
  attempt < 1024 ->
  exists d,
    exponential_backoff attempt base_delay max_delay jitter rnd = Return d.
Proof.
  intros Hlt. unfold exponential_backoff, float_pow2.
  rewrite (proj2 (Z.leb_gt 1024 attempt)) by lia. by eexists.
Qed.

Lemma exponential_backoff_overflow (attempt : Z) (base_delay max_delay : Q)
    (jitter : bool) (rnd : Q) :
  1024 <= attempt ->
  exponential_backoff attempt base_delay max_delay jitter rnd
  = Raise (EOther "OverflowError" "int too large to convert to float").
Proof.
  intros Hbig. unfold exponential_backoff, float_pow2.
  by rewrite (proj2 (Z.leb_le 1024 attempt)) by lia.
Qed.

(** For a non-negative attempt, [float_pow2] raises exactly when the
    conversion of the int [2 ** attempt] does. *)
Lemma float_pow2_of_int (attempt : Z) :
  0 <= attempt ->
  (exists e, float_pow2 attempt = Raise e) <->
  (exists e, float_of_int (2 ^ attempt) = Raise e).
Proof.
  intros Hpos. unfold float_pow2, float_of_int, float_overflow.
  rewrite Z.abs_eq by (apply Z.pow_nonneg; lia).
  assert (2 ^ 970 < 2 ^ 1023) as Hsmall by (apply Z.pow_lt_mono_r; lia).
  assert (2 ^ 1024 = 2 * 2 ^ 1023) as Hdouble
    by (rewrite <- Z.pow_succ_r by lia; done).
  destruct (1024 <=? attempt) eqn:Hbig.
  - apply Z.leb_le in Hbig.
    assert (2 ^ 1024 <= 2 ^ attempt) by (apply Z.pow_le_mono_r; lia).
    rewrite (proj2 (Z.ltb_ge _ _)) by lia.
    split; intros _; by eexists.
  - apply Z.leb_gt in Hbig.
    assert (2 ^ attempt <= 2 ^ 1023) by (apply Z.pow_le_mono_r; lia).
    rewrite (proj2 (Z.ltb_lt _ _)) by lia.
    split; intros [e He]; done.
Qed.

Lemma exponential_backoff_nonneg (attempt : Z) (base_delay max_delay : Q)
    (jitter : bool) (rnd d : Q) :
  exponential_backoff attempt base_delay max_delay jitter rnd = Return d ->
  (0 <= d)%Q.
Proof.
  intros [_ ->]%exponential_backoff_returns. apply Q.le_max_l.
Qed.

Lemma exponential_backoff_no_jitter (attempt : Z) (base_delay max_delay : Q)
    (rnd d : Q) :
  (0 <= base_delay)%Q -> (0 <= max_delay)%Q ->
  exponential_backoff attempt base_delay max_delay false rnd = Return d ->
  (d == Qmin (base_delay * Qpower 2 attempt) max_delay)%Q.
Proof.
  intros Hb Hm [_ ->]%exponential_backoff_returns.
  apply Q.max_r. by apply capped_delay_nonneg.
Qed.

(** With jitter the delay stays within a quarter of the capped delay. *)
Lemma exponential_backoff_jitter (attempt : Z) (base_delay max_delay : Q)
    (rnd d : Q) :
  (0 <= base_delay)%Q -> (0 <= max_delay)%Q ->
  (0 <= rnd)%Q -> (rnd < 1)%Q ->
  exponential_backoff attempt base_delay max_delay true rnd = Return d ->
  (Qabs (d - Qmin (base_delay * Qpower 2 attempt) max_delay) <=
     (1 # 4) * Qmin (base_delay * Qpower 2 attempt) max_delay)%Q.
Proof.
  intros Hb Hm Hr0 Hr1 [_ ->]%exponential_backoff_returns. unfold uniform.
  pose proof (capped_delay_nonneg attempt base_delay max_delay Hb Hm) as HD.
  set (D := Qmin (base_delay * Qpower 2 attempt) max_delay) in *.
  assert (0 <= D * rnd)%Q as H1 by (by apply Qmult_le_0_compat).
  assert (0 <= D * (1 - rnd))%Q as H2.
  { apply Qmult_le_0_compat; [done|]. lra. }
  assert (0 <= D + (- (D * (1 # 4)) +
                    (D * (1 # 4) - - (D * (1 # 4))) * rnd))%Q as Hpos.
  { ring_simplify. ring_simplify in H2. lra. }
  rewrite (Q.max_r _ _ Hpos).
  apply Qabs_Qle_condition. split; ring_simplify; ring_simplify in H2; lra.
Qed.

(** When [linear_backoff] returns, the delay is the capped product. *)
Lemma linear_backoff_returns (attempt : Z) (base_delay max_delay d : Q) :
  linear_backoff attempt base_delay max_delay = Return d ->
  Z.abs (attempt + 1) < float_overflow /\
  d = Qmin (base_delay * inject_Z (attempt + 1)) max_delay.
Proof.
  unfold linear_backoff, float_of_int.
  destruct (Z.abs (attempt + 1) <? float_overflow) eqn:Hfit; [|done].
  apply Z.ltb_lt in Hfit. by intros [= <-].
Qed.

Lemma invocations_invoke (a : Z) (tr : list RetryEvent) :
  invocations (Invoke a :: tr) = S (invocations tr).
Proof. reflexivity. Qed.

Lemma invocations_sleep (d : Q) (tr : list RetryEvent) :
  invocations (Sleep d :: tr) = invocations tr.
Proof. reflexivity. Qed.

Lemma sleeps_invoke (a : Z) (tr : list RetryEvent) :
  sleeps (Invoke a :: tr) = sleeps tr.
Proof. reflexivity. Qed.

Lemma sleeps_sleep (d : Q) (tr : list RetryEvent) :
  sleeps (Sleep d :: tr) = d :: sleeps tr.
Proof. reflexivity. Qed.

Section Loop.
Context {T : Type}.
Variable func : Z -> Result T.
Variable rnd : Z -> Q.
Variable config : RetryConfig.

(** The shape of a run over the attempts [a, a+1, ..., max_attempts-1]:
    at most one invocation per attempt, at least one if there is an
    attempt to make, one sleep after every invocation but the last,
    each computed by [get_delay] for the attempt it follows, and every
    attempt followed by a sleep has raised. *)
Lemma retry_loop_shape (n : nat) (a : Z) (last_exception : option Exception) :
  a + Z.of_nat n = max_attempts config ->
  let tr := (retry_loop func rnd config (seqZ a (Z.of_nat n))
               last_exception).1 in
  (invocations tr <= n)%nat /\
  (0 < n -> 1 <= invocations tr)%nat /\
  Return <$> sleeps tr =
    (fun i => get_delay config i (rnd i)) <$>
      seqZ a (Z.of_nat (invocations tr) - 1) /\
  (forall i, a <= i < a + (Z.of_nat (invocations tr) - 1) ->
             exists e, func i = Raise e).
Proof.
  revert a last_exception.
  induction n as [|n IH]; intros a last_exception Hsum tr; subst tr.
  - rewrite seqZ_nil by lia. cbn [retry_loop].
    destruct last_exception; cbn [fst];
      (split; [done|split; [lia|split; [done|]]]);
      intros i Hi; change (invocations []) with 0%nat in Hi; lia.
  - rewrite seqZ_cons by lia.
    replace (Z.pred (Z.of_nat (S n))) with (Z.of_nat n) by lia.
    cbn [retry_loop].
    assert (forall r : Result T,
              let tr := ([Invoke a], r).1 in
              (invocations tr <= S n)%nat /\
              (0 < S n -> 1 <= invocations tr)%nat /\
              Return <$> sleeps tr =
                (fun i => get_delay config i (rnd i)) <$>
                  seqZ a (Z.of_nat (invocations tr) - 1) /\
              (forall i, a <= i < a + (Z.of_nat (invocations tr) - 1) ->
                         exists e, func i = Raise e)) as Hsingle.
    { intros r. cbn [fst]. rewrite invocations_invoke.
      change (invocations []) with 0%nat.
      split; [lia|split; [lia|split; [done|intros; lia]]]. }
    destruct (func a) as [v|e] eqn:Hf; [apply Hsingle|].
    destruct (retryable_exceptions config e); [|apply Hsingle].
    destruct (is_non_retryable_chimera e); [apply Hsingle|].
    destruct (IH (Z.succ a) (Some e) ltac:(lia)) as (IH1 & IH2 & IH3 & IH4).
    destruct (retry_loop func rnd config (seqZ (Z.succ a) (Z.of_nat n))
                (Some e)) as [tr r] eqn:Hloop.
    cbn [fst] in IH1, IH2, IH3, IH4.
    destruct (a <? max_attempts config - 1) eqn:Hlast.
    + destruct (get_delay config a (rnd a)) as [delay|e'] eqn:Hdelay;
        [|apply Hsingle].
      destruct (time_sleep delay) as [[]|e']; [|apply Hsingle].
      apply Z.ltb_lt in Hlast.
      assert (1 <= invocations tr)%nat as Hone by (apply IH2; lia).
      cbn [fst]. rewrite invocations_invoke, invocations_sleep,
        sleeps_invoke, sleeps_sleep.
      split; [lia|]. split; [lia|]. split.
      * rewrite (seqZ_cons a) by lia. rewrite !fmap_cons, Hdelay. f_equal.
        rewrite IH3. do 2 f_equal. lia.
      * intros i Hi. destruct (decide (i = a)) as [->|Hne]; [by exists e|].
        apply IH4. lia.
    + apply Z.ltb_ge in Hlast.
      assert (n = 0)%nat as -> by lia.
      rewrite seqZ_nil in Hloop by lia.
      cbn [retry_loop] in Hloop. injection Hloop as <- <-.
      apply Hsingle.
Qed.
End Loop.

(** C7.  A retry-wrapped invocation, for a configuration with a
    non-negative attempt count (and, for EXPONENTIAL, non-negative base
    and maximum delays), calls the wrapped function at most
    [max_attempts] times.  There is exactly one sleep between consecutive
    attempts; the sleep after the failed attempt [i] (0-indexed) is
    [min(base * 2^i, max)] for EXPONENTIAL without jitter, is
    non-negative and within a quarter of that value for EXPONENTIAL with
    jitter, is [min(base * (i+1), max)] for LINEAR, and is [base] for
    CONSTANT. *)
Theorem retry_attempts_and_delays {T} (func : Z -> Result T)
    (rnd : Z -> Q) (config : RetryConfig) :
  0 <= max_attempts config ->
  (strategy config = EXPONENTIAL ->
   (0 <= base_delay config)%Q /\ (0 <= max_delay config)%Q) ->
  (forall i, (0 <= rnd i)%Q /\ (rnd i < 1)%Q) ->
  Z.of_nat (invocations (sync_wrapper func rnd config).1)
    <= max_attempts config /\
  length (sleeps (sync_wrapper func rnd config).1) =
    (invocations (sync_wrapper func rnd config).1 - 1)%nat /\
  forall (i : nat) (d : Q),
    sleeps (sync_wrapper func rnd config).1 !! i = Some d ->
    (exists e, func (Z.of_nat i) = Raise e) /\
    (S i < invocations (sync_wrapper func rnd config).1)%nat /\
    match strategy config with
    | EXPONENTIAL =>
        if jitter config then
          (0 <= d)%Q /\
          (Qabs (d - Qmin (base_delay config * Qpower 2 (Z.of_nat i))
                       (max_delay config))
           <= (1 # 4) * Qmin (base_delay config * Qpower 2 (Z.of_nat i))
                          (max_delay config))%Q
        else
          (d == Qmin (base_delay config * Qpower 2 (Z.of_nat i))
                  (max_delay config))%Q
    | LINEAR =>
        (d == Qmin (base_delay config * inject_Z (Z.of_nat i + 1))
                (max_delay config))%Q
    | CONSTANT => (d == base_delay config)%Q
    end.
Proof.
  intros Hmax Hsign Hrnd. unfold sync_wrapper, range.
  destruct (retry_loop_shape func rnd config
              (Z.to_nat (max_attempts config)) 0 None ltac:(lia))
    as (Hle & _ & Hsleeps & Hfail).
  rewrite Z2Nat.id in Hle, Hsleeps, Hfail by lia.
  set (tr := (retry_loop func rnd config
                (seqZ 0 (max_attempts config)) None).1) in *.
  split; [lia|]. split.
  { apply (f_equal length) in Hsleeps.
    rewrite !length_fmap, length_seqZ in Hsleeps. lia. }
  intros i d Hi.
  assert ((Return <$> sleeps tr) !! i = Some (Return d)) as Hi'
    by (by rewrite list_lookup_fmap, Hi).
  rewrite Hsleeps in Hi'.
  apply list_lookup_fmap_Some in Hi' as (a & Hd & Ha).
  apply lookup_seqZ in Ha as [-> Hlt]. rewrite Z.add_0_l in Hd.
  split; [apply Hfail; lia|]. split; [lia|].
  unfold get_delay in Hd. destruct (strategy config).
  - destruct (Hsign eq_refl) as [Hbase Hcap]. destruct (jitter config).
    + split; [by eapply exponential_backoff_nonneg|].
      eapply exponential_backoff_jitter; [done..| | |done]; apply Hrnd.
    + by eapply exponential_backoff_no_jitter.
  - symmetry in Hd. apply linear_backoff_returns in Hd as [_ ->].
    reflexivity.
  - injection Hd as ->. reflexivity.
Qed.

(** The decorator cannot switch jitter off: every configuration it builds
    has it on. *)
Lemma retry_config_jitter (max_attempts : Z) (strategy : RetryStrategy)
    (base_delay max_delay : Q)
    (retryable_exceptions : option (Exception -> bool)) :
  jitter (retry_config max_attempts strategy base_delay max_delay
            retryable_exceptions) = true.
Proof. reflexivity. Qed.

(** C2.  When the first invocation of the wrapped function raises a
    domain error whose [retryable] flag is false, the run consists of
    that single invocation: no sleep, no further attempt, and the same
    error is raised to the caller. *)
Theorem non_retryable_raised_at_once {T} (func : Z -> Result T)
    (rnd : Z -> Q) (config : RetryConfig) (err : ChimeraError) :
  0 < max_attempts config ->
  func 0 = Raise (EChimera err) ->
  retryable err = false ->
  sync_wrapper func rnd config = ([Invoke 0], Raise (EChimera err)) /\
  invocations (sync_wrapper func rnd config).1 = 1%nat /\
  sleeps (sync_wrapper func rnd config).1 = [].
Proof.
  intros Hmax Hf Hnr.
  assert (sync_wrapper func rnd config = ([Invoke 0], Raise (EChimera err)))
    as ->; [|done].
  unfold sync_wrapper, range. rewrite seqZ_cons by lia.
  cbn [retry_loop]. rewrite Hf.
  destruct (retryable_exceptions config (EChimera err)); [|done].
  simpl. by rewrite Hnr.
Qed.

(** More generally, whichever attempt raises a non-retryable domain
    error is the last one. *)
Lemma retry_loop_stops_at_non_retryable {T} (func : Z -> Result T)
    (rnd : Z -> Q) (config : RetryConfig) (err : ChimeraError)
    (a : Z) (rest : list Z) (last_exception : option Exception) :
  func a = Raise (EChimera err) ->
  retryable err = false ->
  retry_loop func rnd config (a :: rest) last_exception =
    ([Invoke a], Raise (EChimera err)).
Proof.
  intros Hf Hnr. cbn [retry_loop]. rewrite Hf.
  destruct (retryable_exceptions config (EChimera err)); [|done].
  simpl. by rewrite Hnr.
Qed.

(** C7 on the flaky callable: two failures, then success, with three
    attempts allowed; the two sleeps are 10 ms and 20 ms. *)
Lemma retry_attempts_and_delays_witness :
  (0 <= max_attempts Scenarios.plain_exponential /\
   (strategy Scenarios.plain_exponential = EXPONENTIAL ->
    (0 <= base_delay Scenarios.plain_exponential)%Q /\
    (0 <= max_delay Scenarios.plain_exponential)%Q) /\
   (forall i, (0 <= Scenarios.half i)%Q /\ (Scenarios.half i < 1)%Q)) /\
  Z.of_nat
    (invocations
       (sync_wrapper Scenarios.flaky Scenarios.half
          Scenarios.plain_exponential).1)
    <= max_attempts Scenarios.plain_exponential /\
  sync_wrapper Scenarios.flaky Scenarios.half Scenarios.plain_exponential =
    ([Invoke 0; Sleep (1 # 100); Invoke 1; Sleep (2 # 100); Invoke 2],
     Return "ok").
Proof.
  assert (0 <= max_attempts Scenarios.plain_exponential) as H1 by (simpl; lia).
  assert (strategy Scenarios.plain_exponential = EXPONENTIAL ->
          (0 <= base_delay Scenarios.plain_exponential)%Q /\
          (0 <= max_delay Scenarios.plain_exponential)%Q) as H2
    by (intros _; split; vm_compute; discriminate).
  assert (forall i, (0 <= Scenarios.half i)%Q /\ (Scenarios.half i < 1)%Q)
    as H4 by (intros i; split; [vm_compute; discriminate | reflexivity]).
  split; [done|].
  split; [|reflexivity].
  exact (proj1 (retry_attempts_and_delays Scenarios.flaky Scenarios.half
                  Scenarios.plain_exponential H1 H2 H4)).
Defined.

(** C2 on a callable that always raises a non-retryable query error, under
    [@retry(max_attempts=5)]. *)
Lemma non_retryable_raised_at_once_witness :
  (0 < max_attempts Scenarios.five_attempts /\
   Scenarios.always_invalid 0 = Raise (EChimera Scenarios.invalid_query) /\
   retryable Scenarios.invalid_query = false) /\
  sync_wrapper Scenarios.always_invalid Scenarios.half
    Scenarios.five_attempts
    = ([Invoke 0], Raise (EChimera Scenarios.invalid_query)).
Proof.
  assert (0 < max_attempts Scenarios.five_attempts) as H1 by (simpl; lia).
  split; [by split|].
  exact (proj1 (non_retryable_raised_at_once Scenarios.always_invalid
                  Scenarios.half Scenarios.five_attempts
                  Scenarios.invalid_query H1 eq_refl eq_refl)).
Defined.

End RetryFacts.

(** ** Subscriber acknowledgements and the correlation map *)

Section MessagingFacts.
Import Errors Messaging.
Context {MessageClass ProtoMessage Body Any : Type}.

Section Delivery.
Variable deserialize_message : Body -> MessageClass -> Result ProtoMessage.
Variable get_routing_key_map : gmap string MessageClass.
Variable handle_message : ProtoMessage -> MsgProperties -> Result unit.
Variable channel_error : ChannelOp -> option Exception.

Lemma delivery_succeeds_or_fails (method : Deliver)
    (properties : BasicProperties) (body : Body) :
  delivery_succeeds deserialize_message get_routing_key_map handle_message
    method properties body \/
  delivery_fails deserialize_message get_routing_key_map handle_message
    method properties body.
Proof.
  unfold delivery_succeeds, delivery_fails.
  destruct (get_routing_key_map !! routing_key method) as [mc|] eqn:Hmc;
    [|by right; left].
  destruct (deserialize_message body mc) as [msg|e] eqn:Hd;
    [|right; right; left; by exists mc, e].
  destruct (handle_message msg (msg_properties_of method properties))
    as [[]|e] eqn:Hh.
  - left. by exists mc, msg.
  - right; right; right. by exists mc, msg, e.
Qed.

Lemma steps_of_success (method : Deliver) (properties : BasicProperties)
    (body : Body) :
  delivery_succeeds deserialize_message get_routing_key_map handle_message
    method properties body ->
  _on_message_steps deserialize_message get_routing_key_map handle_message
    method properties body = Return tt.
Proof.
  intros (mc & msg & Hmc & Hd & Hh).
  unfold _on_message_steps, get_message_class. rewrite Hmc. simpl.
  rewrite Hd. simpl. exact Hh.
Qed.

Lemma steps_of_failure (method : Deliver) (properties : BasicProperties)
    (body : Body) :
  delivery_fails deserialize_message get_routing_key_map handle_message
    method properties body ->
  exists e,
    _on_message_steps deserialize_message get_routing_key_map handle_message
      method properties body = Raise e.
Proof.
  unfold _on_message_steps, get_message_class.
  intros [->|[(mc & e & -> & Hd)|(mc & msg & e & -> & Hd & Hh)]]; simpl.
  - by eexists.
  - rewrite Hd. by eexists.
  - rewrite Hd. simpl. rewrite Hh. by eexists.
Qed.

(** C3, as the code has it.  On a channel that accepts the call, a
    delivery whose type lookup, deserialisation and handler all succeed
    produces exactly one channel operation, the ack of its delivery tag;
    a delivery for which one of these steps raises, an unknown routing
    key included, produces exactly one channel operation, the nack of its
    delivery tag with requeue=false.  The ack is itself inside the [try]:
    when the channel refuses it, the handled delivery is answered with
    that same nack and no ack; when the channel refuses the nack too,
    nothing is sent and the exception leaves the callback.  In no case is
    more than one operation sent, so never an ack and a nack. *)
Theorem ack_xor_nack (method : Deliver) (properties : BasicProperties)
    (body : Body) :
  (delivery_succeeds deserialize_message get_routing_key_map
     handle_message method properties body ->
   channel_error (basic_ack (delivery_tag method)) = None ->
   _on_message deserialize_message get_routing_key_map handle_message
     channel_error method properties body
   = ([basic_ack (delivery_tag method)], Return tt)) /\
  (delivery_fails deserialize_message get_routing_key_map
     handle_message method properties body ->
   channel_error (basic_nack (delivery_tag method) false) = None ->
   _on_message deserialize_message get_routing_key_map handle_message
     channel_error method properties body
   = ([basic_nack (delivery_tag method) false], Return tt)) /\
  (get_routing_key_map !! routing_key method = None ->
   get_message_class get_routing_key_map (routing_key method) =
     Raise (EOther "ValueError"
              ("Unknown routing key: " ++ routing_key method)) /\
   (channel_error (basic_nack (delivery_tag method) false) = None ->
    _on_message deserialize_message get_routing_key_map handle_message
      channel_error method properties body
    = ([basic_nack (delivery_tag method) false], Return tt))) /\
  (delivery_succeeds deserialize_message get_routing_key_map
     handle_message method properties body ->
   is_Some (channel_error (basic_ack (delivery_tag method))) ->
   channel_error (basic_nack (delivery_tag method) false) = None ->
   _on_message deserialize_message get_routing_key_map handle_message
     channel_error method properties body
   = ([basic_nack (delivery_tag method) false], Return tt)) /\
  (forall e,
     delivery_fails deserialize_message get_routing_key_map
       handle_message method properties body \/
     is_Some (channel_error (basic_ack (delivery_tag method))) ->
     channel_error (basic_nack (delivery_tag method) false) = Some e ->
     _on_message deserialize_message get_routing_key_map handle_message
       channel_error method properties body = ([], Raise e)) /\
  (count_ops is_ack
     (_on_message deserialize_message get_routing_key_map handle_message
        channel_error method properties body).1 +
   count_ops is_nack
     (_on_message deserialize_message get_routing_key_map handle_message
        channel_error method properties body).1 <= 1)%nat /\
  ((forall op, channel_error op = None) ->
   (count_ops is_ack
      (_on_message deserialize_message get_routing_key_map handle_message
         channel_error method properties body).1 +
    count_ops is_nack
      (_on_message deserialize_message get_routing_key_map handle_message
         channel_error method properties body).1 = 1)%nat).
Proof.
  unfold _on_message, _on_message_try, channel_call.
  split; [|split; [|split; [|split; [|split; [|split]]]]].
  - intros Hok Hack. by rewrite (steps_of_success _ _ _ Hok), Hack.
  - intros Hfail Hnack.
    destruct (steps_of_failure _ _ _ Hfail) as [e ->]. by rewrite Hnack.
  - intros Hmc. split; [unfold get_message_class; by rewrite Hmc|].
    intros Hnack.
    destruct (steps_of_failure method properties body ltac:(by left))
      as [e ->].
    by rewrite Hnack.
  - intros Hok [e Hack] Hnack.
    by rewrite (steps_of_success _ _ _ Hok), Hack, Hnack.
  - intros e [Hfail|[e' Hack]] Hnack.
    + destruct (steps_of_failure _ _ _ Hfail) as [e' ->]. by rewrite Hnack.
    + destruct (_on_message_steps deserialize_message get_routing_key_map
                  handle_message method properties body) as [[]|e''];
        by rewrite ?Hack, Hnack.
  - destruct (_on_message_steps deserialize_message get_routing_key_map
                handle_message method properties body) as [[]|e];
      [destruct (channel_error (basic_ack (delivery_tag method)))|];
      destruct (channel_error (basic_nack (delivery_tag method) false));
      vm_compute; lia.
  - intros Hopen.
    destruct (_on_message_steps deserialize_message get_routing_key_map
                handle_message method properties body) as [[]|e];
      by rewrite !Hopen.
Qed.
End Delivery.

Section Correlation.
(** [context or {}] keeps a given context as it is; without one the
    stored context is the empty dict. *)
Lemma context_or_empty_default (context : option (gmap string Any)) :
  context_or_empty context = default ∅ context.
Proof.
  destruct context as [c|]; [|done]. simpl.
  destruct (size c =? 0)%nat eqn:Hsz; [|done].
  apply Nat.eqb_eq, map_size_empty_iff in Hsz. by subst.
Qed.

Lemma publish_correlation_map (self : @BaseAgent ProtoMessage Any)
    (message : ProtoMessage)
    (routing_key : string) (correlation_id : option string)
    (publish_error : option Exception) :
  _correlation_map
    (publish self message routing_key correlation_id publish_error).1
  = _correlation_map self.
Proof. unfold publish. by destruct publish_error. Qed.

(** Publishing responses never touches the correlation map. *)
Lemma publish_responses_correlation_map
    (self : @BaseAgent ProtoMessage Any)
    (responses : list (@ResponseCall ProtoMessage)) :
  _correlation_map (publish_responses self responses)
  = _correlation_map self.
Proof.
  unfold publish_responses. revert self.
  induction responses as [|r responses IH]; intros self; [done|].
  simpl. rewrite IH. unfold publish_response.
  apply publish_correlation_map.
Qed.

(** C5.  When [publish_request] returns a correlation id [c], the map
    holds for [c] the entry made of the two routing keys, the context
    handed in (the empty one if none was) and the timestamp;
    [get_correlation_context c] returns exactly that entry, also after
    any number of [publish_response] calls, whether they carry [c] or
    not; after [clear_correlation c] it returns nothing. *)
Theorem request_context_until_cleared
    (self self' : @BaseAgent ProtoMessage Any)
    (message : ProtoMessage) (routing_key reply_routing_key : string)
    (context : option (gmap string Any)) (uuid4 : string) (now_ms : Z)
    (publish_error : option Exception) (c : string)
    (responses : list (@ResponseCall ProtoMessage)) :
  publish_request self message routing_key reply_routing_key context
    uuid4 now_ms publish_error = (self', Return c) ->
  c = uuid4 /\
  get_correlation_context self' c =
    Some {| request_routing_key := Some routing_key;
            reply_routing_key := Some reply_routing_key;
            Messaging.context := Some (default ∅ context);
            timestamp := Some now_ms |} /\
  get_correlation_context (publish_responses self' responses) c =
    get_correlation_context self' c /\
  get_correlation_context
    (clear_correlation (publish_responses self' responses) c) c = None.
Proof.
  unfold publish_request, publish. intros Hreq.
  destruct publish_error as [e|]; [discriminate|].
  injection Hreq as <- <-.
  split; [done|]. split; [|split].
  - unfold get_correlation_context. simpl.
    by rewrite lookup_insert_eq, context_or_empty_default.
  - unfold get_correlation_context.
    by rewrite publish_responses_correlation_map.
  - unfold get_correlation_context, clear_correlation.
    destruct (_correlation_map (publish_responses _ responses) !! uuid4)
      as [entry|] eqn:Hlook; [|done].
    simpl. apply lookup_delete_eq.
Qed.

(** Deleting a list of keys one by one. *)
Lemma lookup_foldl_delete (ks : list string)
    (m : gmap string (CorrelationEntry Any))
    (k : string) :
  foldl (fun m corr_id => delete corr_id m) m ks !! k =
    if decide (k ∈ ks) then None else m !! k.
Proof.
  revert m. induction ks as [|k' ks IH]; intros m; simpl; [done|].
  rewrite IH. destruct (decide (k ∈ ks)) as [Hin|Hnin].
  - rewrite decide_True; [done | by right].
  - destruct (decide (k = k')) as [->|Hne].
    + rewrite decide_True by left. apply lookup_delete_eq.
    + rewrite decide_False by (intros [?|?]%elem_of_cons; done).
      by apply lookup_delete_ne.
Qed.

Lemma size_foldl_delete (ks : list string)
    (m : gmap string (CorrelationEntry Any)) :
  NoDup ks ->
  (forall k, k ∈ ks -> is_Some (m !! k)) ->
  (size (foldl (fun m corr_id => delete corr_id m) m ks) + length ks
   = size m)%nat.
Proof.
  revert m. induction ks as [|k ks IH]; intros m Hnd Hin; simpl; [lia|].
  apply NoDup_cons in Hnd as [Hk Hnd].
  specialize (IH (delete k m) Hnd).
  rewrite map_size_delete_Some in IH by (apply Hin; left).
  assert (size m <> 0)%nat as Hnz.
  { intros Hz. apply map_size_empty_iff in Hz. subst m.
    specialize (Hin k ltac:(left)). rewrite lookup_empty in Hin.
    by destruct Hin. }
  rewrite Nat.add_succ_r, IH; [lia|].
  intros k' Hk'. rewrite lookup_delete_ne; [apply Hin; by right|].
  intros ->. done.
Qed.

Lemma elem_of_old_ids (m : gmap string (CorrelationEntry Any)) (cutoff_time : Z)
    (k : string) :
  k ∈ old_ids_of m cutoff_time <->
  exists data, m !! k = Some data /\ entry_timestamp data < cutoff_time.
Proof.
  unfold old_ids_of. rewrite list_elem_of_fmap. split.
  - intros ([k' data] & -> & Hin). apply list_elem_of_filter in Hin as [Hold Hin].
    apply elem_of_map_to_list in Hin. by exists data.
  - intros (data & Hlook & Hold). exists (k, data). split; [done|].
    apply list_elem_of_filter. split; [done|].
    by apply elem_of_map_to_list.
Qed.

Lemma NoDup_old_ids (m : gmap string (CorrelationEntry Any))
    (cutoff_time : Z) :
  NoDup (old_ids_of m cutoff_time).
Proof.
  unfold old_ids_of.
  eapply sublist_NoDup; [apply (NoDup_fst_map_to_list m)|].
  apply fmap_sublist, sublist_filter.
Qed.

(** C6.  [cleanup_old_correlations(a)] at clock reading [now] removes
    exactly the entries whose timestamp is below [now - a * 1000]
    (timestamps are in milliseconds, [a] in seconds) and keeps every
    other entry unchanged; it returns the number of entries removed;
    a second call with the same [a] and [now] removes nothing and
    returns 0. *)
Theorem cleanup_removes_exactly_old (self : @BaseAgent ProtoMessage Any)
    (max_age_seconds : Z)
    (now_ms : Z) :
  (forall k,
     _correlation_map
       (cleanup_old_correlations self max_age_seconds now_ms).1 !! k =
     match _correlation_map self !! k with
     | Some data =>
         if decide (entry_timestamp data < now_ms - max_age_seconds * 1000)
         then None else Some data
     | None => None
     end) /\
  (cleanup_old_correlations self max_age_seconds now_ms).2 =
    Z.of_nat (size (_correlation_map self)) -
    Z.of_nat
      (size (_correlation_map
               (cleanup_old_correlations self max_age_seconds now_ms).1)) /\
  cleanup_old_correlations
    (cleanup_old_correlations self max_age_seconds now_ms).1
    max_age_seconds now_ms =
    ((cleanup_old_correlations self max_age_seconds now_ms).1, 0).
Proof.
  unfold cleanup_old_correlations. cbn [fst snd].
  set (cutoff := now_ms - max_age_seconds * 1000).
  set (m := _correlation_map self).
  assert (forall k,
            foldl (fun m corr_id => delete corr_id m) m
              (old_ids_of m cutoff) !! k =
            match m !! k with
            | Some data =>
                if decide (entry_timestamp data < cutoff) then None
                else Some data
            | None => None
            end) as Hlook.
  { intros k. rewrite lookup_foldl_delete.
    destruct (decide (k ∈ old_ids_of m cutoff)) as [Hin|Hnin].
    - apply elem_of_old_ids in Hin as (data & -> & Hold).
      by rewrite decide_True.
    - destruct (m !! k) as [data|] eqn:Hk; [|done].
      rewrite decide_False; [done|]. intros Hold. apply Hnin.
      apply elem_of_old_ids. by exists data. }
  split; [exact Hlook|]. split.
  - pose proof (size_foldl_delete (old_ids_of m cutoff) m
                  (NoDup_old_ids m cutoff)) as Hsize.
    simpl. rewrite <- Hsize; [lia|].
    intros k (data & -> & _)%elem_of_old_ids. by eexists.
  - simpl.
    assert (old_ids_of
              (foldl (fun m corr_id => delete corr_id m) m
                 (old_ids_of m cutoff)) cutoff = []) as ->; [|done].
    apply elem_of_nil_inv. intros k Hin.
    apply elem_of_old_ids in Hin as (data & Hk & Hold).
    rewrite Hlook in Hk. destruct (m !! k) as [data'|]; [|done].
    destruct (decide (entry_timestamp data' < cutoff)); [done|].
    by injection Hk as ->.
Qed.
End Correlation.

End MessagingFacts.

Section MessagingScenarios.
Import Errors Messaging.

(** C5 on the test agent: a request with context {user: alice} and
    generated id c1, then a response carrying c1, then the clear. *)
Lemma request_context_until_cleared_witness :
  publish_request Scenarios.test_agent "ping" "test.request" "test.response"
    (Some Scenarios.request_context) "c1" 1700000000000 None
  = ((publish_request Scenarios.test_agent "ping" "test.request"
        "test.response" (Some Scenarios.request_context) "c1" 1700000000000
        None).1,
     Return "c1") /\
  get_correlation_context
    (publish_responses
       (publish_request Scenarios.test_agent "ping" "test.request"
          "test.response" (Some Scenarios.request_context) "c1"
          1700000000000 None).1
       [Scenarios.matching_response]) "c1"
  = Some {| request_routing_key := Some "test.request";
            reply_routing_key := Some "test.response";
            Messaging.context := Some Scenarios.request_context;
            timestamp := Some 1700000000000 |} /\
  get_correlation_context
    (clear_correlation
       (publish_responses
          (publish_request Scenarios.test_agent "ping" "test.request"
             "test.response" (Some Scenarios.request_context) "c1"
             1700000000000 None).1
          [Scenarios.matching_response]) "c1") "c1"
  = None.
Proof.
  split; [reflexivity|].
  destruct (request_context_until_cleared Scenarios.test_agent
              (publish_request Scenarios.test_agent "ping" "test.request"
                 "test.response" (Some Scenarios.request_context) "c1"
                 1700000000000 None).1
              "ping" "test.request" "test.response"
              (Some Scenarios.request_context) "c1" 1700000000000 None "c1"
              [Scenarios.matching_response] eq_refl)
    as (_ & Hget & Hresp & Hclear).
  split; [by rewrite Hresp, Hget | exact Hclear].
Defined.

(** C3 as stated fails when the channel refuses the ack: the delivery
    below passes lookup, deserialisation and handler, yet on a closed
    channel no ack is sent and the callback raises, and on a channel that
    refuses acks only, what is sent is a nack and no ack. *)
Lemma handled_delivery_not_acked :
  delivery_succeeds Scenarios.parse Scenarios.routing_key_map
    Scenarios.handler (mkDeliver "test.request" 7) Scenarios.no_properties
    "hello" /\
  _on_message Scenarios.parse Scenarios.routing_key_map Scenarios.handler
    Scenarios.closed_channel (mkDeliver "test.request" 7)
    Scenarios.no_properties "hello"
  = ([], Raise (EOther "ChannelWrongStateError" "Channel is closed.")) /\
  _on_message Scenarios.parse Scenarios.routing_key_map Scenarios.handler
    Scenarios.refuses_acks (mkDeliver "test.request" 7)
    Scenarios.no_properties "hello"
  = ([basic_nack 7 false], Return tt) /\
  count_ops is_ack
    (_on_message Scenarios.parse Scenarios.routing_key_map Scenarios.handler
       Scenarios.refuses_acks (mkDeliver "test.request" 7)
       Scenarios.no_properties "hello").1 = 0%nat /\
  count_ops is_nack
    (_on_message Scenarios.parse Scenarios.routing_key_map Scenarios.handler
       Scenarios.refuses_acks (mkDeliver "test.request" 7)
       Scenarios.no_properties "hello").1 = 1%nat.
Proof.
  split; [|repeat split; reflexivity].
  exists "TestRequest", "hello". repeat split; reflexivity.
Qed.

(** Deliveries on the scenario subscriber, the channel accepting every
    call: handled, unknown routing key, undecodable body, failing
    handler. *)
Example delivery_runs :
  _on_message Scenarios.parse Scenarios.routing_key_map Scenarios.handler
    Scenarios.open_channel (mkDeliver "test.request" 7)
    Scenarios.no_properties "hello"
    = ([basic_ack 7], Return tt) /\
  _on_message Scenarios.parse Scenarios.routing_key_map Scenarios.handler
    Scenarios.open_channel (mkDeliver "other.key" 8)
    Scenarios.no_properties "hello"
    = ([basic_nack 8 false], Return tt) /\
  _on_message Scenarios.parse Scenarios.routing_key_map Scenarios.handler
    Scenarios.open_channel (mkDeliver "test.request" 9)
    Scenarios.no_properties ""
    = ([basic_nack 9 false], Return tt) /\
  _on_message Scenarios.parse Scenarios.routing_key_map Scenarios.handler
    Scenarios.open_channel (mkDeliver "test.request" 10)
    Scenarios.no_properties "boom"
    = ([basic_nack 10 false], Return tt).
Proof. repeat split; reflexivity. Qed.

(** The reaping scenario: with a maximum age of one hour the two-hour-old
    entry goes, the thirty-minute-old one stays, and the count is 1. *)
Example reaping_run :
  (cleanup_old_correlations Scenarios.reaping_agent 3600
     Scenarios.reap_time).2 = 1 /\
  get_correlation_context
    (cleanup_old_correlations Scenarios.reaping_agent 3600
       Scenarios.reap_time).1 "old-1" = None /\
  get_correlation_context
    (cleanup_old_correlations Scenarios.reaping_agent 3600
       Scenarios.reap_time).1 "recent-1"
  = Scenarios.two_entries !! "recent-1" /\
  is_Some (Scenarios.two_entries !! "recent-1").
Proof. vm_compute. repeat split; try done. by eexists. Qed.

End MessagingScenarios.

(** ** The alert engine *)

Section AlertFacts.
Import PyNum Errors PyDict AlertEngine.

Lemma Qlt_bool_iff (a b : Q) : Qlt_bool a b = true <-> (a < b)%Q.
Proof.
  unfold Qlt_bool. rewrite negb_true_iff, <- not_true_iff_false, Qle_bool_iff.
  split; [apply Qnot_le_lt | apply Qlt_not_le].
Qed.

Lemma Qlt_bool_false_iff (a b : Q) : Qlt_bool a b = false <-> (b <= a)%Q.
Proof.
  unfold Qlt_bool. rewrite negb_false_iff. apply Qle_bool_iff.
Qed.

(** The ladder of the source is the ladder of the specification. *)
Lemma severity_of_deviation_follows (deviation : Q) :
  severity_follows deviation (severity_of_deviation deviation).
Proof.
  unfold severity_follows, severity_of_deviation.
  destruct (Qlt_bool (1 # 2) deviation) eqn:H2;
    [apply Qlt_bool_iff in H2 | apply Qlt_bool_false_iff in H2].
  { repeat split; intros; try done; lra. }
  destruct (Qlt_bool (1 # 5) deviation) eqn:H5;
    [apply Qlt_bool_iff in H5 | apply Qlt_bool_false_iff in H5].
  { repeat split; intros; try done; lra. }
  destruct (Qlt_bool (1 # 10) deviation) eqn:H10;
    [apply Qlt_bool_iff in H10 | apply Qlt_bool_false_iff in H10].
  { repeat split; intros; try done; lra. }
  repeat split; intros; try done; lra.
Qed.

(** For a positive threshold the deviation of the source is the relative
    deviation; otherwise it is 0. *)
Lemma deviation_positive_threshold (value : Q) (condition : AlertCondition) :
  (0 < threshold condition)%Q ->
  deviation value condition = relative_deviation value (threshold condition).
Proof.
  intros Hpos. unfold deviation, relative_deviation.
  apply Qlt_bool_iff in Hpos as Hb. rewrite Hb.
  destruct (threshold condition) as [n d]. unfold Qabs.
  unfold Qlt in Hpos. simpl in Hpos.
  by rewrite Z.abs_eq by lia.
Qed.

Lemma deviation_other_threshold (value : Q) (condition : AlertCondition) :
  ~ (0 < threshold condition)%Q -> deviation value condition = 0%Q.
Proof.
  intros Hnpos. unfold deviation.
  destruct (Qlt_bool 0 (threshold condition)) eqn:Hb; [|done].
  by apply Qlt_bool_iff in Hb.
Qed.

(** Every alert the loop adds comes from a visited rule that is enabled,
    is on the evaluated metric and has its condition met, and is the alert
    [make_alert] builds for that rule. *)
Lemma evaluate_loop_alerts (items : list (string * AlertRule)) :
  forall (self self' : Engine) (alerts alerts' : list Alert)
         (metric : string) (value : Q) (timestamp : option Z)
         (current_time : Z),
    evaluate_loop self items alerts metric value timestamp current_time
      = (self', Return alerts') ->
    exists fired,
      alerts' = alerts ++ fired /\
      forall a, a ∈ fired ->
        exists rule,
          (rule_id a, rule) ∈ items /\
          enabled rule = true /\
          AlertEngine.metric (condition rule) = metric /\
          _check_condition value (operator (condition rule))
            (threshold (condition rule)) = true /\
          a = make_alert (rule_id a) rule metric value timestamp current_time.
Proof.
  induction items as [|[rid rule] items IH];
    intros self self' alerts alerts' metric value timestamp current_time Hev.
  - simpl in Hev. injection Hev as <- <-. exists [].
    split; [by rewrite app_nil_r|]. intros a Ha. by apply elem_of_nil in Ha.
  - assert (forall self0,
              evaluate_loop self0 items alerts metric value timestamp
                current_time = (self', Return alerts') ->
              exists fired,
                alerts' = alerts ++ fired /\
                forall a, a ∈ fired ->
                  exists rule0,
                    (rule_id a, rule0) ∈ (rid, rule) :: items /\
                    enabled rule0 = true /\
                    AlertEngine.metric (condition rule0) = metric /\
                    _check_condition value (operator (condition rule0))
                      (threshold (condition rule0)) = true /\
                    a = make_alert (rule_id a) rule0 metric value timestamp
                          current_time) as Hskip.
    { intros self0 H0. destruct (IH _ _ _ _ _ _ _ _ H0) as (fired & -> & Hf).
      exists fired. split; [done|]. intros a Ha.
      destruct (Hf a Ha) as (rule0 & Hin & Hrest).
      exists rule0. split; [by right | done]. }
    cbn [evaluate_loop] in Hev.
    destruct (enabled rule) eqn:Hen; simpl in Hev; [|by eapply Hskip].
    destruct (String.eqb (AlertEngine.metric (condition rule)) metric)
      eqn:Hmetric; simpl in Hev; [|by eapply Hskip].
    destruct (_check_condition value (operator (condition rule))
                (threshold (condition rule))) eqn:Hcond; [|by eapply Hskip].
    destruct (in_cooldown self rid rule current_time) as [[]|e];
      [by eapply Hskip| |discriminate].
    destruct (alert_history self !! rid) as [history|]; [|discriminate].
    destruct (IH _ _ _ _ _ _ _ _ Hev) as (fired & -> & Hf).
    exists (make_alert rid rule metric value timestamp current_time :: fired).
    split; [by rewrite <- app_assoc|].
    intros a [->|Ha]%elem_of_cons.
    + exists rule. simpl. split; [by left|].
      apply String.eqb_eq in Hmetric. done.
    + destruct (Hf a Ha) as (rule0 & Hin & Hrest).
      exists rule0. split; [by right | done].
Qed.

(** The cooldown check of a rule whose cooldown [timedelta] can hold. *)
Lemma in_cooldown_fits (self : Engine) (rule_id : string) (rule : AlertRule)
    (current_time : Z) :
  cooldown_fits rule = true ->
  in_cooldown self rule_id rule current_time
  = Return
      (match last_alert_time self !! rule_id with
       | Some last_alert =>
           current_time - last_alert
           <? cooldown_seconds (condition rule) * 1000000
       | None => false
       end).
Proof.
  unfold cooldown_fits, in_cooldown, timedelta_seconds. intros ->.
  by destruct (last_alert_time self !! rule_id).
Qed.

(** On a well-formed engine whose cooldowns [timedelta] can hold,
    [evaluate] returns. *)
Lemma evaluate_loop_returns (items : list (string * AlertRule)) :
  forall (self : Engine) (alerts : list Alert) (metric : string) (value : Q)
         (timestamp : option Z) (current_time : Z),
    (forall rule_id rule,
       (rule_id, rule) ∈ items -> is_Some (alert_history self !! rule_id)) ->
    (forall rule_id rule,
       (rule_id, rule) ∈ items -> cooldown_fits rule = true) ->
    exists self' alerts',
      evaluate_loop self items alerts metric value timestamp current_time
        = (self', Return alerts').
Proof.
  induction items as [|[rid rule] items IH];
    intros self alerts metric value timestamp current_time Hhist Hfit.
  - by exists self, alerts.
  - assert (forall rule_id rule0,
              (rule_id, rule0) ∈ items ->
              is_Some (alert_history self !! rule_id)) as Hrest.
    { intros r0 rule0 Hin. apply (Hhist r0 rule0). by right. }
    assert (forall rule_id rule0,
              (rule_id, rule0) ∈ items -> cooldown_fits rule0 = true)
      as Hfits.
    { intros r0 rule0 Hin. apply (Hfit r0 rule0). by right. }
    cbn [evaluate_loop].
    destruct (enabled rule); simpl; [|by apply IH].
    destruct (String.eqb (AlertEngine.metric (condition rule)) metric);
      simpl; [|by apply IH].
    destruct (_check_condition value (operator (condition rule))
                (threshold (condition rule))); [|by apply IH].
    rewrite (in_cooldown_fits self rid rule current_time)
      by (apply (Hfit rid rule); by left).
    destruct (match last_alert_time self !! rid with
              | Some last_alert =>
                  current_time - last_alert
                  <? cooldown_seconds (condition rule) * 1000000
              | None => false
              end); [by apply IH|].
    destruct (Hhist rid rule ltac:(left)) as [history ->].
    apply IH; [|done]. simpl. intros r0 rule0 Hin.
    destruct (decide (rid = r0)) as [->|Hne].
    + rewrite lookup_insert_eq. by eexists.
    + rewrite lookup_insert_ne by done. by apply (Hrest r0 rule0).
Qed.

Lemma evaluate_returns (self : Engine) (metric : string) (value : Q)
    (timestamp : option Z) (current_time : Z) :
  well_formed self ->
  cooldowns_fit self ->
  exists self' alerts,
    evaluate self metric value timestamp current_time
      = (self', Return alerts).
Proof. intros [_ Hhist] Hfit. by apply evaluate_loop_returns. Qed.

(** [add_rule] keeps an engine well formed, and the new engine is. *)
Lemma new_engine_well_formed : well_formed new_engine.
Proof.
  split; [constructor|]. intros rid rule H. by apply elem_of_nil in H.
Qed.

Lemma add_rule_well_formed (self : Engine) (rule : AlertRule) :
  well_formed self -> well_formed (add_rule self rule).
Proof.
  intros [Hnd Hhist]. split; simpl.
  - by apply dict_set_NoDup.
  - intros rid rule0 Hin. apply elem_of_dict_set in Hin as [[-> _]|Hin].
    + rewrite lookup_insert_eq. by eexists.
    + destruct (decide (id rule = rid)) as [->|Hne].
      * rewrite lookup_insert_eq. by eexists.
      * rewrite lookup_insert_ne by done. by apply (Hhist rid rule0).
Qed.

(** An operator outside the five known ones fails every test of
    [_check_condition]. *)
Lemma check_condition_unknown (value threshold : Q) (op : string) :
  known_operator op = false ->
  _check_condition value op threshold = false.
Proof.
  unfold known_operator, _check_condition. intros Hk.
  apply bool_decide_eq_false in Hk.
  assert (forall known, known ∈ [">"; "<"; ">="; "<="; "=="] ->
                        String.eqb op known = false) as Hne.
  { intros known Hin. apply String.eqb_neq. by intros ->. }
  rewrite !Hne by set_solver. done.
Qed.

(** C10.  The operator "==" is met exactly when the value is strictly
    within 0.01 of the threshold; an operator other than >, <, >=, <=, ==
    is never met; and a rule with such an operator contributes no alert to
    what [evaluate] returns. *)
Theorem equality_is_approximate_unknown_never_met (value threshold : Q)
    (op : string) :
  (_check_condition value "==" threshold = true <->
   (Qabs (value - threshold) < 1 # 100)%Q) /\
  (known_operator op = false ->
   _check_condition value op threshold = false) /\
  (forall (self self' : Engine) (metric : string) (timestamp : option Z)
          (current_time : Z) (alerts : list Alert) (rid : string)
          (rule : AlertRule),
     NoDup (rules self).*1 ->
     (rid, rule) ∈ rules self ->
     known_operator (operator (condition rule)) = false ->
     evaluate self metric value timestamp current_time
       = (self', Return alerts) ->
     forall a, a ∈ alerts -> rule_id a <> rid).
Proof.
  split; [|split].
  - unfold _check_condition. simpl. apply Qlt_bool_iff.
  - apply check_condition_unknown.
  - intros self self' metric timestamp current_time alerts rid rule
      Hnd Hin Hunknown Hev a Ha Heq.
    unfold evaluate in Hev.
    apply evaluate_loop_alerts in Hev as (fired & -> & Hfired).
    destruct (Hfired a Ha) as (rule0 & Hin0 & _ & _ & Hmet & _).
    rewrite Heq in Hin0.
    rewrite (NoDup_fst_unique _ _ _ _ Hnd Hin0 Hin) in Hmet.
    by rewrite check_condition_unknown in Hmet.
Qed.

(** C9, as the code has it.  Every alert returned by [evaluate] belongs to
    a rule of the engine and carries that rule's threshold and the
    evaluated value.  When the threshold is positive its severity follows
    the relative deviation |value - threshold| / threshold: above 50%
    critical, above 20% high, above 10% medium, otherwise low.  When the
    threshold is zero or negative the severity is low. *)
Theorem severity_follows_deviation_for_positive_threshold
    (self self' : Engine) (metric : string) (value : Q)
    (timestamp : option Z) (current_time : Z) (alerts : list Alert) :
  evaluate self metric value timestamp current_time
    = (self', Return alerts) ->
  forall a, a ∈ alerts ->
    current_value a = value /\
    (exists rule,
       (rule_id a, rule) ∈ rules self /\
       alert_threshold a = threshold (condition rule)) /\
    ((0 < alert_threshold a)%Q ->
     severity_follows (relative_deviation value (alert_threshold a))
       (severity a)) /\
    (~ (0 < alert_threshold a)%Q -> severity a = "low").
Proof.
  intros Hev a Ha. unfold evaluate in Hev.
  apply evaluate_loop_alerts in Hev as (fired & -> & Hfired).
  destruct (Hfired a Ha) as (rule & Hin & _ & _ & _ & Ha_eq).
  rewrite Ha_eq. simpl. split; [done|]. split; [by exists rule|]. split.
  - intros Hpos. unfold _calculate_severity.
    rewrite deviation_positive_threshold by done.
    apply severity_of_deviation_follows.
  - intros Hnpos. unfold _calculate_severity.
    by rewrite deviation_other_threshold.
Qed.

(** C9 on the price engine: a price of 160 against the threshold 100 is a
    deviation of 60%, so the alert is critical. *)
Lemma severity_follows_deviation_for_positive_threshold_witness :
  (evaluate Scenarios.price_engine "price" 160 None 0).2 =
    Return [make_alert "price-high" Scenarios.price_rule "price" 160 None 0]
  /\
  severity_follows (relative_deviation 160 100)
    (severity (make_alert "price-high" Scenarios.price_rule "price" 160
                 None 0)).
Proof.
  split; [reflexivity|].
  destruct (severity_follows_deviation_for_positive_threshold
              Scenarios.price_engine
              (evaluate Scenarios.price_engine "price" 160 None 0).1
              "price" 160 None 0
              [make_alert "price-high" Scenarios.price_rule "price" 160
                 None 0]
              ltac:(reflexivity)
              (make_alert "price-high" Scenarios.price_rule "price" 160
                 None 0)
              ltac:(left))
    as (_ & _ & Hpos & _).
  apply Hpos. reflexivity.
Defined.

(** C9 as stated fails for a negative threshold: a pnl of -100 against the
    threshold -10 is a relative deviation of 900%, and the alert that fires
    has severity low. *)
Lemma severity_low_on_negative_threshold :
  exists a,
    (evaluate Scenarios.drawdown_engine "pnl" (-100) None 0).2 = Return [a] /\
    current_value a = (-100)%Q /\
    alert_threshold a = (-10)%Q /\
    severity a = "low" /\
    (relative_deviation (current_value a) (alert_threshold a) == 9)%Q /\
    ~ severity_follows
        (relative_deviation (current_value a) (alert_threshold a))
        (severity a).
Proof.
  exists (make_alert "drawdown" Scenarios.drawdown_rule "pnl" (-100) None 0).
  split; [reflexivity|]. split; [reflexivity|]. split; [reflexivity|].
  split; [reflexivity|]. split; [reflexivity|].
  intros (Hcrit & _). discriminate Hcrit. reflexivity.
Qed.

(** On the price engine a price of 160 fires the ">" rule only; the rule
    spelt "!=" stays silent. *)
Example misspelt_operator_run :
  map rule_id
    (match (evaluate Scenarios.price_engine "price" 160 None 0).2 with
     | Return alerts => alerts
     | Raise _ => []
     end) = ["price-high"] /\
  _check_condition (100 + (1 # 200)) "==" 100 = true /\
  _check_condition (100 + (1 # 100)) "==" 100 = false /\
  well_formed Scenarios.price_engine.
Proof.
  split; [reflexivity|]. split; [reflexivity|]. split; [reflexivity|].
  do 2 apply add_rule_well_formed. apply new_engine_well_formed.
Qed.

End AlertFacts.

(** ** The conversation context *)

Section ContextFacts.
Import PyDict ContextManager.

Lemma count_entities_fold (history : list QueryEntry)
    (acc : list (string * Z) * list (string * Entity)) :
  foldl (fun acc query_entry =>
           foldl count_entity acc (default [] (entities query_entry)))
    acc history
  = foldl count_entity acc (all_entities history).
Proof.
  revert acc. induction history as [|q history IH]; intros acc; [done|].
  unfold all_entities. simpl. by rewrite foldl_app, IH.
Qed.

(** What the two dicts hold after counting a list of entities: for every
    key, the number of entities with it (if any), and the last of them. *)
Lemma count_entity_dicts (es : list Entity) :
  NoDup (foldl count_entity ([], []) es).1.*1 /\
  (forall k,
     dict_get k (foldl count_entity ([], []) es).1 =
       match filter (fun e => entity_key e = k) es with
       | [] => None
       | same => Some (Z.of_nat (length same))
       end) /\
  (forall k,
     dict_get k (foldl count_entity ([], []) es).2 =
       last (filter (fun e => entity_key e = k) es)).
Proof.
  induction es as [|e es IH] using rev_ind.
  - simpl. split; [constructor | by split].
  - rewrite foldl_snoc.
    destruct (foldl count_entity ([], []) es) as [counts data].
    destruct IH as (Hnd & Hcounts & Hdata). simpl in Hnd, Hcounts, Hdata.
    simpl. split; [by apply dict_set_NoDup|]. split.
    + intros k. rewrite filter_app, filter_cons, filter_nil.
      destruct (decide (entity_key e = k)) as [<-|Hne].
      * rewrite dict_get_set_eq, Hcounts.
        destruct (filter (fun e0 => entity_key e0 = entity_key e) es)
          as [|x same]; simpl; [done|].
        rewrite length_app. simpl. f_equal. lia.
      * rewrite dict_get_set_ne by done. by rewrite Hcounts, app_nil_r.
    + intros k. rewrite filter_app, filter_cons, filter_nil.
      destruct (decide (entity_key e = k)) as [<-|Hne].
      * by rewrite dict_get_set_eq, last_snoc.
      * rewrite dict_get_set_ne by done. by rewrite Hdata, app_nil_r.
Qed.

(** What [_extract_common_entities] returns: for each key listed at least
    twice over all the entries given, repeats inside one entry included,
    the last entity listed with that key. *)
Lemma common_entities_spec (history : list QueryEntry) (e : Entity) :
  e ∈ _extract_common_entities history <->
  (2 <= occurrences (entity_key e) history)%nat /\
  last (filter (fun e' => entity_key e' = entity_key e)
          (all_entities history)) = Some e.
Proof.
  unfold _extract_common_entities, count_entities, occurrences.
  rewrite count_entities_fold.
  destruct (count_entity_dicts (all_entities history))
    as (Hnd & Hcounts & Hdata).
  destruct (foldl count_entity ([], []) (all_entities history))
    as [counts data].
  simpl in Hnd, Hcounts, Hdata.
  rewrite list_elem_of_omap. split.
  - intros ([k c] & Hin & Hsel).
    destruct (1 <? c) eqn:Hc; [|done]. apply Z.ltb_lt in Hc.
    rewrite Hdata in Hsel.
    assert (entity_key e = k) as Hk.
    { apply last_Some_elem_of in Hsel.
      by apply list_elem_of_filter in Hsel as [? _]. }
    subst k. split; [|done].
    apply (elem_of_dict_get _ _ _ Hnd) in Hin. rewrite Hcounts in Hin.
    destruct (filter (fun e0 => entity_key e0 = entity_key e)
                (all_entities history)) as [|x same]; [done|].
    injection Hin as <-. simpl. lia.
  - intros [Hocc Hlast].
    exists (entity_key e,
            Z.of_nat (length (filter (fun e0 => entity_key e0 = entity_key e)
                                (all_entities history)))).
    split.
    + apply dict_get_elem_of. rewrite Hcounts.
      destruct (filter (fun e0 => entity_key e0 = entity_key e)
                  (all_entities history)) as [|x same]; [|done].
      simpl in Hocc. lia.
    + rewrite (proj2 (Z.ltb_lt _ _)) by lia. by rewrite Hdata.
Qed.

(** The metric context has no repeats and holds exactly the metrics of
    the entries given. *)
Lemma add_metrics_spec (ms acc : list string) :
  NoDup acc ->
  NoDup (foldl add_metric acc ms) /\
  forall m, m ∈ foldl add_metric acc ms <-> m ∈ acc \/ m ∈ ms.
Proof.
  revert acc. induction ms as [|m0 ms IH]; intros acc Hnd; simpl.
  - split; [done|]. intros m. rewrite elem_of_nil. tauto.
  - assert (NoDup (add_metric acc m0) /\
            forall m, m ∈ add_metric acc m0 <-> m ∈ acc \/ m = m0)
      as [Hnd' Hin'].
    { unfold add_metric. destruct (bool_decide (m0 ∈ acc)) eqn:Hb.
      - apply bool_decide_eq_true in Hb. split; [done|].
        intros m. split; [by left|]. by intros [?| ->].
      - apply bool_decide_eq_false in Hb. split.
        + apply NoDup_app. split; [done|]. split; [|apply NoDup_singleton].
          intros x Hx [->|H]%elem_of_cons; [done|by apply elem_of_nil in H].
        + intros m. rewrite elem_of_app, list_elem_of_singleton. tauto. }
    destruct (IH _ Hnd') as [Hnd'' Hin'']. split; [done|].
    intros m. rewrite Hin'', Hin', elem_of_cons. tauto.
Qed.

Lemma metric_context_spec (history : list QueryEntry) :
  NoDup (_extract_metric_context history) /\
  forall m,
    m ∈ _extract_metric_context history <->
    exists q, q ∈ history /\ m ∈ query_metrics q.
Proof.
  unfold _extract_metric_context.
  assert (forall (qs : list QueryEntry) (acc : list string),
            NoDup acc ->
            NoDup (foldl (fun metrics q =>
                            foldl add_metric metrics (query_metrics q))
                     acc qs) /\
            forall m,
              m ∈ foldl (fun metrics q =>
                           foldl add_metric metrics (query_metrics q))
                    acc qs <->
              m ∈ acc \/ exists q, q ∈ qs /\ m ∈ query_metrics q) as Hgen.
  { induction qs as [|q qs IH]; intros acc Hnd; simpl.
    - split; [done|]. intros m. split; [by left|].
      intros [?|(q & Hq & _)]; [done | by apply elem_of_nil in Hq].
    - destruct (add_metrics_spec (query_metrics q) acc Hnd) as [Hnd' Hin'].
      destruct (IH _ Hnd') as [Hnd'' Hin'']. split; [done|].
      intros m. rewrite Hin'', Hin'. split.
      + intros [[?|?]|(q' & Hq' & Hm)]; [by left| |].
        * right. exists q. split; [by left | done].
        * right. exists q'. split; [by right | done].
      + intros [?|(q' & [->|Hq']%elem_of_cons & Hm)].
        * by left; left.
        * by left; right.
        * right. by exists q'. }
  destruct (Hgen (reverse history) [] ltac:(constructor)) as [Hnd Hin].
  split; [done|]. intros m. rewrite Hin. split.
  - intros [H|(q & Hq & Hm)]; [by apply elem_of_nil in H|].
    exists q. by rewrite elem_of_reverse in Hq.
  - intros (q & Hq & Hm). right. exists q. by rewrite elem_of_reverse.
Qed.

(** The time-range context is the time range of the most recent entry
    that has a non-empty one. *)
Lemma time_range_context_latest (history : list QueryEntry) (q : QueryEntry)
    (tr : TimeRange) :
  intent q ≫= time_range = Some tr ->
  time_range_truthy tr = true ->
  _extract_time_range_context (history ++ [q]) = Some tr.
Proof.
  intros Hq Htr. unfold _extract_time_range_context.
  rewrite reverse_snoc. simpl. by rewrite Hq, Htr.
Qed.

Lemma time_range_context_skip (history : list QueryEntry) (q : QueryEntry) :
  (forall tr, intent q ≫= time_range = Some tr ->
              time_range_truthy tr = false) ->
  _extract_time_range_context (history ++ [q])
  = _extract_time_range_context history.
Proof.
  intros Hq. unfold _extract_time_range_context.
  rewrite reverse_snoc. simpl.
  destruct (intent q ≫= time_range) as [tr|]; [|done].
  by rewrite (Hq tr eq_refl).
Qed.

(** For a session with a non-empty stored history the result is built
    from the last entry and the last three entries. *)
Lemma extract_context_fields (self : ContextManager) (session_id : string)
    (current_query : string) (context : SessionContext)
    (history : list QueryEntry) :
  get_context self session_id = Some context ->
  query_history context = Some history ->
  history <> [] ->
  is_Some (last history) /\
  extract_context_for_query self session_id current_query =
    Some {| last_query := last history;
            recent_entities := _extract_common_entities (last_n 3 history);
            time_range_context :=
              _extract_time_range_context (last_n 3 history);
            metric_context := _extract_metric_context (last_n 3 history);
            query_count := length history |}.
Proof.
  intros Hctx Hhist Hne. split.
  - destruct history as [|q history] using rev_ind; [done|].
    rewrite last_snoc. by eexists.
  - unfold extract_context_for_query. rewrite Hctx.
    unfold context_truthy. rewrite Hhist.
    by destruct (ContextManager.session_id context), (created_at context).
Qed.

(** C8 at a session whose only query lists BTC twice: the entity is
    returned as a recent entity although it appears in one entry only;
    the last query and the metric list are as described. *)
Theorem repeated_entity_of_one_entry_is_common :
  extract_context_for_query Scenarios.context_manager "s1" "and ETH?" =
    Some {| last_query := Some Scenarios.compare_btc;
            recent_entities := [Scenarios.btc_futures];
            time_range_context := None;
            metric_context := ["price"];
            query_count := 1 |} /\
  last_n 3 [Scenarios.compare_btc] = [Scenarios.compare_btc] /\
  entries_mentioning (entity_key Scenarios.btc_futures)
    (last_n 3 [Scenarios.compare_btc]) = 1%nat /\
  occurrences (entity_key Scenarios.btc_futures)
    (last_n 3 [Scenarios.compare_btc]) = 2%nat.
Proof. vm_compute. done. Qed.

End ContextFacts.

(** ** Retry: outcomes of a run *)

Section RetryOutcomes.
Import PyNum Errors PyFloat Resilience.

Section Wrapped.
Context {T : Type}.
Variable func : Z -> Result T.
Variable rnd : Z -> Q.
Variable config : RetryConfig.

Lemma retry_loop_ends_run (a : Z) (rest : list Z)
    (last_exception : option Exception) :
  ends_run config (func a) ->
  retry_loop func rnd config (a :: rest) last_exception
  = ([Invoke a], func a).
Proof.
  intros Hend. cbn [retry_loop]. destruct (func a) as [v|e]; [done|].
  destruct Hend as [-> | Hnr]; [done|].
  rewrite Hnr. by destruct (retryable_exceptions config e).
Qed.

Lemma retry_loop_first_ending (k : nat) :
  forall (a : Z) (n : Z) (last_exception : option Exception),
    a + n = max_attempts config ->
    Z.of_nat k < n ->
    (forall i, a <= i < a + Z.of_nat k -> retried config (func i)) ->
    (forall i, a <= i < a + Z.of_nat k -> can_sleep rnd config i) ->
    ends_run config (func (a + Z.of_nat k)) ->
    (retry_loop func rnd config (seqZ a n) last_exception).2
      = func (a + Z.of_nat k) /\
    invocations (retry_loop func rnd config (seqZ a n) last_exception).1
      = S k /\
    Return
      <$> sleeps (retry_loop func rnd config (seqZ a n) last_exception).1
      = (fun i => get_delay config i (rnd i)) <$> seqZ a (Z.of_nat k).
Proof.
  induction k as [|k IH]; intros a n last_exception Hsum Hlt Hretry Hdelay Hend.
  - rewrite Z.add_0_r in *. rewrite seqZ_cons by lia.
    by rewrite retry_loop_ends_run.
  - rewrite (seqZ_cons a n) by lia. cbn [retry_loop].
    destruct (Hretry a ltac:(lia)) as (e & Hfa & Hcaught & Hretryable).
    rewrite Hfa, Hcaught, Hretryable.
    rewrite (proj2 (Z.ltb_lt a (max_attempts config - 1))) by lia.
    destruct (Hdelay a ltac:(lia)) as (delay & Hget & Hsleep).
    rewrite Hget, Hsleep.
    destruct (IH (Z.succ a) (Z.pred n) (Some e) ltac:(lia) ltac:(lia))
      as (IH1 & IH2 & IH3).
    + intros i Hi. apply Hretry. lia.
    + intros i Hi. apply Hdelay. lia.
    + by replace (Z.succ a + Z.of_nat k) with (a + Z.of_nat (S k)) by lia.
    + destruct (retry_loop func rnd config (seqZ (Z.succ a) (Z.pred n))
                  (Some e)) as [tr r].
      cbn [fst snd] in *. split; [|split].
      * rewrite IH1. f_equal. lia.
      * by rewrite invocations_invoke, invocations_sleep, IH2.
      * rewrite sleeps_invoke, sleeps_sleep, fmap_cons, IH3.
        rewrite (seqZ_cons a (Z.of_nat (S k))) by lia.
        rewrite fmap_cons, Hget. do 3 f_equal. lia.
Qed.

(** X1.  A retry-wrapped call ends at the first attempt whose outcome is a
    value, an exception outside [retryable_exceptions] or a non-retryable
    domain error: when the attempts before attempt [k] all raise errors
    that are retried, and after each of them the delay is computed and
    accepted by [time.sleep] (which excludes an EXPONENTIAL run of more
    than 1024 retried attempts, a negative delay, and one too long to
    sleep), the caller gets the outcome of attempt [k], the function has
    been invoked [k + 1] times, and the sleeps are the delays of attempts
    [0 .. k-1]. *)
Theorem retry_ends_at_first_final_outcome (k : nat) :
  Z.of_nat k < max_attempts config ->
  (forall i, 0 <= i < Z.of_nat k -> retried config (func i)) ->
  (forall i, 0 <= i < Z.of_nat k -> can_sleep rnd config i) ->
  ends_run config (func (Z.of_nat k)) ->
  (sync_wrapper func rnd config).2 = func (Z.of_nat k) /\
  invocations (sync_wrapper func rnd config).1 = S k /\
  Return <$> sleeps (sync_wrapper func rnd config).1
    = (fun i => get_delay config i (rnd i)) <$> seqZ 0 (Z.of_nat k).
Proof.
  intros Hlt Hretry Hdelay Hend. unfold sync_wrapper, range.
  apply (retry_loop_first_ending k 0 (max_attempts config) None);
    try done; lia.
Qed.

Lemma retry_loop_all_retried (n : nat) :
  forall (a : Z) (last_exception : option Exception),
    a + Z.of_nat n = max_attempts config ->
    (forall i, a <= i < max_attempts config -> retried config (func i)) ->
    (forall i, a <= i < max_attempts config - 1 -> can_sleep rnd config i) ->
    (retry_loop func rnd config (seqZ a (Z.of_nat n)) last_exception).2
      = match n with
        | O =>
            match last_exception with
            | Some e => Raise e
            | None => Raise (EOther "TypeError"
                               "exceptions must derive from BaseException")
            end
        | S _ => func (max_attempts config - 1)
        end /\
    invocations
      (retry_loop func rnd config (seqZ a (Z.of_nat n)) last_exception).1
      = n /\
    length
      (sleeps
         (retry_loop func rnd config (seqZ a (Z.of_nat n)) last_exception).1)
      = (n - 1)%nat.
Proof.
  induction n as [|n IH]; intros a last_exception Hsum Hretry Hdelay.
  - rewrite seqZ_nil by lia. cbn [retry_loop]. by destruct last_exception.
  - rewrite seqZ_cons by lia.
    replace (Z.pred (Z.of_nat (S n))) with (Z.of_nat n) by lia.
    cbn [retry_loop].
    destruct (Hretry a ltac:(lia)) as (e & Hfa & Hcaught & Hretryable).
    rewrite Hfa, Hcaught, Hretryable.
    destruct (IH (Z.succ a) (Some e) ltac:(lia)) as (IH1 & IH2 & IH3).
    { intros i Hi. apply Hretry. lia. }
    { intros i Hi. apply Hdelay. lia. }
    destruct (retry_loop func rnd config (seqZ (Z.succ a) (Z.of_nat n))
                (Some e)) as [tr r].
    cbn [fst snd] in IH1, IH2, IH3.
    destruct (a <? max_attempts config - 1) eqn:Hlast.
    + apply Z.ltb_lt in Hlast.
      destruct (Hdelay a ltac:(lia)) as (delay & -> & ->). cbn [fst snd].
      rewrite invocations_invoke, invocations_sleep, sleeps_invoke,
        sleeps_sleep, IH2. cbn [length]. rewrite IH3.
      destruct n as [|n]; [lia|]. split; [done|]. split; [done|lia].
    + apply Z.ltb_ge in Hlast. assert (n = 0)%nat as -> by lia.
      cbn [fst snd]. rewrite invocations_invoke, sleeps_invoke, IH1, IH2, IH3.
      split; [|done]. rewrite <- Hfa. f_equal. lia.
Qed.

(** X2.  When every one of the [max_attempts >= 1] attempts raises an
    error that is retried, and after each but the last the delay is
    computed and accepted by [time.sleep] (for EXPONENTIAL this needs
    [max_attempts <= 1025]), the function is invoked exactly
    [max_attempts] times with [max_attempts - 1] sleeps, and the caller
    gets the error of the last attempt. *)
Theorem retry_exhausted_raises_last_error :
  0 < max_attempts config ->
  (forall i, 0 <= i < max_attempts config -> retried config (func i)) ->
  (forall i, 0 <= i < max_attempts config - 1 -> can_sleep rnd config i) ->
  (sync_wrapper func rnd config).2 = func (max_attempts config - 1) /\
  Z.of_nat (invocations (sync_wrapper func rnd config).1)
    = max_attempts config /\
  Z.of_nat (length (sleeps (sync_wrapper func rnd config).1))
    = max_attempts config - 1.
Proof.
  intros Hpos Hretry Hdelay. unfold sync_wrapper, range.
  destruct (retry_loop_all_retried (Z.to_nat (max_attempts config)) 0 None
              ltac:(lia) Hretry Hdelay) as (H1 & H2 & H3).
  rewrite Z2Nat.id in H1, H2, H3 by lia.
  rewrite H1, H2, H3.
  destruct (Z.to_nat (max_attempts config)) eqn:Hn; [lia|].
  split; [done|]. lia.
Qed.

(** X3.  With [max_attempts <= 0] the loop body never runs: the wrapped
    function is not invoked, nothing is slept, and [raise last_exception]
    with [last_exception = None] gives the caller a [TypeError]. *)
Theorem retry_without_attempts_raises_type_error :
  max_attempts config <= 0 ->
  sync_wrapper func rnd config
  = ([], Raise (EOther "TypeError"
                  "exceptions must derive from BaseException")) /\
  forall i, Invoke i ∉ (sync_wrapper func rnd config).1.
Proof.
  intros Hle. unfold sync_wrapper, range. rewrite seqZ_nil by done.
  split; [done|]. intros i Hi. by apply elem_of_nil in Hi.
Qed.

(** A run also ends where the delay cannot be computed or slept: the
    exception of [get_delay] or [time.sleep] takes the place of the
    outcome of the wrapped function. *)
Lemma retry_loop_sleep_raises (k : nat) (e' : Exception) :
  forall (a : Z) (n : Z) (last_exception : option Exception),
    a + n = max_attempts config ->
    Z.of_nat k < n - 1 ->
    (forall i, a <= i <= a + Z.of_nat k -> retried config (func i)) ->
    (forall i, a <= i < a + Z.of_nat k -> can_sleep rnd config i) ->
    sleep_raises rnd config (a + Z.of_nat k) e' ->
    (retry_loop func rnd config (seqZ a n) last_exception).2 = Raise e' /\
    invocations (retry_loop func rnd config (seqZ a n) last_exception).1
      = S k /\
    length (sleeps (retry_loop func rnd config (seqZ a n) last_exception).1)
      = k.
Proof.
  induction k as [|k IH]; intros a n last_exception Hsum Hlt Hretry Hdelay Hend.
  - rewrite Z.add_0_r in *. rewrite seqZ_cons by lia. cbn [retry_loop].
    destruct (Hretry a ltac:(lia)) as (e & Hfa & Hcaught & Hretryable).
    rewrite Hfa, Hcaught, Hretryable.
    rewrite (proj2 (Z.ltb_lt a (max_attempts config - 1))) by lia.
    destruct Hend as [->|(delay & -> & ->)]; done.
  - rewrite (seqZ_cons a n) by lia. cbn [retry_loop].
    destruct (Hretry a ltac:(lia)) as (e & Hfa & Hcaught & Hretryable).
    rewrite Hfa, Hcaught, Hretryable.
    rewrite (proj2 (Z.ltb_lt a (max_attempts config - 1))) by lia.
    destruct (Hdelay a ltac:(lia)) as (delay & -> & ->).
    destruct (IH (Z.succ a) (Z.pred n) (Some e) ltac:(lia) ltac:(lia))
      as (IH1 & IH2 & IH3).
    + intros i Hi. apply Hretry. lia.
    + intros i Hi. apply Hdelay. lia.
    + by replace (Z.succ a + Z.of_nat k) with (a + Z.of_nat (S k)) by lia.
    + destruct (retry_loop func rnd config (seqZ (Z.succ a) (Z.pred n))
                  (Some e)) as [tr r].
      cbn [fst snd] in *. split; [done|]. split.
      * by rewrite invocations_invoke, invocations_sleep, IH2.
      * rewrite sleeps_invoke, sleeps_sleep. cbn [length]. by rewrite IH3.
Qed.

(** With EXPONENTIAL and more than 1025 attempts allowed, a function that
    keeps raising retried errors is invoked 1025 times: the delay after
    attempt 1024 cannot be computed, and the caller gets the
    [OverflowError]. *)
Lemma retry_overflows_after_1025_attempts :
  strategy config = EXPONENTIAL ->
  1025 < max_attempts config ->
  (forall i, 0 <= i <= 1024 -> retried config (func i)) ->
  (forall i, 0 <= i < 1024 -> can_sleep rnd config i) ->
  (sync_wrapper func rnd config).2
  = Raise (EOther "OverflowError" "int too large to convert to float") /\
  invocations (sync_wrapper func rnd config).1 = 1025%nat /\
  length (sleeps (sync_wrapper func rnd config).1) = 1024%nat.
Proof.
  intros Hstrategy Hmax Hretry Hdelay. unfold sync_wrapper, range.
  apply (retry_loop_sleep_raises 1024 _ 0 (max_attempts config) None);
    [lia | lia | intros i Hi; apply Hretry; lia
    | intros i Hi; apply Hdelay; lia |].
  left. unfold get_delay. rewrite Hstrategy.
  by apply exponential_backoff_overflow.
Qed.

End Wrapped.

(** X1 on the flaky callable: attempts 0 and 1 are retried, attempt 2
    returns. *)
Lemma retry_ends_at_first_final_outcome_witness :
  (2 < max_attempts Scenarios.plain_exponential /\
   ends_run Scenarios.plain_exponential (Scenarios.flaky 2)) /\
  (sync_wrapper Scenarios.flaky Scenarios.half Scenarios.plain_exponential).2
    = Return "ok" /\
  invocations
    (sync_wrapper Scenarios.flaky Scenarios.half
       Scenarios.plain_exponential).1 = 3%nat.
Proof.
  split; [split; [reflexivity | exact I]|].
  destruct (retry_ends_at_first_final_outcome Scenarios.flaky Scenarios.half
              Scenarios.plain_exponential 2) as (H1 & H2 & _).
  - reflexivity.
  - intros i Hi. exists (EOther "ConnectionError" "reset by peer").
    assert (i = 0 \/ i = 1) as [-> | ->] by lia; by repeat split.
  - intros i Hi.
    assert (i = 0 \/ i = 1) as [-> | ->] by lia; eexists; by split.
  - exact I.
  - split; [exact H1 | exact H2].
Defined.

(** X2 on the callable that is always down, with three attempts. *)
Lemma retry_exhausted_raises_last_error_witness :
  0 < max_attempts Scenarios.plain_exponential /\
  (sync_wrapper Scenarios.always_down Scenarios.half
     Scenarios.plain_exponential).2
    = Raise (EOther "ConnectionError" "connection refused") /\
  Z.of_nat
    (invocations
       (sync_wrapper Scenarios.always_down Scenarios.half
          Scenarios.plain_exponential).1) = 3.
Proof.
  split; [reflexivity|].
  destruct (retry_exhausted_raises_last_error Scenarios.always_down
              Scenarios.half Scenarios.plain_exponential) as (H1 & H2 & _).
  - reflexivity.
  - intros i Hi. exists (EOther "ConnectionError" "connection refused").
    by repeat split.
  - intros i Hi. simpl in Hi.
    assert (i = 0 \/ i = 1) as [-> | ->] by lia; eexists; by split.
  - split; [exact H1 | exact H2].
Defined.

(** X3 on a configuration with [max_attempts = 0]. *)
Lemma retry_without_attempts_raises_type_error_witness :
  max_attempts Scenarios.no_attempts <= 0 /\
  sync_wrapper Scenarios.flaky Scenarios.half Scenarios.no_attempts
  = ([], Raise (EOther "TypeError"
                  "exceptions must derive from BaseException")).
Proof.
  split; [simpl; lia|].
  apply (retry_without_attempts_raises_type_error Scenarios.flaky
           Scenarios.half Scenarios.no_attempts).
  simpl. lia.
Defined.

(** X4.  With a non-negative [max_delay] and a draw in [0, 1], a delay
    that [get_delay] returns is, for EXPONENTIAL, never negative and never
    above [max_delay] without jitter, but may reach [1.25 * max_delay]
    with jitter; for LINEAR it never exceeds [max_delay]; for CONSTANT it
    is [base_delay] whatever [max_delay] is.  [get_delay] raises only an
    [OverflowError], and only where the attempt number does not fit a
    float: from attempt 1024 on for EXPONENTIAL ([2 ** attempt]), and
    for LINEAR at attempt numbers no loop reaches. *)
Theorem delay_caps (config : RetryConfig) (attempt : Z) (rnd : Q) :
  (0 <= max_delay config)%Q ->
  (0 <= rnd)%Q -> (rnd <= 1)%Q ->
  match get_delay config attempt rnd with
  | Return d =>
      match strategy config with
      | EXPONENTIAL =>
          attempt < 1024 /\
          (0 <= d)%Q /\
          (d <= if jitter config then (5 # 4) * max_delay config
                else max_delay config)%Q
      | LINEAR => (d <= max_delay config)%Q
      | CONSTANT => d = base_delay config
      end
  | Raise e =>
      e = EOther "OverflowError" "int too large to convert to float" /\
      match strategy config with
      | EXPONENTIAL => 1024 <= attempt
      | LINEAR => float_overflow <= Z.abs (attempt + 1)
      | CONSTANT => False
      end
  end.
Proof.
  intros Hmax Hr0 Hr1. unfold get_delay.
  destruct (strategy config); [| |done].
  2:{ unfold linear_backoff, float_of_int.
      destruct (Z.abs (attempt + 1) <? float_overflow) eqn:Hfit.
      - apply Q.le_min_r.
      - apply Z.ltb_ge in Hfit. by split. }
  destruct (exponential_backoff attempt (base_delay config)
              (max_delay config) (jitter config) rnd) as [d|e] eqn:Hd.
  2:{ unfold exponential_backoff, float_pow2 in Hd.
      destruct (1024 <=? attempt) eqn:Hbig; [|done].
      apply Z.leb_le in Hbig. injection Hd as <-. by split. }
  split; [by apply exponential_backoff_returns in Hd as [? _]|].
  split; [by eapply exponential_backoff_nonneg|].
  apply exponential_backoff_returns in Hd as [_ ->]. unfold uniform.
  pose proof (Q.le_min_r (base_delay config * Qpower 2 attempt)
                (max_delay config)) as HD.
  set (D := Qmin (base_delay config * Qpower 2 attempt) (max_delay config))
    in *.
  destruct (jitter config).
  - apply Q.max_lub; [lra|].
    destruct (Qlt_le_dec D 0) as [Hneg|Hpos].
    + assert (0 <= (- D) * rnd)%Q as H1
        by (apply Qmult_le_0_compat; lra).
      assert (0 <= (- D) * (1 - rnd))%Q as H2
        by (apply Qmult_le_0_compat; lra).
      ring_simplify in H1. ring_simplify in H2. ring_simplify. lra.
    + assert (0 <= D * rnd)%Q as H1 by (by apply Qmult_le_0_compat).
      assert (0 <= D * (1 - rnd))%Q as H2
        by (apply Qmult_le_0_compat; lra).
      ring_simplify in H2. ring_simplify. lra.
  - apply Q.max_lub; done.
Qed.

(** X4 on the scenario configuration, at attempt 20 (10 ms * 2^20 is far
    above the 60 s cap). *)
Lemma delay_caps_witness :
  (0 <= max_delay Scenarios.plain_exponential)%Q /\
  exists d,
    get_delay Scenarios.plain_exponential 20 (1 # 2) = Return d /\
    (d <= 60)%Q.
Proof.
  assert (0 <= max_delay Scenarios.plain_exponential)%Q as H
    by (vm_compute; discriminate).
  split; [exact H|].
  pose proof (delay_caps Scenarios.plain_exponential 20 (1 # 2) H
                ltac:(vm_compute; discriminate)
                ltac:(vm_compute; discriminate)) as Hcaps.
  destruct (get_delay Scenarios.plain_exponential 20 (1 # 2)) as [d|e].
  - exists d. split; [reflexivity|]. exact (proj2 (proj2 Hcaps)).
  - destruct Hcaps as [_ Hbig]. simpl in Hbig. lia.
Defined.

(** X5.  Without jitter and with a non-negative base delay the
    exponential delay never decreases from one attempt to a later one:
    when the delay of the later attempt is returned, so is that of the
    earlier one, and it is not larger. *)
Theorem exponential_backoff_monotone (attempt attempt' : Z)
    (base_delay max_delay : Q) (rnd rnd' d' : Q) :
  attempt <= attempt' ->
  (0 <= base_delay)%Q ->
  exponential_backoff attempt' base_delay max_delay false rnd' = Return d' ->
  exists d,
    exponential_backoff attempt base_delay max_delay false rnd = Return d /\
    (d <= d')%Q.
Proof.
  intros Hle Hbase Hd'.
  apply exponential_backoff_returns in Hd' as [Hlt ->].
  destruct (exponential_backoff_below attempt base_delay max_delay false rnd
              ltac:(lia)) as [d Hd].
  exists d. split; [done|].
  apply exponential_backoff_returns in Hd as [_ ->].
  apply Q.max_le_compat_l. apply Q.min_le_compat_r.
  rewrite !(Qmult_comm base_delay).
  apply Qmult_le_compat_r; [|done].
  by apply Qpower_le_compat_l.
Qed.

Lemma exponential_backoff_monotone_witness :
  (3 <= 7 /\ (0 <= 1 # 100)%Q /\
   exponential_backoff 7 (1 # 100) 60 false 0
   = Return (Qmax 0 (Qmin ((1 # 100) * Qpower 2 7) 60))) /\
  exists d,
    exponential_backoff 3 (1 # 100) 60 false 0 = Return d /\
    (d <= Qmax 0 (Qmin ((1 # 100) * Qpower 2 7) 60))%Q.
Proof.
  assert (0 <= 1 # 100)%Q as Hbase by (vm_compute; discriminate).
  split; [split; [lia | split; [exact Hbase | reflexivity]]|].
  exact (exponential_backoff_monotone 3 7 (1 # 100) 60 0 0 _
           ltac:(lia) Hbase eq_refl).
Defined.

End RetryOutcomes.

(** ** Circuit breaker: runs of calls *)

Section BreakerRuns.
Import Errors Resilience.

Lemma call_event_closed {T} (cb : CircuitBreaker) (ev : CallEvent T) :
  _state cb = CLOSED ->
  call_event cb ev =
    match ev_func ev with
    | Return v => mkCallOutcome (_on_success cb) true (Return v)
    | Raise e =>
        if expected_exception cb e then
          mkCallOutcome (_on_failure cb (ev_now_fail ev)) true (Raise e)
        else mkCallOutcome cb true (Raise e)
    end.
Proof.
  intros Hst. unfold call_event, call, attempt_reset, _should_attempt_reset.
  rewrite Hst. simpl. by rewrite Hst.
Qed.

Lemma call_event_invariant {T} (cb : CircuitBreaker) (ev : CallEvent T) :
  breaker_invariant cb -> breaker_invariant (breaker (call_event cb ev)).
Proof.
  intros (Hthr & Hcount & Hstate). unfold breaker_invariant.
  unfold call_event, call, attempt_reset, _should_attempt_reset.
  destruct (_state cb) eqn:Hst; simpl.
  - rewrite Hst. simpl. destruct (ev_func ev) as [v|e]; simpl.
    + unfold _on_success. rewrite Hst. simpl. rewrite Hst. lia.
    + destruct (expected_exception cb e); simpl.
      * unfold _on_failure. simpl. rewrite Hst. simpl.
        destruct (failure_threshold cb <=? _failure_count cb + 1) eqn:Hle;
          simpl; [split; [done|]; split; [lia | by eexists]|].
        apply Z.leb_gt in Hle. rewrite Hst. lia.
      * rewrite Hst. lia.
  - destruct (_last_failure_time cb) as [last|] eqn:Hlast;
      [|by destruct Hstate].
    destruct (recovery_timeout cb <=? ev_now ev - last); simpl.
    + destruct (ev_func ev) as [v|e]; simpl.
      * unfold _on_success. simpl. lia.
      * destruct (expected_exception cb e); simpl.
        -- unfold _on_failure. simpl. split; [done|]. split; [lia|].
           by eexists.
        -- lia.
    + rewrite Hst. simpl. rewrite Hst, Hlast. split; [done|].
      split; [done | by eexists].
  - rewrite Hst. simpl. destruct (ev_func ev) as [v|e]; simpl.
    + unfold _on_success. rewrite Hst. simpl.
      destruct (2 <=? _success_count cb + 1) eqn:Hle; simpl.
      * lia.
      * apply Z.leb_gt in Hle. rewrite Hst. lia.
    + destruct (expected_exception cb e); simpl.
      * unfold _on_failure. simpl. rewrite Hst. simpl.
        split; [done|]. split; [lia | by eexists].
      * rewrite Hst. lia.
Qed.

Lemma run_calls_invariant {T} (evs : list (CallEvent T)) :
  forall cb, breaker_invariant cb -> breaker_invariant (run_calls cb evs).1.
Proof.
  induction evs as [|ev evs IH]; intros cb Hinv; [done|].
  simpl. specialize (IH _ (call_event_invariant cb ev Hinv)).
  by destruct (run_calls (breaker (call_event cb ev)) evs).
Qed.

(** X6.  Whatever calls are made on a new breaker with a threshold of at
    least 1, and whatever the clock readings, the breaker afterwards has a
    non-negative failure count, is below its threshold when CLOSED, has a
    last-failure time when OPEN, and has counted at most one success when
    HALF_OPEN. *)
Theorem reachable_breaker_invariant {T} (failure_threshold : Z)
    (recovery_timeout : Z) (expected_exception : Exception -> bool)
    (name : option string) (evs : list (CallEvent T)) :
  1 <= failure_threshold ->
  breaker_invariant
    (run_calls
       (new_breaker failure_threshold recovery_timeout expected_exception
          name) evs).1.
Proof.
  intros Hthr. apply run_calls_invariant.
  unfold breaker_invariant. simpl. lia.
Qed.

Lemma reachable_breaker_invariant_witness :
  1 <= 3 /\
  breaker_invariant
    (run_calls (new_breaker 3 100000 Scenarios.any_exception None)
       Scenarios.service_calls).1.
Proof.
  split; [lia|]. apply reachable_breaker_invariant. lia.
Defined.

(** Consecutive counted failures on a closed breaker. *)
Lemma run_calls_counted_failures {T} (evs : list (CallEvent T)) :
  forall cb,
    _state cb = CLOSED ->
    Forall (counted_failure cb) evs ->
    _failure_count cb + Z.of_nat (length evs) <= failure_threshold cb ->
    _failure_count (run_calls cb evs).1
      = _failure_count cb + Z.of_nat (length evs) /\
    _state (run_calls cb evs).1 =
      (if (0 <? Z.of_nat (length evs)) &&
          (failure_threshold cb
             <=? _failure_count cb + Z.of_nat (length evs))
       then OPEN else CLOSED) /\
    Forall (fun o => invoked o = true) (run_calls cb evs).2.
Proof.
  induction evs as [|ev evs IH]; intros cb Hst Hall Hle.
  - simpl. rewrite Z.add_0_r. by rewrite Hst.
  - apply Forall_cons in Hall as [(e & Hf & Hexp) Hall].
    cbn [length] in Hle.
    assert (call_event cb ev =
              mkCallOutcome (_on_failure cb (ev_now_fail ev)) true (Raise e))
      as Hcall.
    { rewrite call_event_closed by done. by rewrite Hf, Hexp. }
    cbn [run_calls]. rewrite Hcall. cbn [breaker].
    destruct evs as [|ev' evs].
    + simpl. unfold _on_failure. simpl. rewrite Hst. simpl.
      change (Z.of_nat 1) with 1.
      destruct (failure_threshold cb <=? _failure_count cb + 1); simpl;
        rewrite ?Hst; repeat split; try done; by repeat constructor.
    + assert (_on_failure cb (ev_now_fail ev) =
                set_last_failure_time (Some (ev_now_fail ev))
                  (set_failure_count (_failure_count cb + 1) cb)) as Hfail.
      { unfold _on_failure. simpl. rewrite Hst. simpl.
        rewrite (proj2 (Z.leb_gt _ _)); [done|]. cbn [length] in Hle. lia. }
      rewrite Hfail.
      destruct (IH (set_last_failure_time (Some (ev_now_fail ev))
                      (set_failure_count (_failure_count cb + 1) cb)))
        as (IH1 & IH2 & IH3); [done|done| |].
      { unfold set_last_failure_time, set_failure_count.
        cbn [_failure_count failure_threshold length] in *. lia. }
      destruct (run_calls _ (ev' :: evs)) as [final outs].
      unfold set_last_failure_time, set_failure_count in IH1, IH2.
      cbn [fst snd _failure_count failure_threshold] in *.
      split; [rewrite IH1; cbn [length]; lia|]. split.
      * rewrite IH2.
        replace (_failure_count cb + 1 + Z.of_nat (length (ev' :: evs)))
          with (_failure_count cb + Z.of_nat (length (ev :: ev' :: evs)))
          by (cbn [length]; lia).
        cbn [length]. by rewrite !(proj2 (Z.ltb_lt 0 _)) by lia.
      * by constructor.
Qed.

(** X7.  On a new breaker with threshold [n >= 1], [k <= n] consecutive
    calls that raise a counted exception are all let through, leave the
    failure count at [k], and leave the breaker OPEN when [k = n] and
    CLOSED when [k < n]. *)
Theorem breaker_opens_at_threshold {T} (failure_threshold : Z)
    (recovery_timeout : Z) (expected_exception : Exception -> bool)
    (name : option string) (evs : list (CallEvent T)) :
  1 <= failure_threshold ->
  Forall (counted_failure
            (new_breaker failure_threshold recovery_timeout
               expected_exception name)) evs ->
  Z.of_nat (length evs) <= failure_threshold ->
  _failure_count
    (run_calls (new_breaker failure_threshold recovery_timeout
                  expected_exception name) evs).1
    = Z.of_nat (length evs) /\
  _state
    (run_calls (new_breaker failure_threshold recovery_timeout
                  expected_exception name) evs).1
    = (if Z.of_nat (length evs) =? failure_threshold then OPEN else CLOSED) /\
  Forall (fun o => invoked o = true)
    (run_calls (new_breaker failure_threshold recovery_timeout
                  expected_exception name) evs).2.
Proof.
  intros Hthr Hall Hle.
  destruct (run_calls_counted_failures evs
              (new_breaker failure_threshold recovery_timeout
                 expected_exception name) eq_refl Hall)
    as (H1 & H2 & H3); [simpl; lia|].
  simpl in H1, H2. split; [done|]. split; [|done].
  rewrite H2. destruct (Z.of_nat (length evs) =? failure_threshold) eqn:Heq.
  - apply Z.eqb_eq in Heq.
    by rewrite (proj2 (Z.ltb_lt _ _)), (proj2 (Z.leb_le _ _)) by lia.
  - apply Z.eqb_neq in Heq.
    rewrite (proj2 (Z.leb_gt _ _)) by lia. by rewrite andb_false_r.
Qed.

Lemma breaker_opens_at_threshold_witness :
  (1 <= 3 /\
   Forall (counted_failure
             (new_breaker 3 100000 Scenarios.any_exception None))
     Scenarios.two_failures /\
   Z.of_nat (length Scenarios.two_failures) <= 3) /\
  _state
    (run_calls (new_breaker 3 100000 Scenarios.any_exception None)
       Scenarios.two_failures).1 = CLOSED /\
  _failure_count
    (run_calls (new_breaker 3 100000 Scenarios.any_exception None)
       Scenarios.two_failures).1 = 2.
Proof.
  assert (Forall (counted_failure
                    (new_breaker 3 100000 Scenarios.any_exception None))
            Scenarios.two_failures) as Hall.
  { repeat constructor;
      by exists (EOther "ZeroDivisionError" "division by zero"). }
  split; [split; [lia | split; [exact Hall | simpl; lia]]|].
  destruct (breaker_opens_at_threshold 3 100000 Scenarios.any_exception None
              Scenarios.two_failures ltac:(lia) Hall ltac:(simpl; lia))
    as (H1 & H2 & _).
  split; [exact H2 | exact H1].
Defined.

(** X8.  [reset] forgets the past: whatever state the breaker was in and
    whatever the clock says, the next call is let through, and it again
    takes [failure_threshold] consecutive counted failures to open the
    breaker. *)
Theorem reset_starts_over {T} (cb : CircuitBreaker)
    (evs : list (CallEvent T)) :
  Forall (counted_failure cb) evs ->
  Z.of_nat (length evs) <= failure_threshold cb ->
  _failure_count (run_calls (reset cb) evs).1 = Z.of_nat (length evs) /\
  _state (run_calls (reset cb) evs).1 =
    (if (0 <? Z.of_nat (length evs)) &&
        (failure_threshold cb <=? Z.of_nat (length evs))
     then OPEN else CLOSED) /\
  Forall (fun o => invoked o = true) (run_calls (reset cb) evs).2.
Proof.
  intros Hall Hle.
  by destruct (run_calls_counted_failures evs (reset cb) eq_refl Hall Hle).
Qed.

Lemma reset_starts_over_witness :
  (_state Scenarios.tripped_breaker = OPEN /\
   Forall (counted_failure Scenarios.tripped_breaker)
     Scenarios.two_failures /\
   Z.of_nat (length Scenarios.two_failures)
     <= failure_threshold Scenarios.tripped_breaker) /\
  _state (run_calls (reset Scenarios.tripped_breaker)
            Scenarios.two_failures).1 = CLOSED /\
  Forall (fun o => invoked o = true)
    (run_calls (reset Scenarios.tripped_breaker) Scenarios.two_failures).2.
Proof.
  assert (Forall (counted_failure Scenarios.tripped_breaker)
            Scenarios.two_failures) as Hall.
  { repeat constructor;
      by exists (EOther "ZeroDivisionError" "division by zero"). }
  split; [split; [reflexivity | split; [exact Hall | simpl; lia]]|].
  destruct (reset_starts_over Scenarios.tripped_breaker
              Scenarios.two_failures Hall ltac:(simpl; lia))
    as (_ & H2 & H3).
  split; [exact H2 | exact H3].
Defined.

(** X9.  Calls that return, or raise an exception outside
    [expected_exception], never open a new breaker: every one of them is
    let through, the caller gets the function's own outcome, and the
    breaker stays CLOSED with a failure count of 0. *)
Theorem uncounted_outcomes_never_open {T} (failure_threshold : Z)
    (recovery_timeout : Z) (expected_exception : Exception -> bool)
    (name : option string) (evs : list (CallEvent T)) :
  Forall (not_counted
            (new_breaker failure_threshold recovery_timeout
               expected_exception name)) evs ->
  _state
    (run_calls (new_breaker failure_threshold recovery_timeout
                  expected_exception name) evs).1 = CLOSED /\
  _failure_count
    (run_calls (new_breaker failure_threshold recovery_timeout
                  expected_exception name) evs).1 = 0 /\
  map outcome
    (run_calls (new_breaker failure_threshold recovery_timeout
                  expected_exception name) evs).2
    = map ev_func evs /\
  Forall (fun o => invoked o = true)
    (run_calls (new_breaker failure_threshold recovery_timeout
                  expected_exception name) evs).2.
Proof.
  assert (forall cb : CircuitBreaker,
            _state cb = CLOSED -> _failure_count cb = 0 ->
            Forall (not_counted cb) evs ->
            _state (run_calls cb evs).1 = CLOSED /\
            _failure_count (run_calls cb evs).1 = 0 /\
            map outcome (run_calls cb evs).2 = map ev_func evs /\
            Forall (fun o => invoked o = true) (run_calls cb evs).2) as Hgen.
  { induction evs as [|ev evs IH]; intros cb Hst Hcount Hall; [done|].
    apply Forall_cons in Hall as [Hev Hall]. unfold not_counted in Hev.
    cbn [run_calls]. rewrite call_event_closed by done.
    destruct (ev_func ev) as [v|e] eqn:Hf.
    - cbn [breaker].
      assert (_on_success cb = set_failure_count 0 cb) as ->
        by (unfold _on_success; by rewrite Hst).
      destruct (IH (set_failure_count 0 cb)) as (I1 & I2 & I3 & I4);
        [done..|].
      destruct (run_calls (set_failure_count 0 cb) evs) as [final outs].
      cbn [fst snd map outcome] in *. rewrite Hf, I3.
      repeat split; try done. by constructor.
    - rewrite Hev. cbn [breaker].
      destruct (IH cb) as (I1 & I2 & I3 & I4); [done..|].
      destruct (run_calls cb evs) as [final outs].
      cbn [fst snd map outcome] in *. rewrite Hf, I3.
      repeat split; try done. by constructor. }
  intros Hall. by apply Hgen.
Qed.

Lemma uncounted_outcomes_never_open_witness :
  Forall (not_counted
            (new_breaker 1 100000 Scenarios.connection_errors_only
               (Some "picky"))) Scenarios.two_failures /\
  _state
    (run_calls (new_breaker 1 100000 Scenarios.connection_errors_only
                  (Some "picky")) Scenarios.two_failures).1 = CLOSED.
Proof.
  assert (Forall (not_counted
                    (new_breaker 1 100000 Scenarios.connection_errors_only
                       (Some "picky"))) Scenarios.two_failures) as Hall
    by (repeat constructor).
  split; [exact Hall|].
  exact (proj1 (uncounted_outcomes_never_open 1 100000
                  Scenarios.connection_errors_only (Some "picky")
                  Scenarios.two_failures Hall)).
Defined.

End BreakerRuns.

(** ** The agent: handler dispatch, events and the life of an entry *)

Section AgentRuns.
Import Errors Messaging.
Context {MessageClass ProtoMessage Body Any : Type}.

(** X10.  [publish_event] never publishes: the publisher is called with a
    keyword [headers] that [EventPublisher.publish] does not have, so every
    call raises a [TypeError] and leaves the agent as it was, whether or
    not a correlation id is given and whatever the broker would do. *)
Theorem publish_event_raises_type_error (self : @BaseAgent ProtoMessage Any)
    (message : ProtoMessage) (routing_key : string)
    (correlation_id : option string) (uuid4 : string)
    (publish_error : option Exception) :
  exists msg,
    publish_event self message routing_key correlation_id uuid4 publish_error
    = (self, Raise (EOther "TypeError" msg)).
Proof. by eexists. Qed.

(** X11.  [handle_message] invokes the handler once when tracing is not
    available, and never more than twice.  When tracing is available and
    the span starts, a handler that raises is invoked a second time, and
    [handle_message] gives its caller the outcome of that second
    invocation. *)
Theorem handle_message_reruns_failed_handler (tracing : TracingRun)
    (route_message : nat -> Result unit) :
  handle_message_routed false tracing route_message = (1%nat, route_message 0%nat)
  /\
  (forall available,
     (1 <= (handle_message_routed available tracing route_message).1 <= 2)%nat)
  /\
  (span_start tracing = None ->
   (exists e, route_message 0%nat = Raise e) ->
   handle_message_routed true tracing route_message
   = (2%nat, route_message 1%nat)).
Proof.
  split; [done|]. split.
  - intros available. unfold handle_message_routed.
    destruct available; simpl; [|lia].
    destruct (span_start tracing); simpl; [lia|].
    destruct (route_message 0%nat); simpl; [|lia].
    destruct (span_processed tracing), (span_exit tracing); simpl; lia.
  - intros Hstart [e He]. unfold handle_message_routed.
    by rewrite Hstart, He.
Qed.

(** X12.  On a channel that accepts the ack and the nack of the
    delivery, a delivery whose handler raises on its first invocation and
    returns on its second is acknowledged when tracing is available and
    the span starts, and is rejected with requeue=false when tracing is
    not available. *)
Theorem traced_delivery_acked_after_rerun
    (deserialize_message : Body -> MessageClass -> Result ProtoMessage)
    (get_routing_key_map : gmap string MessageClass)
    (route_message : ProtoMessage -> MsgProperties -> nat -> Result unit)
    (channel_error : ChannelOp -> option Exception)
    (tracing : TracingRun) (method : Deliver) (properties : BasicProperties)
    (body : Body) (message_class : MessageClass) (message : ProtoMessage)
    (e : Exception) :
  get_routing_key_map !! routing_key method = Some message_class ->
  deserialize_message body message_class = Return message ->
  span_start tracing = None ->
  route_message message (msg_properties_of method properties) 0%nat
    = Raise e ->
  route_message message (msg_properties_of method properties) 1%nat
    = Return tt ->
  channel_error (basic_ack (delivery_tag method)) = None ->
  channel_error (basic_nack (delivery_tag method) false) = None ->
  _on_message deserialize_message get_routing_key_map
    (fun m p => (handle_message_routed true tracing (route_message m p)).2)
    channel_error method properties body
  = ([basic_ack (delivery_tag method)], Return tt) /\
  _on_message deserialize_message get_routing_key_map
    (fun m p => (handle_message_routed false tracing (route_message m p)).2)
    channel_error method properties body
  = ([basic_nack (delivery_tag method) false], Return tt).
Proof.
  intros Hclass Hparse Hstart Hfirst Hsecond Hack Hnack.
  unfold _on_message, _on_message_try, _on_message_steps, channel_call,
    get_message_class.
  rewrite Hclass. simpl. rewrite Hparse. simpl.
  unfold handle_message_routed. rewrite Hstart, Hfirst. simpl.
  by rewrite Hsecond, Hack, Hnack.
Qed.

(** X13.  A request whose publish fails raises to its caller and sends
    nothing, but its correlation entry has already been stored and stays
    in the map. *)
Theorem failed_request_leaves_entry (self : @BaseAgent ProtoMessage Any)
    (message : ProtoMessage) (routing_key reply_routing_key : string)
    (context : option (gmap string Any)) (uuid4 : string) (now_ms : Z)
    (e : Exception) :
  (publish_request self message routing_key reply_routing_key context uuid4
     now_ms (Some e)).2 = Raise e /\
  published
    (publish_request self message routing_key reply_routing_key context
       uuid4 now_ms (Some e)).1 = published self /\
  get_correlation_context
    (publish_request self message routing_key reply_routing_key context
       uuid4 now_ms (Some e)).1 uuid4
  = Some {| request_routing_key := Some routing_key;
            reply_routing_key := Some reply_routing_key;
            Messaging.context := Some (context_or_empty context);
            timestamp := Some now_ms |}.
Proof.
  unfold publish_request, publish, get_correlation_context. simpl.
  split; [done|]. split; [done|]. apply lookup_insert_eq.
Qed.

Lemma cleanup_lookup (self : @BaseAgent ProtoMessage Any)
    (max_age_seconds now_ms : Z) (k : string) :
  _correlation_map (cleanup_old_correlations self max_age_seconds now_ms).1
    !! k =
  match _correlation_map self !! k with
  | Some data =>
      if decide (entry_timestamp data < now_ms - max_age_seconds * 1000)
      then None else Some data
  | None => None
  end.
Proof.
  unfold cleanup_old_correlations. cbn [fst snd]. simpl.
  rewrite lookup_foldl_delete.
  destruct (decide (k ∈ old_ids_of (_correlation_map self)
                         (now_ms - max_age_seconds * 1000))) as [Hin|Hnin].
  - apply elem_of_old_ids in Hin as (data & -> & Hold).
    by rewrite decide_True.
  - destruct (_correlation_map self !! k) as [data|] eqn:Hk; [|done].
    rewrite decide_False; [done|]. intros Hold. apply Hnin.
    apply elem_of_old_ids. by exists data.
Qed.

Lemma cleanup_count (self : @BaseAgent ProtoMessage Any)
    (max_age_seconds now_ms : Z) :
  (cleanup_old_correlations self max_age_seconds now_ms).2 =
    Z.of_nat (size (_correlation_map self)) -
    Z.of_nat
      (size (_correlation_map
               (cleanup_old_correlations self max_age_seconds now_ms).1)).
Proof.
  unfold cleanup_old_correlations. cbn [fst snd]. simpl.
  pose proof (size_foldl_delete
                (old_ids_of (_correlation_map self)
                   (now_ms - max_age_seconds * 1000))
                (_correlation_map self)
                (NoDup_old_ids _ _)) as Hsize.
  rewrite <- Hsize; [lia|].
  intros k (data & -> & _)%elem_of_old_ids. by eexists.
Qed.

(** X14.  Two reaps at the same clock reading amount to one reap with the
    smaller of the two ages: the same entries remain, and the two returned
    counts add up to the count of the single reap. *)
Theorem cleanup_twice_is_cleanup_min (self : @BaseAgent ProtoMessage Any)
    (age1 age2 : Z) (now_ms : Z) :
  _correlation_map
    (cleanup_old_correlations
       (cleanup_old_correlations self age1 now_ms).1 age2 now_ms).1
  = _correlation_map
      (cleanup_old_correlations self (Z.min age1 age2) now_ms).1 /\
  (cleanup_old_correlations self age1 now_ms).2 +
  (cleanup_old_correlations
     (cleanup_old_correlations self age1 now_ms).1 age2 now_ms).2
  = (cleanup_old_correlations self (Z.min age1 age2) now_ms).2.
Proof.
  assert (_correlation_map
            (cleanup_old_correlations
               (cleanup_old_correlations self age1 now_ms).1 age2 now_ms).1
          = _correlation_map
              (cleanup_old_correlations self (Z.min age1 age2) now_ms).1)
    as Hmap.
  { apply map_eq. intros k. rewrite !cleanup_lookup.
    destruct (_correlation_map self !! k) as [data|]; [|done].
    repeat case_decide; try done; lia. }
  split; [done|]. rewrite !cleanup_count, Hmap. lia.
Qed.

Lemma agent_call_entry (self : @BaseAgent ProtoMessage Any)
    (c : @AgentCall ProtoMessage Any) (k : string) :
  is_Some (_correlation_map (agent_call self c) !! k) ->
  is_Some (_correlation_map self !! k) \/ k ∈ request_ids [c].
Proof.
  destruct c as [message rk rrk context uuid4 now_ms perr
                | message rk cid perr
                | message rk cid uuid4 perr
                | cid
                | age now_ms]; cbn [agent_call].
  - unfold publish_request, publish. destruct perr; simpl;
      (destruct (decide (uuid4 = k)) as [->|Hne];
       [intros _; right; by left
       | rewrite lookup_insert_ne by done; by left]).
  - unfold publish_response. rewrite publish_correlation_map. by left.
  - by left.
  - unfold clear_correlation.
    destruct (_correlation_map self !! cid) eqn:Hcid; simpl; [|by left].
    destruct (decide (cid = k)) as [->|Hne].
    + rewrite lookup_delete_eq. by intros [? ?].
    + rewrite lookup_delete_ne by done. by left.
  - rewrite cleanup_lookup.
    destruct (_correlation_map self !! k) as [data|]; [by left|].
    by intros [? ?].
Qed.

(** X15.  Correlation entries are created by [publish_request] only:
    after any sequence of requests, responses, events, clears and reaps,
    every id in the map was in the map at the start or is the id generated
    by one of the requests. *)
Theorem entries_come_from_requests
    (calls : list (@AgentCall ProtoMessage Any))
    (self : @BaseAgent ProtoMessage Any) (k : string) :
  is_Some (_correlation_map (foldl agent_call self calls) !! k) ->
  is_Some (_correlation_map self !! k) \/ k ∈ request_ids calls.
Proof.
  revert self. induction calls as [|c calls IH]; intros self; simpl.
  - by left.
  - intros Hk. destruct (IH _ Hk) as [Hbefore|Hlater].
    + destruct (agent_call_entry self c k Hbefore) as [?|Hc]; [by left|].
      right. unfold request_ids in *. simpl in *.
      destruct c; try (by apply elem_of_nil in Hc).
      apply list_elem_of_singleton in Hc as ->. by left.
    + right. unfold request_ids in *. simpl.
      destruct c; try done. by right.
Qed.

End AgentRuns.

Section AgentScenarios.
Import Errors Messaging.

(** X12 on the scenario subscriber with a handler that fails once. *)
Lemma traced_delivery_acked_after_rerun_witness :
  (Scenarios.routing_key_map !! "test.request" = Some "TestRequest" /\
   Scenarios.parse "hello" "TestRequest" = Return "hello") /\
  _on_message Scenarios.parse Scenarios.routing_key_map
    (fun m p =>
       (handle_message_routed true Scenarios.clean_tracing
          (Scenarios.fails_once m p)).2)
    Scenarios.open_channel (mkDeliver "test.request" 7)
    Scenarios.no_properties "hello"
  = ([basic_ack 7], Return tt) /\
  _on_message Scenarios.parse Scenarios.routing_key_map
    (fun m p =>
       (handle_message_routed false Scenarios.clean_tracing
          (Scenarios.fails_once m p)).2)
    Scenarios.open_channel (mkDeliver "test.request" 7)
    Scenarios.no_properties "hello"
  = ([basic_nack 7 false], Return tt).
Proof.
  split; [split; reflexivity|].
  exact (traced_delivery_acked_after_rerun Scenarios.parse
           Scenarios.routing_key_map Scenarios.fails_once
           Scenarios.open_channel
           Scenarios.clean_tracing (mkDeliver "test.request" 7)
           Scenarios.no_properties "hello" "TestRequest" "hello"
           (EOther "TimeoutError" "upstream timed out")
           eq_refl eq_refl eq_refl eq_refl eq_refl eq_refl eq_refl).
Defined.

(** X15 on the test agent: after a request, its response and an unrelated
    clear, the only id in the map is the one the request generated. *)
Lemma entries_come_from_requests_witness :
  is_Some
    (_correlation_map
       (foldl agent_call Scenarios.test_agent
          Scenarios.request_then_response) !! "c1") /\
  (is_Some (_correlation_map Scenarios.test_agent !! "c1") \/
   "c1" ∈ request_ids Scenarios.request_then_response).
Proof.
  assert (is_Some
            (_correlation_map
               (foldl agent_call Scenarios.test_agent
                  Scenarios.request_then_response) !! "c1")) as H
    by (vm_compute; by eexists).
  split; [exact H|].
  exact (entries_come_from_requests Scenarios.request_then_response
           Scenarios.test_agent "c1" H).
Defined.

End AgentScenarios.

(** ** Queue set-up *)

Section SetupFacts.
Import Errors Messaging.

Lemma send_ops_accepted (ops : list BrokerOp) :
  forall position broker_error,
    (forall i, (position <= i < position + length ops)%nat ->
               broker_error i = None) ->
    send_ops ops position broker_error = (ops, Return tt).
Proof.
  induction ops as [|op ops IH]; intros position broker_error Hnone; [done|].
  cbn [send_ops]. rewrite Hnone by (cbn [length]; lia).
  rewrite IH; [done|]. intros i Hi. apply Hnone. cbn [length]. lia.
Qed.

Lemma send_ops_refused (ops : list BrokerOp) :
  forall position broker_error (n : nat) (e : Exception),
    (n < length ops)%nat ->
    (forall i, (position <= i < position + n)%nat -> broker_error i = None) ->
    broker_error (position + n)%nat = Some e ->
    send_ops ops position broker_error = (take n ops, Raise e).
Proof.
  induction ops as [|op ops IH]; intros position broker_error n e Hn Hnone He.
  - simpl in Hn. lia.
  - cbn [send_ops]. destruct n as [|n].
    + rewrite Nat.add_0_r in He. by rewrite He.
    + rewrite Hnone by lia.
      rewrite (IH (S position) broker_error n e); [done| | |].
      * cbn [length] in Hn. lia.
      * intros i Hi. apply Hnone. lia.
      * by replace (S position + n)%nat with (position + S n)%nat by lia.
Qed.

(** X16.  When the broker accepts everything, [_setup_queue] declares the
    main queue with the dead-letter exchange [<exchange>.dlx] and a
    24-hour message TTL, and the bindings it makes are exactly these: every
    routing key of the subscriber on the main queue, to the main exchange,
    and every routing key on the dead-letter queue [<queue>.dlq], to the
    dead-letter exchange.  An agent constructed without routing keys, or
    with an empty list, subscribes to [<agent_name>.#] on a queue named
    after the agent. *)
Theorem setup_binds_every_key (self : Subscriber) :
  _setup_queue self None (fun _ => None) = (setup_ops self, Return tt) /\
  queue_declare (queue_name self) true false false
    [("x-dead-letter-exchange",
      arg_str (exchange_name self ++ ".dlx")%string);
     ("x-message-ttl", arg_int 86400000)] ∈ setup_ops self /\
  (forall queue exchange routing_key,
     queue_bind queue exchange routing_key ∈ setup_ops self <->
     routing_key ∈ routing_keys self /\
     ((queue = queue_name self /\ exchange = exchange_name self) \/
      (queue = (queue_name self ++ ".dlq")%string /\
       exchange = (exchange_name self ++ ".dlx")%string))) /\
  (forall agent_name exchange prefetch keys,
     keys = None \/ keys = Some [] ->
     queue_name (new_agent_subscriber agent_name exchange keys prefetch)
       = agent_name /\
     routing_keys (new_agent_subscriber agent_name exchange keys prefetch)
       = [(agent_name ++ ".#")%string]).
Proof.
  split; [|split; [|split]].
  - unfold _setup_queue. by apply send_ops_accepted.
  - unfold setup_ops. set_solver.
  - intros q ex rk. unfold setup_ops.
    rewrite !elem_of_app, !elem_of_cons, elem_of_nil, !list_elem_of_fmap.
    split.
    + intros [H|[H|[H|H]]].
      * by destruct H as [?|[?|[?|[?|[]]]]].
      * destruct H as (rk' & [= -> -> ->] & Hin). split; [done|]. by right.
      * destruct H as (rk' & [= -> -> ->] & Hin). split; [done|]. by left.
      * by destruct H as [?|[]].
    + intros [Hin [[-> ->]|[-> ->]]].
      * right. right. left. by exists rk.
      * right. left. by exists rk.
  - intros agent_name exchange prefetch keys Hkeys.
    unfold new_agent_subscriber, new_subscriber, str_or. cbn.
    split.
    + destruct (String.eqb agent_name "") eqn:Heq; [|done].
      by apply String.eqb_eq in Heq as ->.
    + by destruct Hkeys as [-> | ->].
Qed.

(** X17.  When the broker refuses one of the set-up operations, the
    operations before it have been carried out, none after it is sent, and
    the error is raised to whoever constructs the subscriber; when the
    channel cannot be obtained nothing is sent at all. *)
Theorem setup_stops_at_refusal (self : Subscriber) (n : nat)
    (broker_error : nat -> option Exception) (e : Exception) :
  (n < length (setup_ops self))%nat ->
  (forall i, (i < n)%nat -> broker_error i = None) ->
  broker_error n = Some e ->
  _setup_queue self None broker_error = (take n (setup_ops self), Raise e) /\
  _setup_queue self (Some e) broker_error = ([], Raise e).
Proof.
  intros Hn Hnone He. split; [|done]. unfold _setup_queue.
  apply send_ops_refused; [done| |done].
  intros i Hi. apply Hnone. lia.
Qed.

(** X17 on the agent without routing keys, with a broker that refuses the
    declaration of the main queue: only the exchange has been declared. *)
Lemma setup_stops_at_refusal_witness :
  ((1 < length (setup_ops Scenarios.analysis_subscriber))%nat /\
   Scenarios.refuses_second 1
   = Some (EOther "ChannelClosedByBroker" "PRECONDITION_FAILED")) /\
  _setup_queue Scenarios.analysis_subscriber None Scenarios.refuses_second
  = ([exchange_declare "chimera.events" "topic" true],
     Raise (EOther "ChannelClosedByBroker" "PRECONDITION_FAILED")).
Proof.
  split; [split; [simpl; lia | reflexivity]|].
  refine (proj1 (setup_stops_at_refusal Scenarios.analysis_subscriber 1
                   Scenarios.refuses_second
                   (EOther "ChannelClosedByBroker" "PRECONDITION_FAILED")
                   _ _ eq_refl)).
  - simpl; lia.
  - intros i Hi. assert (i = 0)%nat as -> by lia. reflexivity.
Defined.

(** The set-up of the agent without routing keys, when all goes well. *)
Example analysis_subscriber_setup :
  (_setup_queue Scenarios.analysis_subscriber None (fun _ => None)).1
  = [exchange_declare "chimera.events" "topic" true;
     queue_declare "analysis" true false false
       [("x-dead-letter-exchange", arg_str "chimera.events.dlx");
        ("x-message-ttl", arg_int 86400000)];
     exchange_declare "chimera.events.dlx" "topic" true;
     queue_declare "analysis.dlq" true false false [];
     queue_bind "analysis.dlq" "chimera.events.dlx" "analysis.#";
     queue_bind "analysis" "chimera.events" "analysis.#";
     basic_qos 1].
Proof. reflexivity. Qed.

End SetupFacts.

(** ** The conversation context: writing and merging *)

Section ContextWrites.
Import PyDict ContextManager.












(** X20.  [update_context] on a session without a stored context stores
    a context made of the updates alone; when these carry no
    [query_history], the next [add_query_to_history] of that session
    (the store answering its read) raises [KeyError] and leaves the store
    as it is, whatever it is asked to add. *)
Theorem add_query_after_update_raises (self : ContextManager)
    (sid : string) (updates : SessionContext) (now : string)
    (query : string) (intent : Intent) (entities : list Entity)
    (now' : string) (redis_error : bool) :
  get_context self sid = None ->
  query_history updates = None ->
  add_query_to_history (update_context self sid updates now false).1 sid
    query intent entities now' redis_error
  = ((update_context self sid updates now false).1,
     Errors.Raise (Errors.EOther "KeyError" "query_history")).
Proof.
  intros Hnone Hupd. unfold update_context. rewrite Hnone, Hupd.
  unfold save_context. cbn [fst].
  unfold add_query_to_history, context_or_new, get_context. simpl.
  rewrite lookup_insert_eq. unfold context_truthy. simpl.
  by destruct (ContextManager.session_id updates), (created_at updates).
Qed.

(** X21.  [merge_context_with_entities] returns the entities of the query
    unchanged and in order, followed by what it takes from the context,
    which is exactly this: the time range of the context, once, when that
    range is not empty and the query has no TIME_RANGE or DATE entity, and
    no time range otherwise; then one METRIC entity for each metric of the
    context, in the order of the context, when the query has no METRIC
    entity, and no metric otherwise. *)
Theorem merge_keeps_query_entities (entities : list Entity)
    (context : option ExtractedContext) :
  exists ranges metrics,
    merge_context_with_entities entities context
    = map of_query entities ++ map time_range_of_context ranges
      ++ map metric_of_context metrics /\
    (ranges = [] \/ exists tr, ranges = [tr]) /\
    (forall tr,
       ranges = [tr] <->
       (exists c, context = Some c /\ time_range_context c = Some tr) /\
       time_range_truthy tr = true /\
       forall e, e ∈ entities -> is_time_entity e = false) /\
    ((forall e, e ∈ entities -> is_metric_entity e = false) ->
     metrics = default [] (metric_context <$> context)) /\
    ((exists e, e ∈ entities /\ is_metric_entity e = true) ->
     metrics = []).
Proof.
  assert (forall (f : Entity -> bool),
            existsb f entities = false ->
            forall e, e ∈ entities -> f e = false) as Hnone.
  { intros f Hex e He. apply not_true_iff_false. intros Hf.
    apply not_true_iff_false in Hex. apply Hex, existsb_exists.
    exists e. split; [by apply list_elem_of_In|done]. }
  assert (forall (f : Entity -> bool),
            existsb f entities = true ->
            exists e, e ∈ entities /\ f e = true) as Hsome.
  { intros f Hex. apply existsb_exists in Hex as (e & He & Hf).
    exists e. split; [by apply list_elem_of_In|done]. }
  unfold merge_context_with_entities.
  destruct context as [c|]; simpl.
  2:{ exists [], []. simpl. rewrite app_nil_r. split; [done|].
      split; [by left|]. split; [|by split].
      intros tr. split; [done|]. by intros [(c & Hc & _) _]. }
  exists (match time_range_context c with
          | Some tr =>
              if negb (existsb is_time_entity entities)
                 && time_range_truthy tr
              then [tr] else []
          | None => []
          end),
         (if negb (existsb is_metric_entity entities)
          then metric_context c else []).
  split; [|split; [|split; [|split]]].
  - destruct (time_range_context c) as [tr|];
      [destruct (negb (existsb is_time_entity entities)
                 && time_range_truthy tr)|];
      destruct (negb (existsb is_metric_entity entities));
      simpl; rewrite ?app_nil_r, <- ?app_assoc; done.
  - destruct (time_range_context c) as [tr|]; [|by left].
    destruct (negb (existsb is_time_entity entities)
              && time_range_truthy tr); [right; by exists tr | by left].
  - intros tr. destruct (time_range_context c) as [tr0|] eqn:Htr.
    2:{ split; [done|]. intros [(c0 & [= <-] & Hc0) _]. congruence. }
    destruct (existsb is_time_entity entities) eqn:Hex; simpl.
    { split; [done|]. intros (_ & _ & Hall).
      destruct (Hsome _ Hex) as (e & He & Hf).
      rewrite (Hall e He) in Hf. discriminate. }
    destruct (time_range_truthy tr0) eqn:Htruthy.
    + split.
      * intros [= <-]. split; [by exists c|]. split; [done|].
        by apply Hnone.
      * intros [(c0 & [= <-] & Hc0) _]. congruence.
    + split; [done|]. intros [(c0 & [= <-] & Hc0) [Ht _]]. congruence.
  - intros Hall. destruct (existsb is_metric_entity entities) eqn:Hex;
      [|done].
    destruct (Hsome _ Hex) as (e & He & Hf).
    rewrite (Hall e He) in Hf. discriminate.
  - intros (e & He & Hf).
    destruct (existsb is_metric_entity entities) eqn:Hex; [done|].
    rewrite (Hnone _ Hex e He) in Hf. discriminate.
Qed.





(** X23.  [_extract_common_entities] returns at most one entity for a
    key "type:value": the keys of the entities it returns are pairwise
    distinct.  The entity returned for a key is the one listed last with
    that key, and a key is represented exactly when it is listed at least
    twice over the entries given. *)
Theorem common_entities_one_per_key (history : list QueryEntry) :
  NoDup (entity_key <$> _extract_common_entities history) /\
  forall e,
    e ∈ _extract_common_entities history <->
    (2 <= occurrences (entity_key e) history)%nat /\
    last (filter (fun e' => entity_key e' = entity_key e)
            (all_entities history)) = Some e.
Proof.
  split; [|intros e; apply common_entities_spec].
  unfold _extract_common_entities, count_entities.
  rewrite count_entities_fold.
  destruct (count_entity_dicts (all_entities history))
    as (Hnd & _ & Hdata).
  destruct (foldl count_entity ([], []) (all_entities history))
    as [counts data].
  simpl in Hnd, Hdata.
  apply (sublist_NoDup _ counts.*1); [done|]. clear Hnd.
  induction counts as [|[k c] counts IH]; [done|].
  cbn [omap list_omap]. rewrite fmap_cons. cbn [fst].
  destruct (1 <? c); [|by apply sublist_cons].
  destruct (dict_get k data) as [e|] eqn:Hget; [|by apply sublist_cons].
  rewrite fmap_cons. rewrite Hdata in Hget.
  apply last_Some_elem_of, list_elem_of_filter in Hget as [-> _].
  by apply sublist_skip.
Qed.



(** X20 on the empty store: an update that only stamps the creation time,
    then a query. *)
Lemma add_query_after_update_raises_witness :
  (get_context Scenarios.empty_manager "s1" = None /\
   query_history Scenarios.stamp_only = None) /\
  (add_query_to_history
     (update_context Scenarios.empty_manager "s1" Scenarios.stamp_only
        "2024-01-01T00:00:01" false).1
     "s1" "price of BTC" (mkIntent None None) [] "2024-01-01T00:00:02"
     false).2
  = Errors.Raise (Errors.EOther "KeyError" "query_history").
Proof.
  split; [split; reflexivity|].
  exact (f_equal snd
           (add_query_after_update_raises Scenarios.empty_manager "s1"
              Scenarios.stamp_only "2024-01-01T00:00:01" "price of BTC"
              (mkIntent None None) [] "2024-01-01T00:00:02" false
              eq_refl eq_refl)).
Defined.

(** A query that names a date takes the metrics of the context, not its
    time range. *)
Example merge_dated_query :
  merge_context_with_entities [Scenarios.dated_entity]
    (Some Scenarios.offered_context)
  = [of_query Scenarios.dated_entity; metric_of_context "price";
     metric_of_context "volume"].
Proof. reflexivity. Qed.

End ContextWrites.

(** ** The alert engine over several calls *)

Section AlertRuns.
Import PyNum Errors PyDict AlertEngine.

Lemma dict_get_notin {V} (k : string) (d : list (string * V)) :
  k ∉ d.*1 -> dict_get k d = None.
Proof.
  intros Hk. destruct (dict_get k d) as [v|] eqn:Hget; [|done].
  exfalso. apply Hk. apply dict_get_elem_of in Hget.
  apply list_elem_of_fmap. by exists (k, v).
Qed.

Lemma elem_of_dict_del {V} (k : string) (d : list (string * V))
    (k0 : string) (v0 : V) :
  NoDup d.*1 -> (k0, v0) ∈ dict_del k d -> (k0, v0) ∈ d /\ k0 <> k.
Proof.
  induction d as [|[k' v'] d IH]; simpl; intros Hnd Hin.
  - by apply elem_of_nil in Hin.
  - apply NoDup_cons in Hnd as [Hk' Hnd].
    destruct (String.eqb k' k) eqn:Heq.
    + apply String.eqb_eq in Heq as ->. split; [by right|].
      intros ->. apply Hk'. apply list_elem_of_fmap. by exists (k, v0).
    + apply String.eqb_neq in Heq.
      apply elem_of_cons in Hin as [[= -> ->]|Hin]; [split; [by left|done]|].
      destruct (IH Hnd Hin). split; [by right | done].
Qed.

Lemma dict_del_NoDup {V} (k : string) (d : list (string * V)) :
  NoDup d.*1 -> NoDup (dict_del k d).*1.
Proof.
  induction d as [|[k' v'] d IH]; simpl; intros Hnd; [done|].
  apply NoDup_cons in Hnd as [Hk' Hnd].
  destruct (String.eqb k' k); [done|].
  rewrite fmap_cons. apply NoDup_cons. split; [|by apply IH].
  intros Hin. apply Hk'.
  apply list_elem_of_fmap in Hin as ([k1 v1] & Heq & Hin).
  simpl in Heq. subst k1.
  apply elem_of_dict_del in Hin as [Hin _]; [|done].
  apply list_elem_of_fmap. by exists (k', v1).
Qed.

Lemma remove_rule_well_formed (self : Engine) (rule_id : string) :
  well_formed self -> well_formed (remove_rule self rule_id).
Proof.
  intros [Hnd Hhist]. unfold remove_rule.
  destruct (dict_get rule_id (rules self)); [|done].
  split; simpl.
  - by apply dict_del_NoDup.
  - intros rid rule Hin. apply elem_of_dict_del in Hin as [Hin Hne]; [|done].
    rewrite lookup_delete_ne by done. by apply (Hhist rid rule).
Qed.

Lemma filter_keys_notin {V} (f : string * V -> bool) (k : string)
    (d : list (string * V)) :
  k ∉ d.*1 -> k ∉ (List.filter f d).*1.
Proof.
  intros Hk Hin. apply Hk.
  apply list_elem_of_fmap in Hin as (item & -> & Hin).
  apply list_elem_of_In, filter_In in Hin as [Hin _].
  apply list_elem_of_fmap. exists item. split; [done|].
  by apply list_elem_of_In.
Qed.

Lemma filter_keys_NoDup {V} (f : string * V -> bool)
    (d : list (string * V)) :
  NoDup d.*1 -> NoDup (List.filter f d).*1.
Proof.
  induction d as [|[k v] d IH]; simpl; intros Hnd; [done|].
  apply NoDup_cons in Hnd as [Hk Hnd].
  destruct (f (k, v)); [|by apply IH].
  rewrite fmap_cons. apply NoDup_cons. split; [|by apply IH].
  by apply filter_keys_notin.
Qed.

Lemma evaluate_loop_cons (self : Engine) (rid : string) (rule : AlertRule)
    (rest : list (string * AlertRule)) (alerts : list Alert)
    (metric : string) (value : Q) (timestamp : option Z)
    (current_time : Z) :
  evaluate_loop self ((rid, rule) :: rest) alerts metric value timestamp
    current_time
  = if condition_met metric value (rid, rule) then
      match in_cooldown self rid rule current_time with
      | Raise e => (self, Raise e)
      | Return true =>
          evaluate_loop self rest alerts metric value timestamp current_time
      | Return false =>
          match alert_history self !! rid with
          | None => (self, Raise (EOther "KeyError" rid))
          | Some history =>
              evaluate_loop
                {| rules := rules self;
                   alert_history :=
                     <[rid := history
                              ++ [make_alert rid rule metric value timestamp
                                    current_time]]> (alert_history self);
                   last_alert_time :=
                     <[rid := current_time]> (last_alert_time self) |}
                rest
                (alerts
                 ++ [make_alert rid rule metric value timestamp
                       current_time])
                metric value timestamp current_time
          end
      end
    else evaluate_loop self rest alerts metric value timestamp current_time.
Proof.
  cbn [evaluate_loop]. unfold condition_met. cbn [fst snd].
  destruct (enabled rule); [|done].
  destruct (String.eqb (AlertEngine.metric (condition rule)) metric);
    [|done].
  by destruct (_check_condition value (operator (condition rule))
                 (threshold (condition rule))).
Qed.

Lemma in_cooldown_ext (self1 self2 : Engine) (rid : string)
    (rule : AlertRule) (current_time : Z) :
  last_alert_time self1 !! rid = last_alert_time self2 !! rid ->
  in_cooldown self1 rid rule current_time
  = in_cooldown self2 rid rule current_time.
Proof. unfold in_cooldown. by intros ->. Qed.

Lemma overflows_fits (self : Engine) (metric : string) (value : Q)
    (current_time : Z) (item : string * AlertRule) :
  cooldown_fits item.2 = true ->
  overflows self metric value current_time item = false.
Proof.
  intros Hfit. unfold overflows. rewrite in_cooldown_fits by done.
  apply andb_false_r.
Qed.

Lemma fires_fits (self : Engine) (metric : string) (value : Q)
    (current_time : Z) (item : string * AlertRule) :
  cooldown_fits item.2 = true ->
  fires self metric value current_time item
  = condition_met metric value item
    && negb
         (match last_alert_time self !! item.1 with
          | Some last_alert =>
              current_time - last_alert
              <? cooldown_seconds (condition item.2) * 1000000
          | None => false
          end).
Proof. intros Hfit. unfold fires. by rewrite in_cooldown_fits by done. Qed.

(** What the loop of [evaluate] does on rules with distinct ids that all
    have a history list.  When it returns, the alerts are those of the
    rules that pass the tests in the engine the loop starts from, and
    each such rule gets its alert appended to its history and its last
    alert time set.  It raises only at a rule whose cooldown check
    raises. *)
Lemma evaluate_loop_fires (items : list (string * AlertRule)) :
  forall (self : Engine) (alerts : list Alert) (metric : string)
         (value : Q) (timestamp : option Z) (current_time : Z),
    NoDup items.*1 ->
    (forall rule_id rule,
       (rule_id, rule) ∈ items -> is_Some (alert_history self !! rule_id)) ->
    exists self' r,
      evaluate_loop self items alerts metric value timestamp current_time
      = (self', r) /\
      match r with
      | Return alerts' =>
          alerts'
          = alerts
            ++ map (alert_of metric value timestamp current_time)
                 (List.filter (fires self metric value current_time) items)
          /\
          rules self' = rules self /\
          forall rid,
            recorded self self'
              (List.filter (fires self metric value current_time) items)
              metric value timestamp current_time rid
      | Raise e =>
          exists item,
            item ∈ items /\
            overflows self metric value current_time item = true
      end.
Proof.
  induction items as [|[rid0 rule0] items IH];
    intros self alerts metric value timestamp current_time Hnd Hhist.
  - exists self, (Return alerts). simpl. split; [done|].
    by rewrite app_nil_r.
  - rewrite fmap_cons in Hnd. apply NoDup_cons in Hnd as [Hrid0 Hnd].
    assert (forall rule_id rule,
              (rule_id, rule) ∈ items ->
              is_Some (alert_history self !! rule_id)) as Hrest.
    { intros r rule Hin. apply (Hhist r rule). by right. }
    rewrite evaluate_loop_cons. cbn [List.filter].
    assert (fires self metric value current_time (rid0, rule0) = false ->
            overflows self metric value current_time (rid0, rule0) = false ->
            exists self' r,
              evaluate_loop self items alerts metric value timestamp
                current_time = (self', r) /\
              match r with
              | Return alerts' =>
                  alerts'
                  = alerts
                    ++ map (alert_of metric value timestamp current_time)
                         (if fires self metric value current_time
                               (rid0, rule0)
                          then (rid0, rule0)
                               :: List.filter
                                    (fires self metric value current_time)
                                    items
                          else List.filter
                                 (fires self metric value current_time)
                                 items) /\
                  rules self' = rules self /\
                  forall rid,
                    recorded self self'
                      (if fires self metric value current_time (rid0, rule0)
                       then (rid0, rule0)
                            :: List.filter
                                 (fires self metric value current_time)
                                 items
                       else List.filter
                              (fires self metric value current_time) items)
                      metric value timestamp current_time rid
              | Raise e =>
                  exists item,
                    item ∈ (rid0, rule0) :: items /\
                    overflows self metric value current_time item = true
              end) as Hskip.
    { intros -> _.
      destruct (IH self alerts metric value timestamp current_time Hnd Hrest)
        as (self' & r & Hev & Hr).
      exists self', r. split; [done|]. destruct r as [alerts'|e]; [done|].
      destruct Hr as (item & Hin & Hov). exists item.
      split; [by right | done]. }
    destruct (condition_met metric value (rid0, rule0)) eqn:Hmet.
    2:{ apply Hskip; unfold fires, overflows; by rewrite Hmet. }
    destruct (in_cooldown self rid0 rule0 current_time) as [[]|e] eqn:Hcool.
    + apply Hskip; unfold fires, overflows; cbn [fst snd];
        by rewrite Hmet, Hcool.
    + assert (fires self metric value current_time (rid0, rule0) = true)
        as -> by (unfold fires; cbn [fst snd]; by rewrite Hmet, Hcool).
      destruct (Hhist rid0 rule0 ltac:(left)) as [history Hhistory].
      rewrite Hhistory.
      set (self1 :=
             {| rules := rules self;
                alert_history :=
                  <[rid0 := history
                            ++ [make_alert rid0 rule0 metric value timestamp
                                  current_time]]> (alert_history self);
                last_alert_time :=
                  <[rid0 := current_time]> (last_alert_time self) |}).
      assert (forall item,
                item ∈ items ->
                in_cooldown self1 item.1 item.2 current_time
                = in_cooldown self item.1 item.2 current_time) as Hcools.
      { intros [r rule] Hin. apply in_cooldown_ext. subst self1.
        cbn [last_alert_time fst]. rewrite lookup_insert_ne; [done|].
        intros <-. apply Hrid0. apply list_elem_of_fmap.
        by exists (rid0, rule). }
      assert (List.filter (fires self1 metric value current_time) items
              = List.filter (fires self metric value current_time) items)
        as Hsame.
      { apply List.filter_ext_in. intros item Hin. unfold fires.
        by rewrite Hcools by (by apply list_elem_of_In). }
      destruct (IH self1
                  (alerts
                   ++ [make_alert rid0 rule0 metric value timestamp
                         current_time])
                  metric value timestamp current_time Hnd)
        as (self' & r & Hev & Hr).
      { intros r rule Hin. subst self1. cbn [alert_history].
        destruct (decide (rid0 = r)) as [->|Hne].
        - rewrite lookup_insert_eq. by eexists.
        - rewrite lookup_insert_ne by done. by apply (Hrest r rule). }
      exists self', r. split; [done|]. destruct r as [alerts'|e].
      * destruct Hr as (-> & Hrules & Hstate). rewrite Hsame. split.
        { cbn [map]. by rewrite <- app_assoc. }
        split; [done|]. intros rid. specialize (Hstate rid).
        rewrite Hsame in Hstate. unfold recorded in *. cbn [dict_get].
        destruct (String.eqb rid0 rid) eqn:Heq.
        -- apply String.eqb_eq in Heq as <-.
           rewrite dict_get_notin in Hstate
             by (by apply filter_keys_notin).
           destruct Hstate as [-> ->]. subst self1. simpl.
           by rewrite !lookup_insert_eq, Hhistory.
        -- apply String.eqb_neq in Heq. subst self1. simpl in Hstate.
           by rewrite !lookup_insert_ne in Hstate by done.
      * destruct Hr as (item & Hin & Hov). exists item.
        split; [by right|]. unfold overflows in *.
        by rewrite <- Hcools.
    + exists self, (Raise e). split; [done|]. exists (rid0, rule0).
      split; [by left|]. unfold overflows. cbn [fst snd].
      by rewrite Hmet, Hcool.
Qed.

Lemma evaluate_well_formed (self self' : Engine)
    (fired : list (string * AlertRule)) (metric : string) (value : Q)
    (timestamp : option Z) (current_time : Z) :
  well_formed self ->
  rules self' = rules self ->
  (forall rid,
     recorded self self' fired metric value timestamp current_time rid) ->
  well_formed self'.
Proof.
  intros [Hnd Hhist] Hrules Hstate. split; rewrite Hrules; [done|].
  intros rid rule Hin. destruct (Hhist rid rule Hin) as [history Hhistory].
  specialize (Hstate rid). unfold recorded in Hstate.
  destruct (dict_get rid fired) as [rule'|];
    destruct Hstate as [_ ->]; rewrite Hhistory; by eexists.
Qed.

(** An [evaluate] that returns, on a well-formed engine. *)
Lemma evaluate_returned (self self' : Engine) (metric : string) (value : Q)
    (timestamp : option Z) (current_time : Z) (alerts : list Alert) :
  well_formed self ->
  evaluate self metric value timestamp current_time
    = (self', Return alerts) ->
  alerts
  = map (alert_of metric value timestamp current_time)
      (List.filter (fires self metric value current_time) (rules self)) /\
  rules self' = rules self /\
  well_formed self' /\
  forall rid,
    recorded self self'
      (List.filter (fires self metric value current_time) (rules self))
      metric value timestamp current_time rid.
Proof.
  intros Hwf Hev. unfold evaluate in Hev.
  destruct (evaluate_loop_fires (rules self) self [] metric value timestamp
              current_time (proj1 Hwf) (proj2 Hwf))
    as (self1 & r & Hloop & Hr).
  rewrite Hev in Hloop. injection Hloop as <- <-.
  destruct Hr as (-> & Hrules & Hstate).
  split; [done|]. split; [done|]. split; [|done].
  by eapply evaluate_well_formed.
Qed.

(** On a well-formed engine whose cooldowns fit, [evaluate] returns. *)
Lemma evaluate_fires (self : Engine) (metric : string) (value : Q)
    (timestamp : option Z) (current_time : Z) :
  well_formed self ->
  cooldowns_fit self ->
  exists self',
    evaluate self metric value timestamp current_time
    = (self',
       Return
         (map (alert_of metric value timestamp current_time)
            (List.filter (fires self metric value current_time)
               (rules self)))) /\
    rules self' = rules self /\
    well_formed self' /\
    cooldowns_fit self' /\
    forall rid,
      recorded self self'
        (List.filter (fires self metric value current_time) (rules self))
        metric value timestamp current_time rid.
Proof.
  intros Hwf Hfit.
  destruct (evaluate_loop_fires (rules self) self [] metric value timestamp
              current_time (proj1 Hwf) (proj2 Hwf))
    as (self' & r & Hloop & Hr).
  destruct r as [alerts|e].
  - destruct (evaluate_returned self self' metric value timestamp
                current_time alerts Hwf Hloop)
      as (-> & Hrules & Hwf' & Hstate).
    exists self'. split; [done|]. split; [done|]. split; [done|].
    split; [|done]. unfold cooldowns_fit. by rewrite Hrules.
  - destruct Hr as ([rid rule] & Hin & Hov).
    rewrite overflows_fits in Hov by (by apply (Hfit rid rule)).
    discriminate.
Qed.

(** An alert of the returned list, traced back to its rule. *)
Lemma elem_of_fired (self : Engine) (metric : string) (value : Q)
    (timestamp : option Z) (current_time : Z) (a : Alert) :
  NoDup (rules self).*1 ->
  a ∈ map (alert_of metric value timestamp current_time)
        (List.filter (fires self metric value current_time) (rules self)) ->
  exists rule,
    (rule_id a, rule) ∈ rules self /\
    fires self metric value current_time (rule_id a, rule) = true /\
    dict_get (rule_id a)
      (List.filter (fires self metric value current_time) (rules self))
    = Some rule /\
    a = make_alert (rule_id a) rule metric value timestamp current_time.
Proof.
  intros Hnd Ha.
  apply list_elem_of_In, in_map_iff in Ha as ([rid rule] & <- & Hin).
  exists rule. simpl. apply filter_In in Hin as Hin'.
  destruct Hin' as [Hin' Hf].
  split; [by apply list_elem_of_In|]. split; [done|]. split; [|done].
  apply elem_of_dict_get; [by apply filter_keys_NoDup|].
  by apply list_elem_of_In.
Qed.

Lemma remove_rule_last_alert_time (self : Engine) (rule_id : string) :
  last_alert_time (remove_rule self rule_id) = last_alert_time self.
Proof. unfold remove_rule. by destruct (dict_get rule_id (rules self)). Qed.

Lemma slice_from_nil {A} (start : Z) : slice_from start (@nil A) = [].
Proof. unfold slice_from. by destruct (0 <=? start); rewrite drop_nil. Qed.

Lemma add_rule_cooldowns_fit (self : Engine) (rule : AlertRule) :
  cooldowns_fit self -> cooldown_fits rule = true ->
  cooldowns_fit (add_rule self rule).
Proof.
  intros Hfit Hrule rid rule0 Hin. simpl in Hin.
  apply elem_of_dict_set in Hin as [[_ ->]|Hin]; [done|].
  by apply (Hfit rid rule0).
Qed.

Lemma remove_rule_cooldowns_fit (self : Engine) (rule_id : string) :
  NoDup (rules self).*1 ->
  cooldowns_fit self -> cooldowns_fit (remove_rule self rule_id).
Proof.
  intros Hnd Hfit. unfold remove_rule.
  destruct (dict_get rule_id (rules self)); [|done].
  intros rid rule Hin. simpl in Hin.
  apply elem_of_dict_del in Hin as [Hin _]; [|done].
  by apply (Hfit rid rule).
Qed.

(** X24.  On an engine whose rule ids are distinct and all have a history
    list, and whose cooldowns are durations [timedelta] can hold,
    [evaluate] returns, in the order the rules were added, one alert for
    each rule that is enabled, is on the evaluated metric, has its
    condition met and is not in cooldown when the call starts; it returns
    nothing for any other rule, keeps the rules, and leaves the engine in
    such a state again.  (The source builds
    [timedelta(seconds=cooldown_seconds)], which raises beyond 999999999
    days.) *)
Theorem evaluate_alerts_exactly (self : Engine) (metric : string)
    (value : Q) (timestamp : option Z) (current_time : Z) :
  well_formed self ->
  cooldowns_fit self ->
  exists self',
    evaluate self metric value timestamp current_time
    = (self',
       Return
         (map (alert_of metric value timestamp current_time)
            (List.filter (fires self metric value current_time)
               (rules self)))) /\
    rules self' = rules self /\
    well_formed self' /\
    cooldowns_fit self'.
Proof.
  intros Hwf Hfit.
  destruct (evaluate_fires self metric value timestamp current_time Hwf
              Hfit) as (self' & Hev & Hrules & Hwf' & Hfit' & _).
  by exists self'.
Qed.

(** X25.  After a rule has fired at [current_time], a later [evaluate] at
    [current_time'] returns no alert of that rule while
    [current_time' - current_time] is below the rule's cooldown; once the
    cooldown has passed, the rule fires again as soon as its metric is
    evaluated with its condition met.  The cooldowns of the engine are
    durations [timedelta] can hold. *)
Theorem cooldown_suppresses_alert (self self1 : Engine) (metric : string)
    (value : Q) (timestamp : option Z) (current_time : Z)
    (alerts1 : list Alert) (a : Alert) (rule : AlertRule) (metric' : string)
    (value' : Q) (timestamp' : option Z) (current_time' : Z) :
  well_formed self ->
  cooldowns_fit self ->
  evaluate self metric value timestamp current_time
    = (self1, Return alerts1) ->
  a ∈ alerts1 ->
  (rule_id a, rule) ∈ rules self ->
  exists self2 alerts2,
    evaluate self1 metric' value' timestamp' current_time'
      = (self2, Return alerts2) /\
    (current_time' - current_time
       < cooldown_seconds (condition rule) * 1000000 ->
     forall b, b ∈ alerts2 -> rule_id b <> rule_id a) /\
    (cooldown_seconds (condition rule) * 1000000
       <= current_time' - current_time ->
     AlertEngine.metric (condition rule) = metric' ->
     _check_condition value' (operator (condition rule))
       (threshold (condition rule)) = true ->
     make_alert (rule_id a) rule metric' value' timestamp' current_time'
       ∈ alerts2).
Proof.
  intros Hwf Hfit Hev Ha Hrule.
  destruct (evaluate_returned self self1 metric value timestamp current_time
              alerts1 Hwf Hev) as (-> & Hrules1 & Hwf1 & Hstate1).
  assert (cooldowns_fit self1) as Hfit1
    by (unfold cooldowns_fit; by rewrite Hrules1).
  assert (cooldown_fits rule = true) as Hfits
    by (by apply (Hfit (rule_id a) rule)).
  destruct (elem_of_fired self metric value timestamp current_time a
              (proj1 Hwf) Ha) as (rule0 & Hin0 & Hf0 & Hget0 & _).
  rewrite (NoDup_fst_unique _ _ _ _ (proj1 Hwf) Hin0 Hrule) in Hf0, Hget0.
  specialize (Hstate1 (rule_id a)). unfold recorded in Hstate1.
  rewrite Hget0 in Hstate1. destruct Hstate1 as [Hlast _]. clear Hget0.
  destruct (evaluate_fires self1 metric' value' timestamp' current_time'
              Hwf1 Hfit1) as (self2 & Hev2 & _).
  exists self2. eexists. split; [exact Hev2|]. split.
  - intros Hcool b Hb Heq.
    destruct (elem_of_fired self1 metric' value' timestamp' current_time' b
                (proj1 Hwf1) Hb) as (rule2 & Hin2 & Hf2 & _).
    rewrite Heq, Hrules1 in Hin2.
    rewrite (NoDup_fst_unique _ _ _ _ (proj1 Hwf) Hin2 Hrule), Heq in Hf2.
    rewrite fires_fits in Hf2 by done. cbn [fst snd] in Hf2.
    rewrite Hlast in Hf2.
    apply andb_prop in Hf2 as [_ Hf2]. apply negb_true_iff in Hf2. lia.
  - intros Hpassed Hmetric Hmet.
    apply list_elem_of_In, in_map_iff. exists (rule_id a, rule).
    split; [done|]. apply filter_In. split.
    + rewrite Hrules1. by apply list_elem_of_In.
    + rewrite fires_fits by done. unfold fires in Hf0.
      apply andb_prop in Hf0 as [Hf0 _].
      unfold condition_met in *. cbn [fst snd] in *.
      apply andb_prop in Hf0 as [Hf0 _]. apply andb_prop in Hf0 as [-> _].
      rewrite Hlast, Hmet, Hmetric, String.eqb_refl. simpl.
      apply negb_true_iff. lia.
Qed.

(** X26.  [remove_rule] forgets a rule's history but not its last alert
    time: when a rule that has fired is removed and a rule with the same
    id is added, an [evaluate] within the cooldown of the new rule returns
    no alert for it, and its history stays empty.  The cooldowns of the
    engine and of the new rule are durations [timedelta] can hold. *)
Theorem cooldown_survives_removal (self self1 : Engine) (metric : string)
    (value : Q) (timestamp : option Z) (current_time : Z)
    (alerts1 : list Alert) (a : Alert) (rule : AlertRule) (metric' : string)
    (value' : Q) (timestamp' : option Z) (current_time' : Z) :
  well_formed self ->
  cooldowns_fit self ->
  cooldown_fits rule = true ->
  evaluate self metric value timestamp current_time
    = (self1, Return alerts1) ->
  a ∈ alerts1 ->
  id rule = rule_id a ->
  current_time' - current_time
    < cooldown_seconds (condition rule) * 1000000 ->
  exists self2 alerts2,
    evaluate (add_rule (remove_rule self1 (rule_id a)) rule) metric' value'
      timestamp' current_time'
      = (self2, Return alerts2) /\
    (forall b, b ∈ alerts2 -> rule_id b <> rule_id a) /\
    forall limit, get_alert_history self2 (rule_id a) limit = [].
Proof.
  intros Hwf Hfit Hfits Hev Ha Hid Hcool.
  destruct (evaluate_returned self self1 metric value timestamp current_time
              alerts1 Hwf Hev) as (-> & Hrules1 & Hwf1 & Hstate1).
  assert (cooldowns_fit self1) as Hfit1
    by (unfold cooldowns_fit; by rewrite Hrules1).
  destruct (elem_of_fired self metric value timestamp current_time a
              (proj1 Hwf) Ha) as (rule0 & _ & _ & Hget0 & _).
  specialize (Hstate1 (rule_id a)). unfold recorded in Hstate1.
  rewrite Hget0 in Hstate1. destruct Hstate1 as [Hlast _]. clear Hget0.
  set (again := add_rule (remove_rule self1 (rule_id a)) rule).
  assert (well_formed again) as Hwf2.
  { by apply add_rule_well_formed, remove_rule_well_formed. }
  assert (cooldowns_fit again) as Hfit2.
  { apply add_rule_cooldowns_fit; [|done].
    apply remove_rule_cooldowns_fit; [apply Hwf1 | done]. }
  assert (last_alert_time again !! rule_id a = Some current_time) as Hlast2.
  { subst again. simpl. by rewrite remove_rule_last_alert_time. }
  assert ((rule_id a, rule) ∈ rules again) as Hin2.
  { subst again. simpl. apply dict_get_elem_of. rewrite Hid.
    apply dict_get_set_eq. }
  assert (forall rule2,
            (rule_id a, rule2) ∈ rules again ->
            fires again metric' value' current_time' (rule_id a, rule2)
            = false) as Hquiet.
  { intros rule2 Hin.
    rewrite (NoDup_fst_unique _ _ _ _ (proj1 Hwf2) Hin Hin2).
    rewrite fires_fits by done. cbn [fst snd]. rewrite Hlast2.
    assert ((current_time' - current_time
             <? cooldown_seconds (condition rule) * 1000000) = true)
      as -> by lia.
    by rewrite andb_false_r. }
  destruct (evaluate_fires again metric' value' timestamp' current_time'
              Hwf2 Hfit2) as (self2 & Hev2 & _ & _ & _ & Hstate2).
  exists self2. eexists. split; [exact Hev2|]. split.
  - intros b Hb Heq.
    destruct (elem_of_fired again metric' value' timestamp' current_time' b
                (proj1 Hwf2) Hb) as (rule2 & Hinb & Hfb & _).
    rewrite Heq in Hinb, Hfb. by rewrite Hquiet in Hfb.
  - intros limit. unfold get_alert_history.
    specialize (Hstate2 (rule_id a)). unfold recorded in Hstate2.
    destruct (dict_get (rule_id a) _) as [rule2|] eqn:Hget2.
    + apply dict_get_elem_of, list_elem_of_In, filter_In in Hget2
        as [Hinb Hfb].
      apply list_elem_of_In in Hinb. by rewrite Hquiet in Hfb.
    + destruct Hstate2 as [_ ->]. subst again. simpl.
      rewrite Hid, lookup_insert_eq. apply slice_from_nil.
Qed.

(** X27.  Every alert [evaluate] returns is appended to the history of
    its rule: afterwards [get_alert_history] with limit 1 gives that alert
    alone, and with limit 0 the whole history, the new alert last.  The
    history of a rule without an alert in the returned list is what it
    was. *)
Theorem alerts_are_recorded (self self' : Engine) (metric : string)
    (value : Q) (timestamp : option Z) (current_time : Z)
    (alerts : list Alert) :
  well_formed self ->
  evaluate self metric value timestamp current_time
    = (self', Return alerts) ->
  (forall a, a ∈ alerts ->
     get_alert_history self' (rule_id a) 1 = [a] /\
     get_alert_history self' (rule_id a) 0
     = get_alert_history self (rule_id a) 0 ++ [a]) /\
  (forall rid limit,
     (forall a, a ∈ alerts -> rule_id a <> rid) ->
     get_alert_history self' rid limit = get_alert_history self rid limit).
Proof.
  intros Hwf Hev.
  destruct (evaluate_returned self self' metric value timestamp current_time
              alerts Hwf Hev) as (-> & _ & _ & Hstate).
  split.
  - intros a Ha.
    destruct (elem_of_fired self metric value timestamp current_time a
                (proj1 Hwf) Ha) as (rule & Hin & _ & Hget & Heq).
    specialize (Hstate (rule_id a)). unfold recorded in Hstate.
    rewrite Hget in Hstate. destruct Hstate as [_ Hhist].
    destruct (proj2 Hwf _ _ Hin) as [history Hhistory].
    unfold get_alert_history. rewrite Hhist, Hhistory, <- Heq. simpl.
    split; [|done].
    unfold slice_from. simpl. rewrite length_app. simpl.
    change (Z.to_nat (- - (1))) with 1%nat.
    rewrite drop_app_ge by lia.
    by replace (length history + 1 - 1 - length history)%nat with 0%nat
      by lia.
  - intros rid limit Hnone. unfold get_alert_history.
    specialize (Hstate rid). unfold recorded in Hstate.
    destruct (dict_get rid _) as [rule|] eqn:Hget.
    + exfalso.
      apply (Hnone (alert_of metric value timestamp current_time
                      (rid, rule))); [|done].
      apply list_elem_of_In, in_map_iff. exists (rid, rule).
      split; [done|]. by apply list_elem_of_In, dict_get_elem_of.
    + by destruct Hstate as [_ ->].
Qed.

Lemma engine_calls_well_formed (calls : list EngineCall) :
  forall self,
    well_formed self ->
    cooldowns_fit self ->
    Forall (fun c => call_fits c = true) calls ->
    (well_formed (engine_calls self calls).1 /\
     cooldowns_fit (engine_calls self calls).1) /\
    Forall (fun r => exists alerts, r = Return alerts)
      (engine_calls self calls).2.
Proof.
  induction calls as [|c calls IH]; intros self Hwf Hfit Hcalls;
    [by split|].
  apply Forall_cons in Hcalls as [Hc Hcalls].
  cbn [engine_calls].
  assert ((well_formed (engine_call self c).1 /\
           cooldowns_fit (engine_call self c).1) /\
          Forall (fun r => exists alerts, r = Return alerts)
            (engine_call self c).2) as [[Hwf1 Hfit1] Hr1].
  { destruct c as [rule|rid|metric value timestamp current_time]; simpl.
    - split; [|constructor].
      split; [by apply add_rule_well_formed|].
      by apply add_rule_cooldowns_fit.
    - split; [|constructor].
      split; [by apply remove_rule_well_formed|].
      apply remove_rule_cooldowns_fit; [apply Hwf | done].
    - destruct (evaluate_fires self metric value timestamp current_time Hwf
                  Hfit) as (self' & -> & _ & Hwf' & Hfit' & _).
      split; [done|]. constructor; [by eexists | constructor]. }
  destruct (engine_call self c) as [self1 r1]. simpl in Hwf1, Hfit1, Hr1.
  destruct (IH self1 Hwf1 Hfit1 Hcalls) as [Hinv2 Hr2].
  destruct (engine_calls self1 calls) as [self2 r2]. simpl in *.
  split; [done|]. by apply Forall_app.
Qed.

(** X28.  Whatever rules a client adds and removes on a new engine, as
    long as the cooldowns of the rules added are durations [timedelta] can
    hold, and whatever it evaluates in between, no [evaluate] raises: each
    returns a list of alerts, and the rule ids stay distinct, each with a
    history list. *)
Theorem engine_calls_never_raise (calls : list EngineCall) :
  Forall (fun c => call_fits c = true) calls ->
  well_formed (engine_calls new_engine calls).1 /\
  Forall (fun r => exists alerts, r = Return alerts)
    (engine_calls new_engine calls).2.
Proof.
  intros Hcalls.
  destruct (engine_calls_well_formed calls new_engine
              new_engine_well_formed) as [[Hwf _] Hr]; [|done..].
  intros rid rule Hin. by apply elem_of_nil in Hin.
Qed.

Lemma price_engine_well_formed : well_formed Scenarios.price_engine.
Proof.
  do 2 apply add_rule_well_formed. apply new_engine_well_formed.
Qed.

Lemma price_engine_cooldowns_fit : cooldowns_fit Scenarios.price_engine.
Proof.
  do 2 (apply add_rule_cooldowns_fit; [|reflexivity]).
  intros rid rule Hin. by apply elem_of_nil in Hin.
Qed.

(** X24 on the price engine: a price of 130 fires the ">" rule, with
    severity high. *)
Lemma evaluate_alerts_exactly_witness :
  (well_formed Scenarios.price_engine /\
   cooldowns_fit Scenarios.price_engine) /\
  (evaluate Scenarios.price_engine "price" 130 None 0).2
  = Return
      [make_alert "price-high" Scenarios.price_rule "price" 130 None 0].
Proof.
  split; [split; [exact price_engine_well_formed
                 | exact price_engine_cooldowns_fit]|].
  destruct (evaluate_alerts_exactly Scenarios.price_engine "price" 130 None
              0 price_engine_well_formed price_engine_cooldowns_fit)
    as (self' & Hev & _).
  rewrite Hev. reflexivity.
Defined.

(** X25 on the price engine: the rule fires at time 0 and has a cooldown
    of 60 seconds. *)
Lemma cooldown_suppresses_alert_witness :
  (well_formed Scenarios.price_engine /\
   cooldowns_fit Scenarios.price_engine /\
   evaluate Scenarios.price_engine "price" 160 None 0
   = (Scenarios.alerted_engine, Return [Scenarios.price_alert]) /\
   Scenarios.price_alert ∈ [Scenarios.price_alert] /\
   ("price-high", Scenarios.price_rule) ∈ rules Scenarios.price_engine) /\
  exists self2 alerts2,
    evaluate Scenarios.alerted_engine "price" 170 None 59000000
      = (self2, Return alerts2) /\
    (59000000 - 0 < 60 * 1000000 ->
     forall b, b ∈ alerts2 -> rule_id b <> "price-high") /\
    (60 * 1000000 <= 59000000 - 0 ->
     "price" = "price" ->
     _check_condition 170 ">" 100 = true ->
     make_alert "price-high" Scenarios.price_rule "price" 170 None 59000000
       ∈ alerts2).
Proof.
  assert (("price-high", Scenarios.price_rule)
            ∈ rules Scenarios.price_engine) as Hin by (by left).
  split.
  { split; [exact price_engine_well_formed|].
    split; [exact price_engine_cooldowns_fit|]. split; [reflexivity|].
    split; [by left | exact Hin]. }
  exact (cooldown_suppresses_alert Scenarios.price_engine
           Scenarios.alerted_engine "price" 160 None 0
           [Scenarios.price_alert] Scenarios.price_alert
           Scenarios.price_rule "price" 170 None 59000000
           price_engine_well_formed price_engine_cooldowns_fit eq_refl
           (list_elem_of_here _ _) Hin).
Defined.

(** X26 on the price engine: the rule is removed and added again within
    its cooldown. *)
Lemma cooldown_survives_removal_witness :
  (well_formed Scenarios.price_engine /\
   cooldowns_fit Scenarios.price_engine /\
   cooldown_fits Scenarios.price_rule = true /\
   evaluate Scenarios.price_engine "price" 160 None 0
   = (Scenarios.alerted_engine, Return [Scenarios.price_alert]) /\
   Scenarios.price_alert ∈ [Scenarios.price_alert] /\
   id Scenarios.price_rule = "price-high" /\
   59000000 - 0 < 60 * 1000000) /\
  exists self2 alerts2,
    evaluate
      (add_rule (remove_rule Scenarios.alerted_engine "price-high")
         Scenarios.price_rule)
      "price" 170 None 59000000
      = (self2, Return alerts2) /\
    (forall b, b ∈ alerts2 -> rule_id b <> "price-high") /\
    forall limit, get_alert_history self2 "price-high" limit = [].
Proof.
  split.
  { split; [exact price_engine_well_formed|].
    split; [exact price_engine_cooldowns_fit|].
    split; [reflexivity|]. split; [reflexivity|].
    split; [by left|]. split; [reflexivity | lia]. }
  exact (cooldown_survives_removal Scenarios.price_engine
           Scenarios.alerted_engine "price" 160 None 0
           [Scenarios.price_alert] Scenarios.price_alert
           Scenarios.price_rule "price" 170 None 59000000
           price_engine_well_formed price_engine_cooldowns_fit eq_refl
           eq_refl (list_elem_of_here _ _) eq_refl ltac:(simpl; lia)).
Defined.

(** X27 on the price engine. *)
Lemma alerts_are_recorded_witness :
  (well_formed Scenarios.price_engine /\
   evaluate Scenarios.price_engine "price" 160 None 0
   = (Scenarios.alerted_engine, Return [Scenarios.price_alert])) /\
  get_alert_history Scenarios.alerted_engine "price-high" 1
  = [Scenarios.price_alert] /\
  get_alert_history Scenarios.alerted_engine "price-ne" 10 = [].
Proof.
  split; [split; [exact price_engine_well_formed | reflexivity]|].
  destruct (alerts_are_recorded Scenarios.price_engine
              Scenarios.alerted_engine "price" 160 None 0
              [Scenarios.price_alert] price_engine_well_formed eq_refl)
    as [Hfired Hothers].
  split.
  - exact (proj1 (Hfired Scenarios.price_alert (list_elem_of_here _ _))).
  - rewrite (Hothers "price-ne" 10); [reflexivity|].
    intros a [->|Ha]%elem_of_cons; [done | by apply elem_of_nil in Ha].
Defined.

(** X28 on the calls of the price scenario. *)
Lemma engine_calls_never_raise_witness :
  Forall (fun c => call_fits c = true) Scenarios.price_calls /\
  Forall (fun r => exists alerts, r = Return alerts)
    (engine_calls new_engine Scenarios.price_calls).2.
Proof.
  assert (Forall (fun c => call_fits c = true) Scenarios.price_calls) as H
    by (repeat constructor).
  split; [exact H|].
  exact (proj2 (engine_calls_never_raise Scenarios.price_calls H)).
Defined.

(** The price rule fires at 0, is removed and added again, stays silent
    at 59 seconds and fires at 60. *)
Example price_calls_run :
  map (fun r => match r with
                | Return alerts => map current_value alerts
                | Raise _ => []
                end)
    (engine_calls new_engine Scenarios.price_calls).2
  = [[160%Q]; []; [170%Q]].
Proof. reflexivity. Qed.

(** A cooldown of 10^14 seconds is more than [timedelta] can hold: the
    first evaluation fires the rule, and the second, which has to check
    the cooldown, raises [OverflowError]. *)
Example patient_calls_run :
  cooldown_fits Scenarios.patient_rule = false /\
  (engine_calls new_engine Scenarios.patient_calls).2
  = [Return
       [make_alert "price-high" Scenarios.patient_rule "price" 160 None 0];
     Raise (EOther "OverflowError" "days out of range for timedelta")].
Proof. split; reflexivity. Qed.

End AlertRuns.

(** ** The connection pool *)

Section ConnectFacts.
Import PyNum Errors PyFloat Resilience Connection.
Context {BlockingConnection : Type}.
Variable is_open : BlockingConnection -> bool.
Variable amqp_error : Exception -> bool.
Variable open_connection : Z -> Result BlockingConnection.
Variable self : ConnectionPool (BlockingConnection := BlockingConnection).

(** Below attempt 1024, with non-negative settings and a maximum delay
    that [time.sleep] can take, the delay is computed and slept. *)
Lemma retry_delay_sleeps (attempt : Z) :
  (0 <= initial_retry_delay self)%Q ->
  (0 <= max_retry_delay self)%Q ->
  (max_retry_delay self * inject_Z (10 ^ 9) < inject_Z (2 ^ 63))%Q ->
  attempt < 1024 ->
  _calculate_retry_delay self attempt
  = Return (Qmin (initial_retry_delay self * Qpower 2 attempt)
              (max_retry_delay self)) /\
  time_sleep (Qmin (initial_retry_delay self * Qpower 2 attempt)
                (max_retry_delay self)) = Return tt.
Proof.
  intros Hinit Hmax Hfits Hlt. split.
  { unfold _calculate_retry_delay, float_pow2.
    by rewrite (proj2 (Z.leb_gt 1024 attempt)) by lia. }
  assert (0 <= Qmin (initial_retry_delay self * Qpower 2 attempt)
                 (max_retry_delay self))%Q as Hpos.
  { apply Q.min_glb; [|done].
    apply Qmult_le_0_compat; [done|]. by apply Qpower_0_le. }
  pose proof (Q.le_min_r (initial_retry_delay self * Qpower 2 attempt)
                (max_retry_delay self)) as Hcap.
  set (d := Qmin (initial_retry_delay self * Qpower 2 attempt)
              (max_retry_delay self)) in *.
  assert (0 <= d * inject_Z (10 ^ 9))%Q as Hns.
  { apply Qmult_le_0_compat; [done|]. by vm_compute. }
  assert (d * inject_Z (10 ^ 9)
          <= max_retry_delay self * inject_Z (10 ^ 9))%Q as Hle.
  { apply Qmult_le_compat_r; [done|]. by vm_compute. }
  unfold time_sleep.
  assert (Qle_bool (inject_Z (2 ^ 63)) (d * inject_Z (10 ^ 9)) = false)
    as ->.
  { apply not_true_iff_false. intros Hb. apply Qle_bool_iff in Hb.
    apply (Qlt_irrefl (inject_Z (2 ^ 63))).
    eapply Qle_lt_trans; [exact Hb|]. eapply Qle_lt_trans; done. }
  assert (Qlt_bool (d * inject_Z (10 ^ 9)) (inject_Z (- 2 ^ 63)) = false)
    as ->.
  { apply Qlt_bool_false_iff. eapply Qle_trans; [|exact Hns].
    by vm_compute. }
  simpl. by rewrite (proj2 (Qlt_bool_false_iff d 0) Hpos).
Qed.

Lemma connect_loop_first_connection (k : nat) (c : BlockingConnection) :
  forall (a n : Z) (last_error : option Exception),
    a + n = max_retries self ->
    Z.of_nat k < n ->
    a + Z.of_nat k <= 1024 ->
    (0 <= initial_retry_delay self)%Q ->
    (0 <= max_retry_delay self)%Q ->
    (max_retry_delay self * inject_Z (10 ^ 9) < inject_Z (2 ^ 63))%Q ->
    (forall i, a <= i < a + Z.of_nat k ->
               fails_amqp amqp_error open_connection i) ->
    open_connection (a + Z.of_nat k) = Return c ->
    exists tr,
      connect_loop amqp_error open_connection self (seqZ a n) last_error
      = (set_connection (Some c) self, tr, Return c) /\
      invocations tr = S k /\
      sleeps tr
      = (fun i => Qmin (initial_retry_delay self * Qpower 2 i)
                    (max_retry_delay self)) <$> seqZ a (Z.of_nat k).
Proof.
  induction k as [|k IH];
    intros a n last_error Hsum Hlt Hbound Hinit Hmax Hfits Hfail Hok.
  - rewrite Z.add_0_r in Hok. rewrite seqZ_cons by lia.
    cbn [connect_loop]. rewrite Hok. by eexists.
  - rewrite (seqZ_cons a n) by lia. cbn [connect_loop].
    destruct (Hfail a ltac:(lia)) as (e & Hfa & Hamqp).
    rewrite Hfa, Hamqp.
    rewrite (proj2 (Z.ltb_lt a (max_retries self - 1))) by lia.
    destruct (retry_delay_sleeps a Hinit Hmax Hfits ltac:(lia)) as [-> ->].
    destruct (IH (Z.succ a) (Z.pred n) (Some e) ltac:(lia) ltac:(lia)
                ltac:(lia) Hinit Hmax Hfits) as (tr & -> & Hinv & Hsleeps).
    + intros i Hi. apply Hfail. lia.
    + by replace (Z.succ a + Z.of_nat k) with (a + Z.of_nat (S k)) by lia.
    + eexists. split; [done|].
      rewrite invocations_invoke, invocations_sleep, sleeps_invoke,
        sleeps_sleep, Hinv, Hsleeps.
      split; [done|].
      rewrite (seqZ_cons a (Z.of_nat (S k))) by lia.
      rewrite fmap_cons. do 3 f_equal. lia.
Qed.

Lemma connect_loop_exhausted (n : nat) :
  forall (a : Z) (last_error : option Exception),
    a + Z.of_nat n = max_retries self ->
    max_retries self <= 1025 ->
    (0 <= initial_retry_delay self)%Q ->
    (0 <= max_retry_delay self)%Q ->
    (max_retry_delay self * inject_Z (10 ^ 9) < inject_Z (2 ^ 63))%Q ->
    (forall i, a <= i < max_retries self ->
               fails_amqp amqp_error open_connection i) ->
    exists tr,
      connect_loop amqp_error open_connection self (seqZ a (Z.of_nat n))
        last_error
      = (self, tr,
         Raise
           (could_not_connect self
              (match n with
               | O => last_error
               | S _ => error_of (open_connection (max_retries self - 1))
               end))) /\
      invocations tr = n /\
      sleeps tr
      = (fun i => Qmin (initial_retry_delay self * Qpower 2 i)
                    (max_retry_delay self)) <$> seqZ a (Z.of_nat n - 1).
Proof.
  induction n as [|n IH];
    intros a last_error Hsum Hbound Hinit Hmax Hfits Hfail.
  - rewrite seqZ_nil by lia. cbn [connect_loop]. eexists.
    split; [done|]. split; [done|]. by rewrite seqZ_nil by lia.
  - rewrite seqZ_cons by lia.
    replace (Z.pred (Z.of_nat (S n))) with (Z.of_nat n) by lia.
    cbn [connect_loop].
    destruct (Hfail a ltac:(lia)) as (e & Hfa & Hamqp).
    rewrite Hfa, Hamqp.
    destruct (IH (Z.succ a) (Some e) ltac:(lia) Hbound Hinit Hmax Hfits)
      as (tr & -> & Hinv & Hsleeps).
    { intros i Hi. apply Hfail. lia. }
    destruct (a <? max_retries self - 1) eqn:Hlast.
    + apply Z.ltb_lt in Hlast.
      destruct (retry_delay_sleeps a Hinit Hmax Hfits ltac:(lia))
        as [-> ->].
      eexists. split; [|split].
      * destruct n as [|n]; [lia|]. done.
      * by rewrite invocations_invoke, invocations_sleep, Hinv.
      * rewrite sleeps_invoke, sleeps_sleep, Hsleeps.
        replace (Z.of_nat (S n) - 1) with (Z.of_nat n) by lia.
        rewrite (seqZ_cons a (Z.of_nat n)) by lia.
        by rewrite fmap_cons.
    + apply Z.ltb_ge in Hlast. assert (n = 0)%nat as -> by lia.
      eexists. split; [|split].
      * do 3 f_equal. replace (max_retries self - 1) with a by lia.
        by rewrite Hfa.
      * by rewrite invocations_invoke, Hinv.
      * rewrite sleeps_invoke, Hsleeps. by rewrite !seqZ_nil by lia.
Qed.

(** The loop also ends where the delay cannot be computed: from attempt
    1024 on, [2**attempt] does not fit a float. *)
Lemma connect_loop_overflows (k : nat) :
  forall (a n : Z) (last_error : option Exception),
    a + n = max_retries self ->
    Z.of_nat k < n - 1 ->
    a + Z.of_nat k = 1024 ->
    (0 <= initial_retry_delay self)%Q ->
    (0 <= max_retry_delay self)%Q ->
    (max_retry_delay self * inject_Z (10 ^ 9) < inject_Z (2 ^ 63))%Q ->
    (forall i, a <= i <= 1024 -> fails_amqp amqp_error open_connection i) ->
    exists tr,
      connect_loop amqp_error open_connection self (seqZ a n) last_error
      = (self, tr,
         Raise (EOther "OverflowError" "int too large to convert to float"))
      /\
      invocations tr = S k /\
      length (sleeps tr) = k.
Proof.
  induction k as [|k IH];
    intros a n last_error Hsum Hlt Hbound Hinit Hmax Hfits Hfail.
  - rewrite (seqZ_cons a n) by lia. cbn [connect_loop].
    destruct (Hfail a ltac:(lia)) as (e & Hfa & Hamqp).
    rewrite Hfa, Hamqp.
    rewrite (proj2 (Z.ltb_lt a (max_retries self - 1))) by lia.
    unfold _calculate_retry_delay, float_pow2.
    rewrite (proj2 (Z.leb_le 1024 a)) by lia. by eexists.
  - rewrite (seqZ_cons a n) by lia. cbn [connect_loop].
    destruct (Hfail a ltac:(lia)) as (e & Hfa & Hamqp).
    rewrite Hfa, Hamqp.
    rewrite (proj2 (Z.ltb_lt a (max_retries self - 1))) by lia.
    destruct (retry_delay_sleeps a Hinit Hmax Hfits ltac:(lia)) as [-> ->].
    destruct (IH (Z.succ a) (Z.pred n) (Some e) ltac:(lia) ltac:(lia)
                ltac:(lia) Hinit Hmax Hfits) as (tr & -> & Hinv & Hsleeps).
    { intros i Hi. apply Hfail. lia. }
    eexists. split; [done|].
    rewrite invocations_invoke, invocations_sleep, sleeps_invoke,
      sleeps_sleep, Hinv. cbn [length]. by rewrite Hsleeps.
Qed.

Lemma connect_not_connected :
  is_connected is_open self = false ->
  connect is_open amqp_error open_connection self
  = connect_loop amqp_error open_connection self
      (range (max_retries self)) None.
Proof.
  unfold is_connected, connect.
  destruct (_connection self) as [c|]; [|done]. by intros ->.
Qed.

(** X29.  A pool without an open connection connects at the first attempt
    the broker accepts: when the [k] attempts before it fail with AMQP
    errors ([k < max_retries], [k <= 1024], delays not negative and the
    maximum delay one that [time.sleep] can take), [connect] returns the
    connection of attempt [k] after [k + 1] attempts, having slept
    [min(initial_retry_delay * 2^i, max_retry_delay)] after each failed
    attempt [i]; it keeps the connection, and while that connection is
    open [get_connection] returns it without a new attempt. *)
Theorem connect_stops_at_first_connection (k : nat)
    (c : BlockingConnection) :
  is_connected is_open self = false ->
  Z.of_nat k < max_retries self ->
  Z.of_nat k <= 1024 ->
  (0 <= initial_retry_delay self)%Q ->
  (0 <= max_retry_delay self)%Q ->
  (max_retry_delay self * inject_Z (10 ^ 9) < inject_Z (2 ^ 63))%Q ->
  (forall i, 0 <= i < Z.of_nat k ->
             fails_amqp amqp_error open_connection i) ->
  open_connection (Z.of_nat k) = Return c ->
  exists tr,
    connect is_open amqp_error open_connection self
    = (set_connection (Some c) self, tr, Return c) /\
    invocations tr = S k /\
    sleeps tr
    = (fun i => Qmin (initial_retry_delay self * Qpower 2 i)
                  (max_retry_delay self)) <$> seqZ 0 (Z.of_nat k) /\
    (is_open c = true ->
     get_connection is_open amqp_error open_connection
       (set_connection (Some c) self)
     = (set_connection (Some c) self, [], Return c)).
Proof.
  intros Hnot Hk Hbound Hinit Hmax Hfits Hfail Hok.
  rewrite connect_not_connected by done. unfold range.
  destruct (connect_loop_first_connection k c 0 (max_retries self) None
              ltac:(lia) Hk ltac:(lia) Hinit Hmax Hfits)
    as (tr & Hloop & Hinv & Hsleeps).
  { intros i Hi. apply Hfail. lia. }
  { by rewrite Z.add_0_l. }
  exists tr. split; [done|]. split; [done|]. split; [done|].
  intros Hopen. unfold get_connection. simpl. by rewrite Hopen.
Qed.

(** X30.  When every attempt fails with an AMQP error, [connect] makes
    exactly [max_retries] attempts (none when [max_retries <= 0]), sleeps
    after each but the last, and raises [AMQPConnectionError] with the
    text of the last error, whichever of the two AMQP errors that was;
    the pool is left as it was.  This is for [max_retries <= 1025],
    delays not negative and a maximum delay [time.sleep] can take; with
    more than 1025 attempts allowed the run ends after attempt 1024 with
    the [OverflowError] of the delay computation. *)
Theorem connect_exhausted :
  is_connected is_open self = false ->
  (0 <= initial_retry_delay self)%Q ->
  (0 <= max_retry_delay self)%Q ->
  (max_retry_delay self * inject_Z (10 ^ 9) < inject_Z (2 ^ 63))%Q ->
  (forall i, 0 <= i < max_retries self ->
             fails_amqp amqp_error open_connection i) ->
  (max_retries self <= 1025 ->
   exists tr,
     connect is_open amqp_error open_connection self
     = (self, tr,
        Raise
          (could_not_connect self
             (if 0 <? max_retries self
              then error_of (open_connection (max_retries self - 1))
              else None))) /\
     Z.of_nat (invocations tr) = Z.max 0 (max_retries self) /\
     sleeps tr
     = (fun i => Qmin (initial_retry_delay self * Qpower 2 i)
                   (max_retry_delay self))
       <$> seqZ 0 (max_retries self - 1)) /\
  (1025 < max_retries self ->
   exists tr,
     connect is_open amqp_error open_connection self
     = (self, tr,
        Raise (EOther "OverflowError" "int too large to convert to float"))
     /\
     invocations tr = 1025%nat /\
     length (sleeps tr) = 1024%nat).
Proof.
  intros Hnot Hinit Hmax Hfits Hfail.
  rewrite connect_not_connected by done. unfold range. split.
  - intros Hbound. destruct (0 <? max_retries self) eqn:Hpos.
    + apply Z.ltb_lt in Hpos.
      destruct (connect_loop_exhausted (Z.to_nat (max_retries self)) 0 None
                  ltac:(lia) Hbound Hinit Hmax Hfits Hfail)
        as (tr & Hloop & Hinv & Hsl).
      rewrite Z2Nat.id in Hloop, Hsl by lia.
      exists tr. split; [|split; [lia | done]].
      rewrite Hloop.
      destruct (Z.to_nat (max_retries self)) eqn:Hn; [lia|done].
    + apply Z.ltb_ge in Hpos. rewrite !seqZ_nil by lia.
      cbn [connect_loop]. exists []. split; [done|]. split; [|done].
      change (invocations []) with 0%nat. lia.
  - intros Hbig.
    apply (connect_loop_overflows 1024 0 (max_retries self) None);
      [lia | lia | lia | done..|].
    intros i Hi. apply Hfail. lia.
Qed.

End ConnectFacts.

Section ConnectScenarios.
Import Errors PyFloat Resilience Connection.

(** X29 on the default pool, with a broker that refuses two attempts:
    the third connects, after sleeps of 1 and 2 seconds. *)
Lemma connect_stops_at_first_connection_witness :
  (is_connected (fun _ => true) Scenarios.default_pool = false /\
   2 < max_retries Scenarios.default_pool /\
   Scenarios.refuses_twice 2 = Return 2) /\
  exists tr,
    connect (fun _ => true) Scenarios.amqp_error Scenarios.refuses_twice
      Scenarios.default_pool
    = (set_connection (Some 2) Scenarios.default_pool, tr, Return 2) /\
    invocations tr = 3%nat /\
    sleeps tr
    = (fun i => Qmin (initial_retry_delay Scenarios.default_pool
                      * Qpower 2 i)
                  (max_retry_delay Scenarios.default_pool)) <$> seqZ 0 2 /\
    (true = true ->
     get_connection (fun _ => true) Scenarios.amqp_error
       Scenarios.refuses_twice
       (set_connection (Some 2) Scenarios.default_pool)
     = (set_connection (Some 2) Scenarios.default_pool, [], Return 2)).
Proof.
  split; [split; [reflexivity | split; [simpl; lia | reflexivity]]|].
  refine (connect_stops_at_first_connection (fun _ => true)
            Scenarios.amqp_error Scenarios.refuses_twice
            Scenarios.default_pool 2 2 eq_refl _ _ _ _ _ _ eq_refl).
  - simpl; lia.
  - simpl; lia.
  - unfold Qle; simpl; lia.
  - unfold Qle; simpl; lia.
  - reflexivity.
  - intros i Hi.
    exists (EOther "AMQPConnectionError" "connection refused").
    split; [|reflexivity]. unfold Scenarios.refuses_twice.
    by rewrite (proj2 (Z.ltb_lt i 2)) by (simpl in Hi; lia).
Defined.

(** X30 on the default pool, with a broker that never accepts. *)
Lemma connect_exhausted_witness :
  (is_connected (fun _ => true) Scenarios.default_pool = false /\
   (0 <= initial_retry_delay Scenarios.default_pool)%Q /\
   (0 <= max_retry_delay Scenarios.default_pool)%Q /\
   max_retries Scenarios.default_pool <= 1025) /\
  exists tr,
    connect (fun _ => true) Scenarios.amqp_error Scenarios.never_accepts
      Scenarios.default_pool
    = (Scenarios.default_pool, tr,
       Raise
         (EOther "AMQPConnectionError"
            "Could not connect to RabbitMQ after 5 attempts: connection refused")) /\
    Z.of_nat (invocations tr) = 5 /\
    sleeps tr
    = (fun i => Qmin (initial_retry_delay Scenarios.default_pool
                      * Qpower 2 i)
                  (max_retry_delay Scenarios.default_pool)) <$> seqZ 0 4.
Proof.
  assert (0 <= initial_retry_delay Scenarios.default_pool)%Q as Hinit
    by (unfold Qle; simpl; lia).
  assert (0 <= max_retry_delay Scenarios.default_pool)%Q as Hmax
    by (unfold Qle; simpl; lia).
  assert (max_retries Scenarios.default_pool <= 1025) as Hbound
    by (simpl; lia).
  split; [split; [reflexivity | split; [exact Hinit | split;
                                          [exact Hmax | exact Hbound]]]|].
  refine (proj1 (connect_exhausted (fun _ => true) Scenarios.amqp_error
                   Scenarios.never_accepts Scenarios.default_pool eq_refl
                   Hinit Hmax _ _) Hbound).
  - reflexivity.
  - intros i Hi. exists (EOther "AMQPConnectionError" "connection refused").
    split; reflexivity.
Defined.

End ConnectScenarios.
